(** * profound-utils: the DDS/JSON structural codec

    A shallow embedding of the conversion core of the repository
    ([ddsToJson.js], [jsonToDds.js], [shared/asyncUtils.js]) together with
    the properties its specification states about it.

    JavaScript strings are modelled as lists of 8-bit characters (DDS source
    members are single-byte text), array indices and string positions as
    [Z] or [nat] following the sign the source can give them, and a rejected
    promise or a thrown exception as the [Throw] outcome. *)

From Stdlib Require Import Ascii String ZArith Lia Bool.
From stdpp Require Import base list strings.

Set Warnings "-register-all".
Local Open Scope Z_scope.

(** ** Strings *)

Abbreviation str := (list ascii).

Definition lit (s : string) : str := list_ascii_of_string s.

Definition str_eqb (a b : str) : bool := bool_decide (a = b).

Definition size (s : str) : Z := Z.of_nat (length s).

(** [lines.length] of an array of lines. *)
Definition size_lines (lines : list str) : Z := Z.of_nat (length lines).

(** [String.prototype.substr(start, length)]: a negative [start] counts
    from the end, the length is clamped to what is left. *)
Definition substr (s : str) (start len : Z) : str :=
  let st := if start <? 0 then Z.max (size s + start) 0 else Z.min start (size s) in
  take (Z.to_nat (Z.min (Z.max len 0) (size s))) (drop (Z.to_nat st) s).

(** [substr(start)], the length left out. *)
Definition substr_from (s : str) (start : Z) : str :=
  let st := if start <? 0 then Z.max (size s + start) 0 else Z.min start (size s) in
  drop (Z.to_nat st) s.

(** [String.prototype.substring(a, b)]: both ends clamped to the string,
    swapped when out of order. *)
Definition substring (s : str) (a b : Z) : str :=
  let a' := Z.min (Z.max a 0) (size s) in
  let b' := Z.min (Z.max b 0) (size s) in
  take (Z.to_nat (Z.max a' b' - Z.min a' b')) (drop (Z.to_nat (Z.min a' b')) s).

Fixpoint starts_with (pat s : str) : bool :=
  match pat, s with
  | [], _ => true
  | p :: pat', c :: s' => bool_decide (p = c) && starts_with pat' s'
  | _ :: _, [] => false
  end.

(** [lastIndexOf(pat)], scanning from position [i]; -1 when [pat] does not
    occur. *)
Fixpoint lastIndexOf_from (s pat : str) (i : Z) : Z :=
  match s with
  | [] => if starts_with pat [] then i else -1
  | _ :: s' =>
      let r := lastIndexOf_from s' pat (i + 1) in
      if 0 <=? r then r else if starts_with pat s then i else -1
  end.

Definition lastIndexOf (s pat : str) : Z := lastIndexOf_from s pat 0.

(** The white space and line terminators of ECMAScript that fit in a byte. *)
Definition is_js_space (c : ascii) : bool :=
  let n := nat_of_ascii c in
  ((9 <=? n) && (n <=? 13))%nat || (n =? 32)%nat || (n =? 160)%nat.

Fixpoint trimLeft (s : str) : str :=
  match s with
  | c :: s' => if is_js_space c then trimLeft s' else s
  | [] => []
  end.

Definition trimRight (s : str) : str := rev (trimLeft (rev s)).

Definition trim (s : str) : str := trimLeft (trimRight s).

Definition quote : ascii := "'"%char.

(** [replace(/'/g, "''")]: the escape of the renderer. *)
Fixpoint escape_quotes (s : str) : str :=
  match s with
  | [] => []
  | c :: s' => if bool_decide (c = quote) then quote :: quote :: escape_quotes s'
               else c :: escape_quotes s'
  end.

(** [replace(/''/g, "'")]: the matches are taken left to right and do not
    overlap. *)
Fixpoint unescape_quotes (s : str) : str :=
  match s with
  | [] => []
  | c :: s' =>
      match s' with
      | d :: s'' =>
          if bool_decide (c = quote) && bool_decide (d = quote)
          then quote :: unescape_quotes s''
          else c :: unescape_quotes s'
      | [] => [c]
      end
  end.

(** ** Outcomes of a call *)

Inductive js_error :=
  | TypeError (what : str)   (* a property read or a call on [undefined] or on a value without it *)
  | SyntaxError.             (* raised by [JSON.parse] *)

Inductive outcome (A : Type) :=
  | Ok (a : A)
  | Throw (e : js_error)
  | OutOfFuel.
Arguments Ok {A} a.
Arguments Throw {A} e.
Arguments OutOfFuel {A}.

#[global] Instance outcome_bind : MBind outcome := fun A B k m =>
  match m with
  | Ok a => k a
  | Throw e => Throw e
  | OutOfFuel => OutOfFuel
  end.

#[global] Instance outcome_ret : MRet outcome := fun A a => Ok a.

(** ** Values and the JavaScript runtime

    The payloads are what [JSON.parse] returns. Numbers are kept abstract: the
    code under study only ever tests one for truthiness. An object is the list
    of its own properties in enumeration order. *)

Class JsNumber := {
  number : Type;
  number_truthy : number -> bool
}.

Inductive value `{JsNumber} :=
  | VNull
  | VBool (b : bool)
  | VNum (n : number)
  | VStr (s : str)
  | VArr (elts : list value)
  | VObj (props : list (str * value)).

(** The built-ins the code calls. [JSON_parse] answers [None] where
    [JSON.parse] throws a [SyntaxError]. *)
Class JsRuntime `{JsNumber} := {
  JSON_parse : str -> option value;
  JSON_stringify : value -> str;
  toUpperCase : str -> str
}.

(** What is assumed of the built-ins: the text [JSON.stringify] returns for
    a value is never empty. *)
Class JsRuntimeLaws `{JsRuntime} := {
  JSON_stringify_nonempty : forall v, JSON_stringify v <> []
}.

Section PropertyAccess.
Context `{JsRuntime}.

Fixpoint assoc (k : str) (props : list (str * value)) : option value :=
  match props with
  | [] => None
  | (k', v) :: props' => if str_eqb k k' then Some v else assoc k props'
  end.

(** [v.k] for a key that no prototype defines; [None] stands for
    [undefined]. Reading a property of [undefined] or [null] throws. *)
Definition prop (v : option value) (k : str) : outcome (option value) :=
  match v with
  | None | Some VNull => Throw (TypeError k)
  | Some (VObj props) => Ok (assoc k props)
  | Some _ => Ok None
  end.

(** [v.toUpperCase()]: only a string has the method. *)
Definition call_toUpperCase (v : option value) : outcome str :=
  match v with
  | Some (VStr s) => Ok (toUpperCase s)
  | _ => Throw (TypeError (lit "toUpperCase"))
  end.

(** The callback [x => x.screen['record format name'].toUpperCase() === rcdFmt];
    [rcdFmt] is [undefined] until a record-format header has been seen. *)
Definition names_format (rcdFmt : option str) (x : value) : outcome bool :=
  screen ← prop (Some x) (lit "screen");
  name ← prop screen (lit "record format name");
  upper ← call_toUpperCase name;
  Ok (bool_decide (rcdFmt = Some upper)).

(** [formats.filter(...)]: the callback runs on every element, in order. *)
Fixpoint filter_formats (rcdFmt : option str) (formats : list value)
  : outcome (list value) :=
  match formats with
  | [] => Ok []
  | x :: formats' =>
      keep ← names_format rcdFmt x;
      rest ← filter_formats rcdFmt formats';
      Ok (if (keep : bool) then x :: rest else rest)
  end.

End PropertyAccess.

(** ** The chunker ([chunkData], shared/asyncUtils.js) *)

Module Chunker.

(** The closure [fixSingleQuotes]: while the newest chunk starts with a single
    quote, the quote is moved to the end of the chunk before it. *)
Fixpoint fixSingleQuotes_loop (fuel : nat) (chunks : list str) (count : nat)
  : outcome (list str) :=
  match fuel with
  | O => OutOfFuel
  | S fuel' =>
      match chunks !! (count - 1)%nat with
      | None => Throw (TypeError (lit "substr"))
      | Some newest =>
          if str_eqb (substr newest 0 1) (lit "'") then
            let chunks1 := <[(count - 1)%nat := substr_from newest 1]> chunks in
            let before := nth (count - 2)%nat chunks1 (lit "undefined") in
            fixSingleQuotes_loop fuel'
              (<[(count - 2)%nat := before ++ lit "'"]> chunks1) count
          else Ok chunks
      end
  end.

Definition fixSingleQuotes (chunks : list str) (count : nat) : outcome (list str) :=
  if (1 <? count)%nat then
    fixSingleQuotes_loop (S (length (nth (count - 1)%nat chunks []))) chunks count
  else Ok chunks.

(** [while (chunkSize > 0 && data.substr(chunkSize - 1, 1) === ' ') chunkSize--] *)
Fixpoint skipTrailingBlanks (chunkSize : nat) (data : str) : nat :=
  match chunkSize with
  | O => O
  | S c => if str_eqb (substr data (Z.of_nat c) 1) (lit " ")
           then skipTrailingBlanks c data else chunkSize
  end.

Definition pickChunkSize (data : str) (bytes : Z) : Z :=
  let chunkSize :=
    if 0 <? bytes then Z.of_nat (skipTrailingBlanks (Z.to_nat bytes) data) else bytes in
  if chunkSize =? 0 then bytes else chunkSize.

Fixpoint chunkData_loop (fuel : nat) (data : str) (bytes : Z)
    (chunks : list str) (count : nat) : outcome (list str) :=
  match fuel with
  | O => OutOfFuel
  | S fuel' =>
      if bytes <? size data then
        let chunkSize := pickChunkSize data bytes in
        let chunks := chunks ++ [substr data 0 chunkSize] in
        let count := S count in
        chunks ← fixSingleQuotes chunks count;
        chunkData_loop fuel' (substr_from data chunkSize) bytes chunks count
      else if 0 <? size data then
        fixSingleQuotes (chunks ++ [data]) (S count)
      else Ok chunks
  end.

Definition chunkData (data : str) (bytes : Z) : outcome (list str) :=
  chunkData_loop (S (length data)) data bytes [] 0%nat.

End Chunker.

(** ** The renderer ([htmlObjToDdsLines], jsonToDds.js) *)

Module Renderer.
Section Renderer.
Context `{JsRuntime}.

Definition kwdOpen : str := lit "     A                                      ".

Definition htmlOpen (htmlLineNum : str) : str :=
  lit "     A                                " ++ htmlLineNum ++ lit "  2HTML('".

(** [for (pos = len, len = 79 - kwdOpen.length; pos < chunk.length; pos += len)] *)
Fixpoint continuation_loop (fuel : nat) (chunk : str) (pos len : Z)
    (isHtmlClosed : bool) (rtnLines : list str) : outcome (list str * bool) :=
  match fuel with
  | O => OutOfFuel
  | S fuel' =>
      if pos <? size chunk then
        let ddsLine := kwdOpen ++ substr chunk pos len in
        if size ddsLine =? 79
        then continuation_loop fuel' chunk (pos + len) len isHtmlClosed
               (rtnLines ++ [ddsLine ++ lit "-"])
        else continuation_loop fuel' chunk (pos + len) len true
               (rtnLines ++ [ddsLine ++ lit "')"])
      else Ok (rtnLines, isHtmlClosed)
  end.

(** The body of [for (const chunk of htmlChunks)]: the lines with those of
    [chunk] added, and whether the loop is left by [break]. *)
Definition chunk_lines (htmlOpen : str) (chunk : str) (rtnLines : list str)
  : outcome (list str * bool) :=
  let pos := 0 in
  let len := 79 - size htmlOpen in
  let availLength := substr chunk pos len in
  if size availLength <=? len - 2 then
    Ok (rtnLines ++ [htmlOpen ++ substr chunk pos len ++ lit "')"], true)
  else
    let rtnLines := rtnLines ++ [htmlOpen ++ substr chunk pos len ++ lit "-"] in
    let pos := len in
    let len := 79 - size kwdOpen in
    '(rtnLines, isHtmlClosed) ←
      continuation_loop (S (Z.to_nat (size chunk - pos))) chunk pos len false rtnLines;
    Ok (if (isHtmlClosed : bool) then rtnLines else rtnLines ++ [kwdOpen ++ lit "')"],
        false).

(** The [break] leaves the chunks that follow unrendered. *)
Fixpoint chunks_loop (htmlOpen : str) (htmlChunks : list str) (rtnLines : list str)
  : outcome (list str) :=
  match htmlChunks with
  | [] => Ok rtnLines
  | chunk :: htmlChunks' =>
      '(rtnLines, stop) ← chunk_lines htmlOpen chunk rtnLines;
      if (stop : bool) then Ok rtnLines else chunks_loop htmlOpen htmlChunks' rtnLines
  end.

(** [htmlObj] is [None] when the caller passes [undefined]: then
    [JSON.stringify] returns [undefined] and the call of [replace] throws. *)
Definition htmlObjToDdsLines (htmlObj : option value) (htmlLineNum : str)
  : outcome (list str) :=
  match htmlObj with
  | None => Throw (TypeError (lit "replace"))
  | Some obj =>
      let htmlData := escape_quotes (JSON_stringify obj) in
      htmlChunks ← Chunker.chunkData htmlData 2500;
      chunks_loop (htmlOpen htmlLineNum) htmlChunks []
  end.

End Renderer.
End Renderer.

(** ** The structural merge engine ([conversionV1], jsonToDds.js) *)

Module Merge.
Section Merge.
Context `{JsRuntime}.

Definition htmlOpen : str := lit "HTML('".
Definition rcdFmtOpen : str := lit "A          R".

(** [lines[i].m(...)]: outside the array the element is [undefined] and the
    method call throws. *)
Definition line_at (lines : list str) (i : Z) (method : str) : outcome str :=
  if i <? 0 then Throw (TypeError method)
  else match lines !! Z.to_nat i with
       | Some l => Ok l
       | None => Throw (TypeError method)
       end.

(** The payload of the new model for the current record format, rendered
    with the line number of the tag that opened the region. *)
Definition render_region (formats : list value) (rcdFmt : option str)
    (origSrcLine : str) : outcome (list str) :=
  formatObj ← filter_formats rcdFmt formats;
  Renderer.htmlObjToDdsLines (head formatObj) (substr origSrcLine 38 3).

(** The inner [for (; srcIdx < origSrcLines.length; srcIdx++)]: it returns
    the index it stops at, by [break] or at the end of the lines. *)
Fixpoint region_loop (fuel : nat) (formats : list value) (rcdFmt : option str)
    (origSrcLine : str) (origSrcLines : list str) (srcIdx : nat)
    (ddsLines : list str) : outcome (nat * list str) :=
  match fuel with
  | O => OutOfFuel
  | S fuel' =>
      match origSrcLines !! srcIdx with
      | None => Ok (srcIdx, ddsLines)
      | Some cur =>
          if str_eqb (substr cur 5 2) (lit "A ") && negb (str_eqb (substr cur 79 1) (lit "-"))
          then
            if bool_decide (Z.of_nat srcIdx = size_lines origSrcLines - 1) then
              rendered ← render_region formats rcdFmt origSrcLine;
              Ok (srcIdx, ddsLines ++ rendered)
            else
              next ← line_at origSrcLines (Z.of_nat srcIdx + 1) (lit "substr");
              if negb (str_eqb (substr next 44 6) htmlOpen) then
                prev ← line_at origSrcLines (Z.of_nat srcIdx - 1) (lit "substring");
                let tempText := substring prev 44 79 ++ substring cur 44 80 in
                let endPos := lastIndexOf tempText (lit "}')") in
                if negb (endPos =? -1) then
                  rendered ← render_region formats rcdFmt origSrcLine;
                  Ok (srcIdx, ddsLines ++ rendered)
                else region_loop fuel' formats rcdFmt origSrcLine origSrcLines (S srcIdx) ddsLines
              else region_loop fuel' formats rcdFmt origSrcLine origSrcLines (S srcIdx) ddsLines
          else region_loop fuel' formats rcdFmt origSrcLine origSrcLines (S srcIdx) ddsLines
      end
  end.

(** The outer [for (let srcIdx = 0; srcIdx < origSrcLines.length; srcIdx++)]. *)
Fixpoint lines_loop (fuel : nat) (formats : list value) (origSrcLines : list str)
    (srcIdx : nat) (rcdFmt : option str) (ddsLines : list str) : outcome (list str) :=
  match fuel with
  | O => OutOfFuel
  | S fuel' =>
      match origSrcLines !! srcIdx with
      | None => Ok ddsLines
      | Some origSrcLine =>
          if str_eqb (substr origSrcLine 5 12) rcdFmtOpen then
            lines_loop fuel' formats origSrcLines (S srcIdx)
              (Some (toUpperCase (trimRight (substr origSrcLine 18 10))))
              (ddsLines ++ [origSrcLine])
          else if str_eqb (substr origSrcLine 5 2) (lit "A ")
                  && str_eqb (substr origSrcLine 44 7) (htmlOpen ++ lit "{")
          then
            '(srcIdx', ddsLines') ←
              region_loop (S (length origSrcLines - srcIdx)) formats rcdFmt
                origSrcLine origSrcLines srcIdx ddsLines;
            lines_loop fuel' formats origSrcLines (S srcIdx') rcdFmt ddsLines'
          else
            lines_loop fuel' formats origSrcLines (S srcIdx) rcdFmt
              (ddsLines ++ [origSrcLine])
      end
  end.

(** [newJsonSrcObj.formats] is the list [formats]. *)
Definition conversionV1 (formats : list value) (origSrcLines : list str)
  : outcome (list str) :=
  lines_loop (S (length origSrcLines)) formats origSrcLines 0%nat None [].

End Merge.
End Merge.

(** ** The tag scanner ([getFormatsFromSrc], ddsToJson.js) *)

Module Scanner.
Section Scanner.
Context `{JsRuntime}.

(** The variables the [forEach] callback closes over. *)
Record scan_state := {
  isHtmlJsonTag : bool;
  htmlTag : str;
  formats : list value
}.

(** [formats.push(JSON.parse(str.replace(/''/g, "'")))] *)
Definition addToFormats (formats : list value) (s : str) : outcome (list value) :=
  match JSON_parse (unescape_quotes s) with
  | Some v => Ok (formats ++ [v])
  | None => Throw SyntaxError
  end.

(** The second half of the callback: does this line open a payload tag? *)
Definition open_tag (st : scan_state) (line : str) : outcome scan_state :=
  if str_eqb (substr line 44 7) (lit "HTML('{") then
    if negb (str_eqb (substr line 79 1) (lit "-")) then
      let endPos := lastIndexOf line (lit "')") in
      formats' ← addToFormats (formats st) (htmlTag st ++ substring line 50 endPos);
      Ok {| isHtmlJsonTag := false; htmlTag := htmlTag st; formats := formats' |}
    else
      Ok {| isHtmlJsonTag := true;
            htmlTag := htmlTag st ++ substring line 50 79;
            formats := formats st |}
  else
    Ok {| isHtmlJsonTag := false; htmlTag := htmlTag st; formats := formats st |}.

(** One call of the callback. The [try] covers the parse of a continued tag
    only; a [SyntaxError] of [open_tag] leaves the [forEach]. *)
Definition scan_line (st : scan_state) (line : str) : outcome scan_state :=
  if isHtmlJsonTag st then
    let strPos := if str_eqb (substr line 44 6) (lit "HTML('") then 50 else 44 in
    if negb (str_eqb (substr line 79 1) (lit "-")) then
      let endPos := lastIndexOf line (lit "')") in
      match addToFormats (formats st) (htmlTag st ++ substring line strPos endPos) with
      | Ok formats' =>
          open_tag {| isHtmlJsonTag := false; htmlTag := []; formats := formats' |} line
      | _ =>
          Ok {| isHtmlJsonTag := true;
                htmlTag := htmlTag st ++ substring line strPos endPos;
                formats := formats st |}
      end
    else
      Ok {| isHtmlJsonTag := true;
            htmlTag := htmlTag st ++ substring line strPos 79;
            formats := formats st |}
  else open_tag st line.

Fixpoint scan_lines (st : scan_state) (srcLines : list str) : outcome scan_state :=
  match srcLines with
  | [] => Ok st
  | line :: srcLines' => st' ← scan_line st line; scan_lines st' srcLines'
  end.

Definition scan_start : scan_state :=
  {| isHtmlJsonTag := false; htmlTag := []; formats := [] |}.

Definition getFormatsFromSrc (srcLines : list str) : outcome (list value) :=
  st ← scan_lines scan_start srcLines; Ok (formats st).

End Scanner.
End Scanner.

(** ** The raw-text assembler ([getDdsFromSrc], ddsToJson.js) *)

Module Assembler.
Section Assembler.
Context `{JsRuntime}.

(** [if (v)] *)
Definition truthy (v : option value) : bool :=
  match v with
  | None | Some VNull => false
  | Some (VBool b) => b
  | Some (VNum n) => number_truthy n
  | Some (VStr s) => negb (str_eqb s [])
  | Some (VArr _) | Some (VObj _) => true
  end.

(** [typeof v === 'object'] *)
Definition is_object (v : value) : bool :=
  match v with
  | VNull | VArr _ | VObj _ => true
  | _ => false
  end.

(** The body of the [for ... in] for one property value of an item. *)
Definition collect_property (fields : list str) (itemValue : value) : outcome (list str) :=
  if is_object itemValue then
    fieldName ← prop (Some itemValue) (lit "fieldName");
    if truthy fieldName then
      upper ← call_toUpperCase fieldName;
      Ok (fields ++ [upper])
    else Ok fields
  else Ok fields.

Fixpoint collect_properties (fields : list str) (itemValues : list value)
  : outcome (list str) :=
  match itemValues with
  | [] => Ok fields
  | v :: itemValues' =>
      fields' ← collect_property fields v; collect_properties fields' itemValues'
  end.

(** [for (const itemProperty in item) if (item.hasOwnProperty(itemProperty))]:
    the own properties of an object, the elements of an array, the characters
    of a string, nothing for the other values. An own property called
    [hasOwnProperty] hides the method, and the call throws. *)
Definition collect_item (fields : list str) (item : value) : outcome (list str) :=
  match item with
  | VObj props =>
      match props, assoc (lit "hasOwnProperty") props with
      | _ :: _, Some _ => Throw (TypeError (lit "hasOwnProperty"))
      | _, _ => collect_properties fields (map snd props)
      end
  | VArr elts => collect_properties fields elts
  | _ => Ok fields
  end.

Fixpoint collect_items (fields : list str) (items : list value) : outcome (list str) :=
  match items with
  | [] => Ok fields
  | item :: items' => fields' ← collect_item fields item; collect_items fields' items'
  end.

(** [for (const item of rcdFmt.items)]: only an array or a string can be
    iterated; the characters of a string add nothing. *)
Definition getBoundFields (rcdFmt : option value) : outcome (list str) :=
  items ← prop rcdFmt (lit "items");
  match items with
  | Some (VArr items) => collect_items [] items
  | Some (VStr _) => Ok []
  | _ => Throw (TypeError (lit "items"))
  end.

Record echo_state := {
  rcdFmtObj : option (list value);
  boundFields : option (list str);
  isSFL : bool;
  returnDds : list str
}.

(** [replace(/[\x00-\x09\x0B-\x1F\x7F-\x9F]/g, ' ')] *)
Definition blank_controls (s : str) : str :=
  map (fun c => let n := nat_of_ascii c in
                if ((n <=? 9) || ((11 <=? n) && (n <=? 31)) || ((127 <=? n) && (n <=? 159)))%nat
                then " "%char else c) s.

(** [while (srcLines[srcIdx].substr(79, 1) === '-') srcIdx++] *)
Fixpoint skip_control (fuel : nat) (srcLines : list str) (srcIdx : nat) : outcome nat :=
  match fuel with
  | O => OutOfFuel
  | S fuel' =>
      cur ← Merge.line_at srcLines (Z.of_nat srcIdx) (lit "substr");
      if str_eqb (substr cur 79 1) (lit "-")
      then skip_control fuel' srcLines (S srcIdx)
      else Ok srcIdx
  end.

(** The [for] that skips a screen format; it returns the index it stops at
    and the bound fields, new ones when it left by [break]. *)
Fixpoint skip_screen (fuel : nat) (st : echo_state) (srcLines : list str) (srcIdx : nat)
  : outcome (nat * option (list str)) :=
  match fuel with
  | O => OutOfFuel
  | S fuel' =>
      match srcLines !! srcIdx with
      | None => Ok (srcIdx, boundFields st)
      | Some cur =>
          if str_eqb (substr cur 5 2) (lit "A ") && negb (str_eqb (substr cur 79 1) (lit "-"))
          then
            next ← Merge.line_at srcLines (Z.of_nat srcIdx + 1) (lit "substr");
            if negb (str_eqb (substr next 44 6) Merge.htmlOpen) then
              prev ← Merge.line_at srcLines (Z.of_nat srcIdx - 1) (lit "substring");
              let tempText := substring prev 44 79 ++ substring cur 44 80 in
              let endPos := lastIndexOf tempText (lit "}')") in
              if negb (endPos =? -1) then
                match rcdFmtObj st with
                | None => Throw (TypeError (lit "0"))
                | Some found =>
                    fields ← getBoundFields (head found);
                    Ok (srcIdx, Some fields)
                end
              else skip_screen fuel' st srcLines (S srcIdx)
            else skip_screen fuel' st srcLines (S srcIdx)
          else skip_screen fuel' st srcLines (S srcIdx)
      end
  end.

(** The last branch of the loop body: what is echoed of a line that is not
    skipped. *)
Definition echo_line (st : echo_state) (line : str) : list str :=
  if negb (str_eqb line []) && negb (str_eqb (substr line 5 4) (lit "A*%%")) then
    if match boundFields st with
       | Some fields =>
           str_eqb (substr line 5 2) (lit "A ") && str_eqb (substr line 37 1) (lit "H")
           && bool_decide (trimRight (substr line 18 10) ∈ fields)
       | None => false
       end
    then returnDds st
    else returnDds st ++ [trimRight (blank_controls line)]
  else returnDds st.

Fixpoint echo_loop (fuel : nat) (formats : list value) (srcLines : list str)
    (srcIdx : nat) (st : echo_state) : outcome (list str) :=
  match fuel with
  | O => OutOfFuel
  | S fuel' =>
      match srcLines !! srcIdx with
      | None => Ok (returnDds st)
      | Some line =>
          st ←
            (if str_eqb (substr line 5 12) Merge.rcdFmtOpen then
               found ← filter_formats (Some (trimRight (substr line 18 10))) formats;
               Ok {| rcdFmtObj := Some found; boundFields := None;
                     isSFL := str_eqb (trim (substr line 44 36)) (lit "SFL");
                     returnDds := returnDds st |}
             else Ok st);
          if str_eqb (substr line 5 2) (lit "A ")
             && str_eqb (substr line 44 10) (Merge.htmlOpen ++ lit "QPUI")
          then
            srcIdx' ← skip_control (S (length srcLines - srcIdx)) srcLines srcIdx;
            echo_loop fuel' formats srcLines (S srcIdx') st
          else if negb (isSFL st) && str_eqb (substr line 5 2) (lit "A ")
                  && str_eqb (substr line 44 7) (Merge.htmlOpen ++ lit "{")
          then
            '(srcIdx', fields) ←
              skip_screen (S (length srcLines - srcIdx)) st srcLines srcIdx;
            echo_loop fuel' formats srcLines (S srcIdx')
              {| rcdFmtObj := rcdFmtObj st; boundFields := fields;
                 isSFL := isSFL st; returnDds := returnDds st |}
          else
            echo_loop fuel' formats srcLines (S srcIdx)
              {| rcdFmtObj := rcdFmtObj st; boundFields := boundFields st;
                 isSFL := isSFL st; returnDds := echo_line st line |}
      end
  end.

Definition echo_start : echo_state :=
  {| rcdFmtObj := None; boundFields := None; isSFL := false; returnDds := [] |}.

Definition getDdsFromSrc (srcLines : list str) : outcome (list str) :=
  formats ← Scanner.getFormatsFromSrc srcLines;
  echo_loop (S (length srcLines)) formats srcLines 0%nat echo_start.

End Assembler.
End Assembler.

(** ** Reading a source file ([main] of ddsToJson.js and of jsonToDds.js) *)

Module Source.

Definition CR : ascii := ascii_of_nat 13.
Definition LF : ascii := ascii_of_nat 10.

(** [source.split('\r\n')], [acc] holding the line being read, reversed. *)
Fixpoint split_CRLF_from (acc : str) (source : str) : list str :=
  match source with
  | [] => [rev acc]
  | c :: source' =>
      match source' with
      | d :: source'' =>
          if bool_decide (c = CR) && bool_decide (d = LF)
          then rev acc :: split_CRLF_from [] source''
          else split_CRLF_from (c :: acc) source'
      | [] => [rev (c :: acc)]
      end
  end.

Definition split_CRLF (source : str) : list str := split_CRLF_from [] source.

Definition is_digit (c : ascii) : bool :=
  let n := nat_of_ascii c in ((48 <=? n) && (n <=? 57))%nat.

Definition is_hex_digit (c : ascii) : bool :=
  let n := nat_of_ascii c in
  is_digit c || ((65 <=? n) && (n <=? 70))%nat || ((97 <=? n) && (n <=? 102))%nat.

(** [isNaN(Number.parseInt(s))]: after the leading white space and one sign,
    [parseInt] reads hexadecimal digits behind [0x] or [0X] and decimal digits
    otherwise, and answers [NaN] exactly when there is no digit to read. *)
Definition parseInt_isNaN (s : str) : bool :=
  let s := trimLeft s in
  let s := match s with
           | c :: s' => if bool_decide (c = "-"%char) || bool_decide (c = "+"%char)
                        then s' else s
           | [] => s
           end in
  match s with
  | z :: x :: s' =>
      if bool_decide (z = "0"%char) && (bool_decide (x = "x"%char) || bool_decide (x = "X"%char))
      then match s' with
           | h :: _ => negb (is_hex_digit h)
           | [] => true
           end
      else negb (is_digit z)
  | [z] => negb (is_digit z)
  | [] => true
  end.

(** [srcLine => isNaN(Number.parseInt(srcLine.substr(0, 12))) ? srcLine : srcLine.substr(12)] *)
Definition strip_line (srcLine : str) : str :=
  if parseInt_isNaN (substr srcLine 0 12) then srcLine else substr_from srcLine 12.

(** The lines both converters work on when they read a stream file. *)
Definition source_lines (source : str) : list str :=
  map strip_line (split_CRLF source).

End Source.

(** ** The file-level keywords ([getKeywordsFromSrc], ddsToJson.js) *)

Module Keywords.

(** [for (const line of srcLines)]: the loop is left at the first line with
    [A ] in columns 6-7 and [R] in column 17; before it a line with [A ] or
    [A*PUI] in column 6 gives its keyword area, columns 45 to 80 without the
    white space at the end, when that is not the empty string. Nothing here
    throws on an array of strings. *)
Fixpoint keywords_loop (srcLines : list str) (keywords : list str) : list str :=
  match srcLines with
  | [] => keywords
  | line :: srcLines' =>
      if str_eqb (substr line 5 2) (lit "A ") && str_eqb (substr line 16 1) (lit "R")
      then keywords
      else if str_eqb (substr line 5 2) (lit "A ") || str_eqb (substr line 5 5) (lit "A*PUI")
      then
        if negb (str_eqb (trimRight (substr line 44 36)) [])
        then keywords_loop srcLines' (keywords ++ [trimRight (substr line 44 36)])
        else keywords_loop srcLines' keywords
      else keywords_loop srcLines' keywords
  end.

Definition getKeywordsFromSrc (srcLines : list str) : list str :=
  keywords_loop srcLines [].

End Keywords.

(** ** Writing the converted source ([main], jsonToDds.js) *)

Module JsonToDds.
Section JsonToDds.
Context `{JsRuntime}.

(** [newDdsLines.join('\r\n')] *)
Fixpoint join_CRLF (lines : list str) : str :=
  match lines with
  | [] => []
  | l :: lines' =>
      match lines' with
      | [] => l
      | _ :: _ => l ++ Source.CR :: Source.LF :: join_CRLF lines'
      end
  end.

(** What [main] writes for a stream file when the conversion method is not
    set or is 1: the original text is split and stripped, merged with the
    payloads [newJsonSrcObj.formats] of the model, and joined again. *)
Definition main_text (formats : list value) (originalDds : str) : outcome str :=
  newDdsLines ← Merge.conversionV1 formats (Source.source_lines originalDds);
  Ok (join_CRLF newDdsLines).

End JsonToDds.
End JsonToDds.

(** ** The display file read ([main], ddsToJson.js) *)

Module DdsToJson.
Section DdsToJson.
Context `{JsRuntime}.

(** The object [dspf] that [main] writes as JSON; [dds] is [None] when the
    object has no such property. *)
Record dspf := {
  text : str;
  formats : list value;
  keywords : list str;
  dds : option (list str)
}.

Definition errText : str := lit "The Input source file is not a Rich Display File".

(** [srcLines.findIndex(srcLine => srcLine.substr(44, 5) === 'HTML(') === -1] *)
Definition not_rich (srcLines : list str) : bool :=
  negb (existsb (fun srcLine => str_eqb (substr srcLine 44 5) (lit "HTML(")) srcLines).

(** [main] from the test of the source lines to the object it writes, [text]
    being the member text it has read. [Ok (inl errText)] stands for the
    promise rejected with the string [errText], [Throw] for a promise rejected
    with the exception that was caught. *)
Definition main_lines (text : str) (srcLines : list str) : outcome (str + dspf) :=
  if not_rich srcLines then Ok (inl errText)
  else
    formats ← Scanner.getFormatsFromSrc srcLines;
    let keywords := Keywords.getKeywordsFromSrc srcLines in
    if bool_decide (lit "ALLINONE" ∈ keywords) then
      dds ← Assembler.getDdsFromSrc srcLines;
      Ok (inr {| text := text; formats := formats; keywords := keywords; dds := Some dds |})
    else
      Ok (inr {| text := text; formats := formats; keywords := keywords; dds := None |}).

(** The lines [main] works on: the text of a source member is split and
    nothing more, the text of a stream file is split and each line tested for
    the 12-character prefix. *)
Definition read_srcLines (isDdsFile : bool) (source : str) : list str :=
  if isDdsFile then Source.split_CRLF source
  else map Source.strip_line (Source.split_CRLF source).

End DdsToJson.
End DdsToJson.

(** ** The file handed to the converters ([main], verifyConvert.js) *)

Module VerifyConvert.

(** [origDdsFile] for a stream file: the file itself, or the copy written to
    the temporary directory, with its text. *)
Inductive orig_dds_file :=
  | SrcFile
  | TempOutFile (text : str).

(** The branch of [main] for a stream file: the first line is tested, and
    when its prefix parses as a number a copy is written, each line of which
    is tested again. *)
Definition origDdsFile (originalDds : str) : outcome orig_dds_file :=
  let originalDdsLines := Source.split_CRLF originalDds in
  first ← Merge.line_at originalDdsLines 0 (lit "substr");
  if Source.parseInt_isNaN (substr first 0 12) then Ok SrcFile
  else
    let tmpDdsLines := map Source.strip_line originalDdsLines in
    Ok (TempOutFile (JsonToDds.join_CRLF tmpDdsLines)).

(** The text of the file that [origDdsFile] names. *)
Definition file_text (originalDds : str) (file : orig_dds_file) : str :=
  match file with
  | SrcFile => originalDds
  | TempOutFile text => text
  end.

End VerifyConvert.

(** ** A runtime to run the examples on

    [JSON.parse] and [JSON.stringify] for the JSON texts whose numbers are
    integers written without fraction or exponent, whose strings have no
    [\u] escape and whose objects have no integer-like key (the runtime
    reorders those) or repeated key; [toUpperCase] for ASCII letters. The
    theorems below hold for every runtime; the examples are evaluated on this
    one, on texts of that kind. *)

Module Sample.

#[global] Instance Z_number : JsNumber :=
  {| number := Z; number_truthy := fun n => negb (n =? 0) |}.

Definition digit_char (d : Z) : ascii := ascii_of_nat (48 + Z.to_nat d).

Fixpoint digits (fuel : nat) (n : Z) (acc : str) : str :=
  let acc := digit_char (n mod 10) :: acc in
  match fuel with
  | O => acc
  | S fuel' => if n / 10 =? 0 then acc else digits fuel' (n / 10) acc
  end.

Definition print_Z (n : Z) : str :=
  if n <? 0 then "-"%char :: digits (Z.to_nat (- n)) (- n) []
  else digits (Z.to_nat n) n [].

Definition hex_char (d : nat) : ascii :=
  ascii_of_nat (if (d <? 10)%nat then 48 + d else 87 + d).

Definition dquote : ascii := ascii_of_nat 34.
Definition backslash : ascii := ascii_of_nat 92.

(** A JSON text written with a backquote for each double quote. *)
Definition json (s : string) : str :=
  map (fun c => if bool_decide (c = "`"%char) then dquote else c) (lit s).

Definition print_char (c : ascii) : str :=
  let n := nat_of_ascii c in
  if bool_decide (c = dquote) then [backslash; dquote]
  else if bool_decide (c = backslash) then [backslash; backslash]
  else if (n =? 8)%nat then [backslash; "b"%char]
  else if (n =? 9)%nat then [backslash; "t"%char]
  else if (n =? 10)%nat then [backslash; "n"%char]
  else if (n =? 12)%nat then [backslash; "f"%char]
  else if (n =? 13)%nat then [backslash; "r"%char]
  else if (n <? 32)%nat
  then backslash :: lit "u00" ++ [hex_char (n / 16); hex_char (n mod 16)]
  else [c].

Definition print_string (s : str) : str :=
  dquote :: concat (map print_char s) ++ [dquote].

Fixpoint stringify (v : value) : str :=
  match v with
  | VNull => lit "null"
  | VBool true => lit "true"
  | VBool false => lit "false"
  | VNum n => print_Z n
  | VStr s => print_string s
  | VArr elts =>
      "["%char ::
      (fix elements (l : list value) : str :=
         match l with
         | [] => []
         | [x] => stringify x
         | x :: l' => stringify x ++ ","%char :: elements l'
         end) elts ++ ["]"%char]
  | VObj props =>
      "{"%char ::
      (fix members (l : list (str * value)) : str :=
         match l with
         | [] => []
         | [(k, x)] => print_string k ++ ":"%char :: stringify x
         | (k, x) :: l' => print_string k ++ ":"%char :: stringify x ++ ","%char :: members l'
         end) props ++ ["}"%char]
  end.

Fixpoint skip_ws (s : str) : str :=
  match s with
  | c :: s' =>
      let n := nat_of_ascii c in
      if ((n =? 32) || (n =? 9) || (n =? 10) || (n =? 13))%nat then skip_ws s' else s
  | [] => []
  end.

(** The text behind an opening double quote, up to the closing one. *)
Fixpoint parse_string (s acc : str) : option (str * str) :=
  match s with
  | [] => None
  | c :: s' =>
      if bool_decide (c = dquote) then Some (rev acc, s')
      else if bool_decide (c = backslash) then
        match s' with
        | e :: s'' =>
            match (if bool_decide (e = dquote) then Some dquote
                   else if bool_decide (e = backslash) then Some backslash
                   else if bool_decide (e = "/"%char) then Some "/"%char
                   else if bool_decide (e = "b"%char) then Some (ascii_of_nat 8)
                   else if bool_decide (e = "t"%char) then Some (ascii_of_nat 9)
                   else if bool_decide (e = "n"%char) then Some (ascii_of_nat 10)
                   else if bool_decide (e = "f"%char) then Some (ascii_of_nat 12)
                   else if bool_decide (e = "r"%char) then Some (ascii_of_nat 13)
                   else None) with
            | Some d => parse_string s'' (d :: acc)
            | None => None
            end
        | [] => None
        end
      else if (nat_of_ascii c <? 32)%nat then None
      else parse_string s' (c :: acc)
  end.

Fixpoint parse_digits (s : str) (n : Z) : Z * str :=
  match s with
  | c :: s' => if Source.is_digit c
               then parse_digits s' (10 * n + Z.of_nat (nat_of_ascii c) - 48)
               else (n, s)
  | [] => (n, [])
  end.

(** An integer: one zero, or digits that start with a non-zero one; nothing
    of a fraction or an exponent may follow. *)
Definition parse_natural (s : str) : option (Z * str) :=
  match s with
  | c :: s' =>
      if Source.is_digit c then
        let '(n, rest) := if bool_decide (c = "0"%char) then (0, s') else parse_digits s 0 in
        match rest with
        | d :: _ =>
            if Source.is_digit d || bool_decide (d = "."%char)
               || bool_decide (d = "e"%char) || bool_decide (d = "E"%char)
            then None else Some (n, rest)
        | [] => Some (n, rest)
        end
      else None
  | [] => None
  end.

(** [obj[k] = v]: a key that is there keeps its place. *)
Fixpoint set_prop (k : str) (v : value) (props : list (str * value)) : list (str * value) :=
  match props with
  | [] => [(k, v)]
  | (k', v') :: props' =>
      if str_eqb k k' then (k, v) :: props' else (k', v') :: set_prop k v props'
  end.

Fixpoint parse_value (fuel : nat) (s : str) : option (value * str) :=
  match fuel with
  | O => None
  | S fuel' =>
      match skip_ws s with
      | [] => None
      | c :: s' =>
          if bool_decide (c = "{"%char) then
            match skip_ws s' with
            | "}"%char :: s'' => Some (VObj [], s'')
            | _ => parse_members fuel' s' []
            end
          else if bool_decide (c = "["%char) then
            match skip_ws s' with
            | "]"%char :: s'' => Some (VArr [], s'')
            | _ => parse_elements fuel' s' []
            end
          else if bool_decide (c = dquote) then
            '(text, rest) ← parse_string s' []; Some (VStr text, rest)
          else if starts_with (lit "true") (c :: s') then Some (VBool true, drop 3 s')
          else if starts_with (lit "false") (c :: s') then Some (VBool false, drop 4 s')
          else if starts_with (lit "null") (c :: s') then Some (VNull, drop 3 s')
          else if bool_decide (c = "-"%char) then
            '(n, rest) ← parse_natural s'; Some (VNum (- n), rest)
          else '(n, rest) ← parse_natural (c :: s'); Some (VNum n, rest)
      end
  end
with parse_members (fuel : nat) (s : str) (props : list (str * value))
  : option (value * str) :=
  match fuel with
  | O => None
  | S fuel' =>
      match skip_ws s with
      | [] => None
      | c :: s' =>
          if bool_decide (c = dquote) then
            '(k, rest) ← parse_string s' [];
            match skip_ws rest with
            | ":"%char :: rest' =>
                '(v, rest'') ← parse_value fuel' rest';
                match skip_ws rest'' with
                | ","%char :: more => parse_members fuel' more (set_prop k v props)
                | "}"%char :: more => Some (VObj (set_prop k v props), more)
                | _ => None
                end
            | _ => None
            end
          else None
      end
  end
with parse_elements (fuel : nat) (s : str) (elts : list value) : option (value * str) :=
  match fuel with
  | O => None
  | S fuel' =>
      '(v, rest) ← parse_value fuel' s;
      match skip_ws rest with
      | ","%char :: more => parse_elements fuel' more (elts ++ [v])
      | "]"%char :: more => Some (VArr (elts ++ [v]), more)
      | _ => None
      end
  end.

Definition parse (s : str) : option value :=
  '(v, rest) ← parse_value (S (length s)) s;
  match skip_ws rest with
  | [] => Some v
  | _ => None
  end.

Definition upper_char (c : ascii) : ascii :=
  let n := nat_of_ascii c in
  if ((97 <=? n) && (n <=? 122))%nat then ascii_of_nat (n - 32) else c.

#[global] Instance runtime : JsRuntime := {|
  JSON_parse := parse;
  JSON_stringify := stringify;
  toUpperCase := map upper_char
|}.

End Sample.

(** * Specifications

    The definitions the claims are stated with. *)

Module ChunkerSpec.
Import Chunker.

(** The single quotes a string starts with. *)
Fixpoint leading_quotes (s : str) : nat :=
  match s with
  | c :: s' => if bool_decide (c = quote) then S (leading_quotes s') else O
  | [] => O
  end.

(** The repair after a push: nothing for the first chunk, otherwise the
    leading quotes of the new chunk go to the end of the one before. *)
Definition repaired (chunks : list str) (c : str) : list str :=
  match reverse chunks with
  | [] => [c]
  | b :: pre => reverse pre ++ [b ++ take (leading_quotes c) c; drop (leading_quotes c) c]
  end.

(** What the loop keeps true of the chunks pushed so far: a chunk is the
    text that was cut for it, at most [bytes] characters, followed by the
    single quotes that the repair moved to its end, at most [bytes] of them;
    nothing has been moved yet to the newest chunk. *)
Definition chunk_ok (bytes : Z) (c : str) : Prop :=
  exists (cut : str) (moved : nat),
    c = cut ++ replicate moved quote /\ size cut <= bytes /\ Z.of_nat moved <= bytes.

Definition bounded (bytes : Z) (chunks : list str) : Prop :=
  Forall (chunk_ok bytes) chunks /\
  (forall b, last chunks = Some b -> size b <= bytes).

End ChunkerSpec.

Module RendererSpec.
Section RendererSpec.
Context `{JsRuntime}.
Import Renderer.

(** A line that ends with the closing marker. *)
Definition closes (line : str) : Prop := lit "')" `suffix_of` line.

(** The last of the lines is there and closes its tag. *)
Definition closed_last (lines : list str) : Prop :=
  exists l, last lines = Some l /\ closes l.

(** A line with the continuation character in column 80. *)
Definition continues (line : str) : Prop := substr line 79 1 = lit "-".

(** The lines of one chunk as the scanner needs them: all but the last
    continue, the last does not. *)
Definition chunk_block (lines : list str) : Prop :=
  exists init l, lines = init ++ [l] /\ Forall continues init /\ ~ continues l.

(** The lines behind the first line of a chunk, [text] being what the first
    line left of it: full lines of 35 characters that continue, then the
    rest with the closing marker, or the closing marker alone where the text
    ended with a full line. *)
Fixpoint continuation_lines (fuel : nat) (text : str) : list str :=
  match fuel with
  | O => []
  | S fuel' =>
      if size text =? 0 then [kwdOpen ++ lit "')"]
      else if 35 <=? size text
      then ((kwdOpen ++ take 35 text) ++ lit "-") :: continuation_lines fuel' (drop 35 text)
      else [(kwdOpen ++ text) ++ lit "')"]
  end.

(** The lines of one chunk behind a prefix of 50 characters. *)
Definition chunk_layout (htmlOpen chunk : str) : list str :=
  if size chunk <=? 27 then [htmlOpen ++ chunk ++ lit "')"]
  else (htmlOpen ++ take 29 chunk ++ lit "-")
       :: continuation_lines (S (length chunk)) (drop 29 chunk).

(** The lines of the chunks, up to the first chunk that fits on its first
    line. *)
Fixpoint layout (htmlOpen : str) (chunks : list str) : list str :=
  match chunks with
  | [] => []
  | chunk :: chunks' =>
      chunk_layout htmlOpen chunk ++
      (if size chunk <=? 27 then [] else layout htmlOpen chunks')
  end.

(** The lines of a tag that holds the given texts, one on each line: the
    first line behind [prefix], the others behind the blank prefix; every
    line but the last ends with the continuation character, the last ends with
    the closing marker. *)
Fixpoint tag_lines (prefix : str) (texts : list str) : list str :=
  match texts with
  | [] => []
  | t :: texts' =>
      match texts' with
      | [] => [prefix ++ t ++ lit "')"]
      | _ :: _ => (prefix ++ t ++ lit "-") :: tag_lines kwdOpen texts'
      end
  end.

(** A chunk written as a closed tag: the lines hold the text of the chunk
    in order; a chunk of up to 27 characters is on the first line; of a longer
    one the first line holds the first 29 characters (28 when there are no
    more), full lines of 35 characters follow, and the last line holds what is
    left, less than 35 characters: nothing, after an exact fit. *)
Definition closed_tag (htmlOpen chunk : str) (lines : list str) : Prop :=
  exists texts,
    lines = tag_lines htmlOpen texts /\
    concat texts = chunk /\
    ((texts = [chunk] /\ size chunk <= 27) \/
     (exists first full rest,
         texts = first :: full ++ [rest] /\
         28 <= size chunk /\
         size first = Z.min 29 (size chunk) /\
         Forall (fun t => size t = 35) full /\
         size rest < 35)).

(** The text fits the lines before the closing line exactly: the chunk has
    28 characters, or 29 and a multiple of 35. *)
Definition exact_fit (chunk : str) : Prop :=
  size chunk = 28 \/ (29 <= size chunk /\ (size chunk - 29) mod 35 = 0).

(** The chunks that are rendered: those up to the first one that fits on
    its first line. *)
Fixpoint rendered (chunks : list str) : list str :=
  match chunks with
  | [] => []
  | chunk :: chunks' => chunk :: (if size chunk <=? 27 then [] else rendered chunks')
  end.

End RendererSpec.
End RendererSpec.

Module SourceSpec.
Import Source.

(** The stripping as the specification words it: the first line decides
    for the whole document. *)
Definition strip_document_wide (lines : list str) : list str :=
  match lines with
  | [] => []
  | first :: _ =>
      if parseInt_isNaN (substr first 0 12) then lines
      else map (fun l => substr_from l 12) lines
  end.

(** A line has the numeric 12-character prefix. *)
Definition has_prefix (line : str) : bool := negb (parseInt_isNaN (substr line 0 12)).

(** Every line behind the first is empty or is like the first line in
    having the prefix or not. *)
Definition agree_with_first (lines : list str) : Prop :=
  Forall (fun l => l = [] \/ has_prefix l = has_prefix (hd [] lines)) (tl lines).

(** Every line behind the first is empty or has the prefix. *)
Definition prefixed_or_empty (lines : list str) : Prop :=
  Forall (fun l => l = [] \/ has_prefix l = true) (tl lines).

End SourceSpec.

Module ScannerSpec.
Section ScannerSpec.
Context `{JsRuntime}.
Import Scanner.

(** Where the text of a line that continues a payload starts. *)
Definition strPos (line : str) : Z :=
  if str_eqb (substr line 44 6) (lit "HTML('") then 50 else 44.

(** The text accumulated in [tag] never parses on the lines that follow: a
    line that continues adds its columns up to 79, a line that does not adds
    its text up to the last closing marker, and the parse of what is
    accumulated then fails. *)
Inductive never_parses : str -> list str -> Prop :=
  | never_at_end tag : never_parses tag []
  | never_continued tag line rest :
      substr line 79 1 = lit "-" ->
      never_parses (tag ++ substring line (strPos line) 79) rest ->
      never_parses tag (line :: rest)
  | never_failed tag line rest :
      substr line 79 1 <> lit "-" ->
      JSON_parse (unescape_quotes
                    (tag ++ substring line (strPos line) (lastIndexOf line (lit "')")))) = None ->
      never_parses (tag ++ substring line (strPos line) (lastIndexOf line (lit "')"))) rest ->
      never_parses tag (line :: rest).

(** Outside a payload the buffer is empty. *)
Definition buffer_cleared (st : scan_state) : Prop :=
  isHtmlJsonTag st = false -> htmlTag st = [].

End ScannerSpec.
End ScannerSpec.

Module AssemblerSpec.
Section AssemblerSpec.
Context `{JsRuntime}.
Import Assembler.






(** A line that is a hidden field definition: [A ] in columns 6 and 7 and
    [H] in column 38. *)
Definition hidden_field (line : str) : Prop :=
  substr line 5 2 = lit "A " /\ substr line 37 1 = lit "H".

End AssemblerSpec.
End AssemblerSpec.

Module MergeSpec.
Section MergeSpec.
Context `{JsRuntime}.
Import Merge.

Definition is_header (l : str) : bool := str_eqb (substr l 5 12) rcdFmtOpen.

Definition header_name (l : str) : str := toUpperCase (trimRight (substr l 18 10)).

Definition opens_payload (l : str) : bool :=
  str_eqb (substr l 5 2) (lit "A ") && str_eqb (substr l 44 7) (htmlOpen ++ lit "{").

(** The test the engine makes of line [j] while it looks for the end of a
    region: the line has [A ] in columns 6-7 and no [-] in column 80, and it is
    the last line, or the next line does not start its keyword area with
    [HTML('] and the text of the line, with that of the line before, holds
    the end [}')] of a payload. *)
Definition region_end_at (lines : list str) (j : nat) : outcome bool :=
  match lines !! j with
  | None => Ok false
  | Some cur =>
      if str_eqb (substr cur 5 2) (lit "A ") && negb (str_eqb (substr cur 79 1) (lit "-"))
      then
        if bool_decide (Z.of_nat j = size_lines lines - 1) then Ok true
        else
          next ← line_at lines (Z.of_nat j + 1) (lit "substr");
          if negb (str_eqb (substr next 44 6) htmlOpen) then
            prev ← line_at lines (Z.of_nat j - 1) (lit "substring");
            Ok (negb (lastIndexOf (substring prev 44 79 ++ substring cur 44 80) (lit "}')") =? -1))
          else Ok false
      else Ok false
  end.

(** The region opened at line [i] ends at line [j]: [j] is the first line
    from [i] on that passes the test. *)
Definition region_end (lines : list str) (i j : nat) : Prop :=
  (i <= j)%nat /\
  region_end_at lines j = Ok true /\
  forall k, (i <= k < j)%nat -> region_end_at lines k = Ok false.

(** No line from [i] on passes the test. *)
Definition no_region_end (lines : list str) (i : nat) : Prop :=
  forall k, (i <= k)%nat -> region_end_at lines k = Ok false.

(** The document the engine writes for the lines from [i] on, the current
    record format being [rcdFmt]: headers and the lines outside the regions
    as they are, each region replaced by the rendering of the payload of the
    model, and nothing for a region without an end nor for what follows it. *)
Inductive Merged (formats : list value) (lines : list str)
  : nat -> option str -> list str -> Prop :=
  | Merged_end i rcdFmt :
      (length lines <= i)%nat ->
      Merged formats lines i rcdFmt []
  | Merged_header i rcdFmt l out :
      lines !! i = Some l ->
      is_header l = true ->
      Merged formats lines (S i) (Some (header_name l)) out ->
      Merged formats lines i rcdFmt (l :: out)
  | Merged_copy i rcdFmt l out :
      lines !! i = Some l ->
      is_header l = false ->
      opens_payload l = false ->
      Merged formats lines (S i) rcdFmt out ->
      Merged formats lines i rcdFmt (l :: out)
  | Merged_region i j rcdFmt l rendered out :
      lines !! i = Some l ->
      is_header l = false ->
      opens_payload l = true ->
      region_end lines i j ->
      render_region formats rcdFmt l = Ok rendered ->
      Merged formats lines (S j) rcdFmt out ->
      Merged formats lines i rcdFmt (rendered ++ out)
  | Merged_open_ended i rcdFmt l :
      lines !! i = Some l ->
      is_header l = false ->
      opens_payload l = true ->
      no_region_end lines i ->
      Merged formats lines i rcdFmt [].

(** The positions the outer loop comes to, with the record format current
    there, when nothing before has thrown. *)
Inductive Visited (lines : list str) : nat -> option str -> Prop :=
  | Visited_start : Visited lines 0%nat None
  | Visited_header i rcdFmt l :
      Visited lines i rcdFmt ->
      lines !! i = Some l ->
      is_header l = true ->
      Visited lines (S i) (Some (header_name l))
  | Visited_copy i rcdFmt l :
      Visited lines i rcdFmt ->
      lines !! i = Some l ->
      is_header l = false ->
      opens_payload l = false ->
      Visited lines (S i) rcdFmt
  | Visited_region i j rcdFmt l :
      Visited lines i rcdFmt ->
      lines !! i = Some l ->
      is_header l = false ->
      opens_payload l = true ->
      region_end lines i j ->
      Visited lines (S j) rcdFmt.

(** Every payload region of the document is the rendering of the payload
    the model holds for its record format, and every region has an end. *)
Inductive Canonical (formats : list value) (lines : list str)
  : nat -> option str -> Prop :=
  | Canonical_end i rcdFmt :
      (length lines <= i)%nat ->
      Canonical formats lines i rcdFmt
  | Canonical_header i rcdFmt l :
      lines !! i = Some l ->
      is_header l = true ->
      Canonical formats lines (S i) (Some (header_name l)) ->
      Canonical formats lines i rcdFmt
  | Canonical_copy i rcdFmt l :
      lines !! i = Some l ->
      is_header l = false ->
      opens_payload l = false ->
      Canonical formats lines (S i) rcdFmt ->
      Canonical formats lines i rcdFmt
  | Canonical_region i j rcdFmt l :
      lines !! i = Some l ->
      is_header l = false ->
      opens_payload l = true ->
      region_end lines i j ->
      render_region formats rcdFmt l = Ok (take (S j - i) (drop i lines)) ->
      Canonical formats lines (S j) rcdFmt ->
      Canonical formats lines i rcdFmt.

(** The property names a [TypeError] of the engine can carry. *)
Definition failure_labels : list str :=
  [lit "replace"; lit "screen"; lit "record format name"; lit "toUpperCase"].

(** An error that carries the record-format name. *)
Definition mentions (e : js_error) (name : str) : Prop :=
  match e with
  | TypeError what => exists a b, what = a ++ name ++ b
  | SyntaxError => False
  end.

(** No payload of the model is taken for the record format. *)
Definition no_payload_for (rcdFmt : option str) (formats : list value) : Prop :=
  forall x, x ∈ formats -> names_format rcdFmt x <> Ok true.

(** The end of a region as the specification words it: the line does not
    continue, and it is the last line or the next line does not open a payload
    tag. *)
Definition claimed_end_at (lines : list str) (j : nat) : bool :=
  match lines !! j with
  | None => false
  | Some cur =>
      negb (str_eqb (substr cur 79 1) (lit "-")) &&
      match lines !! S j with
      | None => true
      | Some next => negb (str_eqb (substr next 44 7) (htmlOpen ++ lit "{"))
      end
  end.

(** What the engine tests of a line. *)
Definition tagged (l : str) : Prop := substr l 5 2 = lit "A ".

Definition starts_tag (l : str) : Prop := substr l 44 6 = htmlOpen.

Definition closing_text (prev cur : str) : Prop :=
  lastIndexOf (substring prev 44 79 ++ substring cur 44 80) (lit "}')") <> -1.

(** The lines behind [prev] run to the end of a region: every line but the
    last continues or is followed by the first line of a tag; the last line is
    one the engine can end the region with. *)
Inductive tail_shape : str -> list str -> Prop :=
  | tail_end prev cur :
      tagged cur -> ~ RendererSpec.continues cur -> closing_text prev cur ->
      tail_shape prev [cur]
  | tail_skip prev l next rest :
      RendererSpec.continues l \/ starts_tag next ->
      tail_shape l (next :: rest) ->
      tail_shape prev (l :: next :: rest).

(** What follows a region lets the region end: nothing, or a line that
    does not start a tag. *)
Definition next_ok (rest : list str) : Prop :=
  match rest with
  | [] => True
  | l :: _ => ~ starts_tag l
  end.

(** The chunks of a payload that the renderer lays out as a region the
    engine finds again: the text starts with an opening brace and ends with a
    closing one, the loop over the chunks is not left before the last chunk
    and no first line is one character short of the width. *)
Definition well_chunked (chunks : list str) : Prop :=
  (exists first, head chunks = Some ("{"%char :: first) /\ 28 <= size first) /\
  Forall (fun c => 29 <= size c) (removelast chunks) /\
  (exists text, last chunks = Some (text ++ lit "}") /\ size text <> 27).

(** A document whose payload regions are the renderer's layout of the
    payloads of the model. *)
Inductive Rendered (formats : list value) : option str -> list str -> Prop :=
  | Rendered_nil rcdFmt :
      Rendered formats rcdFmt []
  | Rendered_header rcdFmt l rest :
      is_header l = true ->
      Rendered formats (Some (header_name l)) rest ->
      Rendered formats rcdFmt (l :: rest)
  | Rendered_copy rcdFmt l rest :
      is_header l = false ->
      opens_payload l = false ->
      Rendered formats rcdFmt rest ->
      Rendered formats rcdFmt (l :: rest)
  | Rendered_region rcdFmt obj others htmlLineNum chunks rest :
      filter_formats rcdFmt formats = Ok (obj :: others) ->
      size htmlLineNum = 3 ->
      Chunker.chunkData (escape_quotes (JSON_stringify obj)) 2500 = Ok chunks ->
      well_chunked chunks ->
      next_ok rest ->
      Rendered formats rcdFmt rest ->
      Rendered formats rcdFmt
        (RendererSpec.layout (Renderer.htmlOpen htmlLineNum) chunks ++ rest).

(** A payload whose escaped text the chunker cuts into chunks that are
    [well_chunked]. *)
Definition plain (obj : value) : Prop :=
  exists chunks,
    Chunker.chunkData (escape_quotes (JSON_stringify obj)) 2500 = Ok chunks /\
    well_chunked chunks.

End MergeSpec.
End MergeSpec.

(** What the chunker keeps true of its chunks besides their size. *)
Module CutSpec.

Definition blank : ascii := " "%char.

(** A chunk that ends with a blank is a run of [bytes] blanks: the window
    the chunk was cut from held nothing else. *)
Definition no_trailing_blank (bytes : Z) (c : str) : Prop :=
  last c = Some blank -> c = replicate (Z.to_nat bytes) blank.

(** A chunk that starts with a single quote holds nothing but single
    quotes. *)
Definition quotes_or_clean (c : str) : Prop :=
  head c = Some quote -> Forall (fun x => x = quote) c.

(** The chunks after a repair: those behind the first are
    [quotes_or_clean], and the newest one, when it is not the only one, does
    not start with a single quote. *)
Definition repair_kept (chunks : list str) : Prop :=
  Forall quotes_or_clean (tail chunks) /\
  forall c, last chunks = Some c -> (2 <= length chunks)%nat -> head c <> Some quote.

End CutSpec.

(** What the scanner needs to read back what the renderer wrote. *)
Module RoundTripSpec.
Section RoundTripSpec.
Context `{JsRuntime}.
Import Renderer RendererSpec Scanner.

(** The state of a scan with the payloads [fs] read before it. *)
Definition with_formats (fs : list value) (st : scan_state) : scan_state :=
  {| isHtmlJsonTag := isHtmlJsonTag st; htmlTag := htmlTag st; formats := fs ++ formats st |}.

(** No line behind the first line of the chunk starts its text with
    [HTML(']: the scanner takes such a line for the first line of a tag and
    reads its text from column 51. *)
Definition no_false_tag (chunk : str) : Prop :=
  Forall (fun l => substr l 44 6 <> lit "HTML('")
         (continuation_lines (S (length chunk)) (drop 29 chunk)).

(** The chunks of a payload text that the scanner reads back from the lines
    of the renderer: the text starts with an opening brace; every chunk but
    the last fills its first line, so that the renderer goes on to the next
    chunk; no chunk has the 28 characters that the renderer writes without a
    column 80; no continuation line looks like the first line of a tag; a chunk
    behind the first that fits on its first line does not start with an
    opening brace, so that its line is not taken for a second payload; and
    the text does not parse before its last chunk is read. *)
Definition scannable (chunks : list str) : Prop :=
  (exists first, head chunks = Some ("{"%char :: first)) /\
  Forall (fun c => 29 <= size c) (removelast chunks) /\
  Forall (fun c => size c <> 28) chunks /\
  Forall no_false_tag chunks /\
  Forall (fun c => size c <= 27 -> head c <> Some "{"%char) (tail chunks) /\
  (forall k, (0 < k < length chunks)%nat ->
             JSON_parse (unescape_quotes (concat (take k chunks))) = None).

End RoundTripSpec.
End RoundTripSpec.

(** What the raw-text assembler echoes. *)
Module EchoSpec.
Import Assembler.

(** The characters of the class [[\x00-\x09\x0B-\x1F\x7F-\x9F]]. *)
Definition is_control (c : ascii) : bool :=
  let n := nat_of_ascii c in
  ((n <=? 9) || ((11 <=? n) && (n <=? 31)) || ((127 <=? n) && (n <=? 159)))%nat.

(** What is echoed of a line. *)
Definition echoed (line : str) : str := trimRight (blank_controls line).

(** The lines that are not dropped for what they are: the empty line and
    the designer comment [A*%%]. *)
Definition echoable (line : str) : bool :=
  negb (str_eqb line []) && negb (str_eqb (substr line 5 4) (lit "A*%%")).

(** The document echoed without a skip. *)
Fixpoint echoes (srcLines : list str) : list str :=
  match srcLines with
  | [] => []
  | line :: srcLines' =>
      if echoable line then echoed line :: echoes srcLines' else echoes srcLines'
  end.

(** A line without a character of the class, without white space at its
    end, and that is not a designer comment. *)
Definition clean (l : str) : Prop :=
  Forall (fun c => is_control c = false) l /\
  (forall c, last l = Some c -> is_js_space c = false) /\
  substr l 5 4 <> lit "A*%%".

(** A line before the payload: its keyword area does not start a tag, and
    it is not the header of a subfile. *)
Definition before_payload (l : str) : Prop :=
  substr l 44 6 <> lit "HTML('" /\
  (str_eqb (substr l 5 12) Merge.rcdFmtOpen = true -> trim (substr l 44 36) <> lit "SFL").

End EchoSpec.

(** The record formats of a document and their bound fields. *)
Module BoundSpec.
Section BoundSpec.
Context `{JsRuntime}.
Import Assembler AssemblerSpec EchoSpec.







(** A line that is dropped from the echo while [fields] are the bound
    fields: the empty line, the generated annotation, and the hidden field
    definition whose right-trimmed name is one of the fields. *)
Definition dropped (fields : list str) (line : str) : Prop :=
  line = [] \/ substr line 5 4 = lit "A*%%" \/
  (hidden_field line /\ trimRight (substr line 18 10) ∈ fields).

#[global] Instance dropped_dec (fields : list str) (line : str) : Decision (dropped fields line).
Proof. unfold dropped, hidden_field. apply _. Defined.




End BoundSpec.
End BoundSpec.

(** What the text written holds. *)
Module WriteSpec.
Import Source.

(** A line that holds the separator of lines. *)
Definition has_CRLF (l : str) : Prop := exists a b, l = a ++ CR :: LF :: b.

End WriteSpec.

(** Documents that both converters read the same way. *)
Module VerifySpec.
Section VerifySpec.
Context `{JsRuntime}.
Import Merge MergeSpec RoundTripSpec.

(** A document in the rendered form of the model, with the payloads of its
    regions in their order: outside the regions no line has [HTML('{] from
    column 45; a region is the renderer's layout of the payload that the model
    holds for the record format, a payload that the runtime parses back from
    its text and whose chunks are [well_chunked] and [scannable]. *)
Inductive Laid (formats : list value) : option str -> list str -> list value -> Prop :=
  | Laid_nil rcdFmt :
      Laid formats rcdFmt [] []
  | Laid_header rcdFmt l rest payloads :
      is_header l = true ->
      substr l 44 7 <> lit "HTML('{" ->
      Laid formats (Some (header_name l)) rest payloads ->
      Laid formats rcdFmt (l :: rest) payloads
  | Laid_copy rcdFmt l rest payloads :
      is_header l = false ->
      substr l 44 7 <> lit "HTML('{" ->
      Laid formats rcdFmt rest payloads ->
      Laid formats rcdFmt (l :: rest) payloads
  | Laid_region rcdFmt obj others htmlLineNum chunks rest payloads :
      filter_formats rcdFmt formats = Ok (obj :: others) ->
      size htmlLineNum = 3 ->
      JSON_parse (JSON_stringify obj) = Some obj ->
      Chunker.chunkData (escape_quotes (JSON_stringify obj)) 2500 = Ok chunks ->
      well_chunked chunks ->
      scannable chunks ->
      next_ok rest ->
      Laid formats rcdFmt rest payloads ->
      Laid formats rcdFmt
        (RendererSpec.layout (Renderer.htmlOpen htmlLineNum) chunks ++ rest)
        (obj :: payloads).

(** A payload that the renderer writes so that the scanner reads it back
    and the engine finds its region again. *)
Definition readable (obj : value) : Prop :=
  JSON_parse (JSON_stringify obj) = Some obj /\
  exists chunks,
    Chunker.chunkData (escape_quotes (JSON_stringify obj)) 2500 = Ok chunks /\
    well_chunked chunks /\ scannable chunks.

(** The lines the scanner takes for the first line of a payload are lines
    the engine takes for one: they have [A ] in columns 6-7 and are not
    record-format headers. *)
Definition tags_agree (lines : list str) : Prop :=
  Forall (fun l => substr l 44 7 = lit "HTML('{" ->
                   is_header l = false /\ opens_payload l = true) lines.

End VerifySpec.
End VerifySpec.

(** How a call ends. *)
Module OutcomeSpec.

(** The call returns, or throws a [TypeError]: it does not go on for ever
    and throws nothing else. *)
Definition returns_or_TypeError {A : Type} (m : outcome A) : Prop :=
  (exists a, m = Ok a) \/ (exists what, m = Throw (TypeError what)).

End OutcomeSpec.

Module Examples.
Import Sample.

Definition header1 : str := lit "     A          R RECFMT1".
Definition field1 : str := lit "     A            FLD1          10A  H".
Definition field2 : str := lit "     A            FLD2          10A  B  3  4".

(** The payload [{"screen":{"record format name":"RECFMT1"},"items":[]}] *)
Definition payload1 : value :=
  VObj [ (lit "screen", VObj [(lit "record format name", VStr (lit "RECFMT1"))]);
         (lit "items", VArr []) ].

(** and its rendering with the line number 1. *)
Definition tag1 : str :=
  json "     A                                  1  2HTML('{`screen`:{`record format nam-".
Definition tag2 : str :=
  json "     A                                      e`:`RECFMT1`},`items`:[]}')".

(** The same text closed behind a blank, *)
Definition tag2_blank : str :=
  json "     A                                      e`:`RECFMT1`},`items`:[]} ')".

(** and laid out as two tags, the second with the last 14 characters. *)
Definition tag2_short : str :=
  json "     A                                      e`:`RECFMT1')".
Definition tag3 : str :=
  json "     A                                  1  2HTML('`},`items`:[]}')".

(** The payload with the name in lower case, and its rendering. *)
Definition payload1_lower : value :=
  VObj [ (lit "screen", VObj [(lit "record format name", VStr (lit "recfmt1"))]);
         (lit "items", VArr []) ].
Definition tag2_lower : str :=
  json "     A                                      e`:`recfmt1`},`items`:[]}')".

End Examples.

Import Examples.

(** * Proofs *)

(** ** The sample runtime keeps the laws *)

Module SampleFacts.
Import Sample.

Lemma digits_nonempty (fuel : nat) : forall n acc, digits fuel n acc <> [].
Proof.
  induction fuel as [|fuel IH]; intros n acc; simpl; [discriminate|].
  destruct (n / 10 =? 0); [discriminate | apply IH].
Qed.

Lemma stringify_nonempty (v : value) : stringify v <> [].
Proof.
  destruct v as [|[]|n|s|elts|props]; try discriminate.
  simpl. unfold print_Z. destruct (n <? 0); [discriminate | apply digits_nonempty].
Qed.

#[global] Instance runtime_laws : JsRuntimeLaws :=
  {| JSON_stringify_nonempty := stringify_nonempty |}.

End SampleFacts.

(** ** Facts about the string primitives *)

Lemma size_nonneg (s : str) : 0 <= size s.
Proof. unfold size. lia. Qed.

Lemma size_app (a b : str) : size (a ++ b) = size a + size b.
Proof. unfold size. rewrite length_app. lia. Qed.

Lemma substr_take (s : str) (n : Z) :
  0 <= n <= size s -> substr s 0 n = take (Z.to_nat n) s.
Proof.
  intros Hn. unfold substr. change (0 <? 0) with false. cbv iota.
  replace (Z.min 0 (size s)) with 0 by lia.
  replace (Z.min (Z.max n 0) (size s)) with n by lia.
  reflexivity.
Qed.

Lemma substr_from_drop (s : str) (n : Z) :
  0 <= n -> substr_from s n = drop (Z.to_nat n) s.
Proof.
  intros Hn. unfold substr_from.
  destruct (n <? 0) eqn:E; [lia|].
  destruct (Z.le_gt_cases n (size s)).
  - rewrite Z.min_l by lia. reflexivity.
  - rewrite Z.min_r by lia. unfold size in *.
    rewrite !drop_ge; [reflexivity | lia | lia].
Qed.

Lemma substr_head (s : str) : substr s 0 1 = take 1 s.
Proof.
  destruct s as [|c s]; [reflexivity|].
  rewrite substr_take; [reflexivity|]. unfold size. simpl. lia.
Qed.

Lemma str_eqb_eq (a b : str) : str_eqb a b = true <-> a = b.
Proof. unfold str_eqb. apply bool_decide_eq_true. Qed.

Lemma str_eqb_neq (a b : str) : str_eqb a b = false <-> a <> b.
Proof. unfold str_eqb. apply bool_decide_eq_false. Qed.

(** ** The chunker: what the loops compute *)

Module ChunkerFacts.
Import Chunker ChunkerSpec.

Lemma leading_quotes_le (s : str) : (leading_quotes s <= length s)%nat.
Proof. induction s as [|c s IH]; simpl; [lia|]. case_bool_decide; lia. Qed.

Lemma take_leading_quotes (s : str) :
  take (leading_quotes s) s = replicate (leading_quotes s) quote.
Proof.
  induction s as [|c s IH]; simpl; [reflexivity|].
  case_bool_decide; simpl; [subst; f_equal; exact IH | reflexivity].
Qed.

Lemma lookup_newest (pre : list str) (b c : str) :
  (pre ++ [b; c]) !! S (length pre) = Some c.
Proof.
  rewrite lookup_app_r by lia.
  replace (S (length pre) - length pre)%nat with 1%nat by lia. reflexivity.
Qed.

Lemma insert_newest (pre : list str) (b c d : str) :
  <[S (length pre) := d]> (pre ++ [b; c]) = pre ++ [b; d].
Proof.
  rewrite insert_app_r_alt by lia.
  replace (S (length pre) - length pre)%nat with 1%nat by lia. reflexivity.
Qed.

Lemma nth_before (pre : list str) (b c d : str) :
  nth (length pre) (pre ++ [b; c]) d = b.
Proof. rewrite nth_middle. reflexivity. Qed.

Lemma insert_before (pre : list str) (b c d : str) :
  <[length pre := d]> (pre ++ [b; c]) = pre ++ [d; c].
Proof.
  rewrite insert_app_r_alt by lia.
  replace (length pre - length pre)%nat with 0%nat by lia. reflexivity.
Qed.

Lemma fixSingleQuotes_loop_spec (c : str) : forall (fuel : nat) (pre : list str) (b : str),
  (length c < fuel)%nat ->
  fixSingleQuotes_loop fuel (pre ++ [b; c]) (S (S (length pre)))
  = Ok (pre ++ [b ++ take (leading_quotes c) c; drop (leading_quotes c) c]).
Proof.
  induction c as [|x c IH]; intros fuel pre b Hf;
    (destruct fuel as [|fuel]; [simpl in Hf; lia|]);
    cbn [fixSingleQuotes_loop];
    replace (S (S (length pre)) - 1)%nat with (S (length pre)) by lia;
    replace (S (S (length pre)) - 2)%nat with (length pre) by lia;
    rewrite lookup_newest, substr_head.
  - simpl. rewrite app_nil_r. reflexivity.
  - cbn [take leading_quotes].
    case_bool_decide as Hx.
    + subst x. replace (str_eqb [quote] (lit "'")) with true by reflexivity.
      rewrite substr_from_drop by lia.
      change (drop (Z.to_nat 1) (quote :: c)) with c.
      rewrite insert_newest, nth_before, insert_before.
      rewrite IH by (simpl in Hf; lia).
      cbn [take drop]. rewrite <- app_assoc. reflexivity.
    + change (take 0 c) with (@nil ascii).
      replace (str_eqb [x] (lit "'")) with false.
      * cbn [take drop]. rewrite app_nil_r. reflexivity.
      * symmetry. apply str_eqb_neq. intros [= ->]. apply Hx. reflexivity.
Qed.

Lemma fixSingleQuotes_push (chunks : list str) (c : str) :
  fixSingleQuotes (chunks ++ [c]) (S (length chunks)) = Ok (repaired chunks c).
Proof.
  unfold fixSingleQuotes, repaired.
  destruct (reverse chunks) as [|b pre] eqn:E.
  - apply (f_equal reverse) in E. rewrite reverse_involutive in E. subst chunks.
    reflexivity.
  - apply (f_equal reverse) in E. rewrite reverse_involutive, reverse_cons in E.
    subst chunks. rewrite length_app.
    replace (S (length (reverse pre) + length [b])) with (S (S (length (reverse pre))))
      by (cbn [length]; lia).
    change (1 <? S (S (length (reverse pre))))%nat with true. cbv iota.
    rewrite <- app_assoc. change ([b] ++ [c]) with [b; c].
    apply fixSingleQuotes_loop_spec.
    replace (S (S (length (reverse pre))) - 1)%nat with (S (length (reverse pre))) by lia.
    erewrite nth_lookup_Some by apply lookup_newest. lia.
Qed.

Lemma concat_repaired (chunks : list str) (c : str) :
  concat (repaired chunks c) = concat chunks ++ c.
Proof.
  unfold repaired. destruct (reverse chunks) as [|b pre] eqn:E;
    apply (f_equal reverse) in E; rewrite reverse_involutive in E; subst chunks.
  - simpl. rewrite app_nil_r. reflexivity.
  - rewrite reverse_cons, !concat_app. simpl. rewrite !app_nil_r.
    rewrite <- !app_assoc. rewrite take_drop. reflexivity.
Qed.

Lemma length_repaired (chunks : list str) (c : str) :
  length (repaired chunks c) = S (length chunks).
Proof.
  unfold repaired. destruct (reverse chunks) as [|b pre] eqn:E;
    apply (f_equal reverse) in E; rewrite reverse_involutive in E; subst chunks.
  - reflexivity.
  - rewrite reverse_cons, !length_app. simpl. lia.
Qed.

Lemma skipTrailingBlanks_le (n : nat) (data : str) : (skipTrailingBlanks n data <= n)%nat.
Proof.
  induction n as [|n IH]; simpl; [lia|].
  destruct (str_eqb _ _); lia.
Qed.

Lemma pickChunkSize_range (data : str) (bytes : Z) :
  0 < bytes -> 1 <= pickChunkSize data bytes <= bytes.
Proof.
  intros Hb. unfold pickChunkSize.
  replace (0 <? bytes) with true by (symmetry; apply Z.ltb_lt; lia).
  pose proof (skipTrailingBlanks_le (Z.to_nat bytes) data).
  destruct (Z.of_nat (skipTrailingBlanks (Z.to_nat bytes) data) =? 0) eqn:E.
  - lia.
  - apply Z.eqb_neq in E. lia.
Qed.

Lemma bounded_nil (bytes : Z) : bounded bytes [].
Proof. split; [constructor | intros b [=]]. Qed.

Lemma chunk_ok_cut (bytes : Z) (c : str) : size c <= bytes -> chunk_ok bytes c.
Proof.
  intros Hc. pose proof (size_nonneg c). exists c, 0%nat.
  cbn [replicate]. rewrite app_nil_r. repeat split; lia.
Qed.

Lemma chunk_ok_size (bytes : Z) (c : str) :
  chunk_ok bytes c -> size c <= 2 * bytes /\ (bytes < size c -> last c = Some quote).
Proof.
  intros (cut & moved & -> & Hcut & Hmoved).
  rewrite size_app. unfold size in *. rewrite length_replicate. split; [lia|].
  intros Hlong. destruct moved as [|k]; [cbn [length] in Hlong; lia|].
  rewrite replicate_S_end, app_assoc. apply last_snoc.
Qed.

Lemma bounded_repaired (bytes : Z) (chunks : list str) (c : str) :
  bounded bytes chunks -> size c <= bytes -> bounded bytes (repaired chunks c).
Proof.
  intros [HF HL] Hc. pose proof (size_nonneg c) as Hc0.
  unfold repaired. destruct (reverse chunks) as [|b pre] eqn:E;
    apply (f_equal reverse) in E; rewrite reverse_involutive in E; subst chunks.
  - split.
    + constructor; [|constructor]. apply chunk_ok_cut. exact Hc.
    + intros b [= <-]. exact Hc.
  - rewrite reverse_cons in HF, HL.
    apply Forall_app in HF as [Hpre _].
    specialize (HL b (last_snoc _ _)).
    pose proof (leading_quotes_le c) as Hk.
    assert (Hd : size (drop (leading_quotes c) c) <= bytes).
    { unfold size in *. rewrite length_drop. lia. }
    split.
    + apply Forall_app. split; [exact Hpre|].
      constructor; [|constructor; [|constructor]].
      * exists b, (leading_quotes c). rewrite take_leading_quotes.
        split; [reflexivity|]. split; [exact HL|]. unfold size in *. lia.
      * apply chunk_ok_cut. exact Hd.
    + intros d Hd'.
      rewrite (last_app_cons _ _ _) in Hd'. simpl in Hd'.
      injection Hd' as <-. exact Hd.
Qed.

Lemma chunkData_loop_spec (bytes : Z) (Hb : 0 < bytes) :
  forall (fuel : nat) (data : str) (chunks : list str),
    (length data < fuel)%nat ->
    bounded bytes chunks ->
    exists out,
      chunkData_loop fuel data bytes chunks (length chunks) = Ok out /\
      concat out = concat chunks ++ data /\
      bounded bytes out.
Proof.
  induction fuel as [|fuel IH]; intros data chunks Hf Hbd; [lia|].
  cbn [chunkData_loop].
  destruct (bytes <? size data) eqn:Hlong.
  - apply Z.ltb_lt in Hlong.
    pose proof (pickChunkSize_range data bytes Hb) as Hcs.
    set (cs := pickChunkSize data bytes) in *.
    rewrite fixSingleQuotes_push. cbn [mbind outcome_bind].
    rewrite substr_take, substr_from_drop by lia.
    assert (Hlen : length (take (Z.to_nat cs) data) = Z.to_nat cs).
    { rewrite length_take. unfold size in Hlong. lia. }
    unfold size in Hlong.
    destruct (IH (drop (Z.to_nat cs) data) (repaired chunks (take (Z.to_nat cs) data)))
      as (out & Hrun & Hcat & Hout).
    + rewrite length_drop. lia.
    + apply bounded_repaired; [exact Hbd|]. unfold size. lia.
    + exists out. rewrite length_repaired in Hrun.
      split; [exact Hrun|]. split; [|exact Hout].
      rewrite Hcat, concat_repaired, <- app_assoc, take_drop. reflexivity.
  - apply Z.ltb_ge in Hlong.
    destruct (0 <? size data) eqn:Hne.
    + rewrite fixSingleQuotes_push. eexists. split; [reflexivity|].
      split; [apply concat_repaired|]. apply bounded_repaired; assumption.
    + apply Z.ltb_ge in Hne. pose proof (size_nonneg data).
      assert (data = []) as -> by (destruct data; [reflexivity | unfold size in *; simpl in *; lia]).
      exists chunks. rewrite app_nil_r. auto.
Qed.

(** For a positive size the chunker returns, and its chunks put together
    are the input again. *)
Lemma chunkData_returns (data : str) (bytes : Z) :
  0 < bytes ->
  exists chunks,
    chunkData data bytes = Ok chunks /\
    concat chunks = data /\
    bounded bytes chunks.
Proof.
  intros Hb. unfold chunkData.
  destruct (chunkData_loop_spec bytes Hb (S (length data)) data [])
    as (out & Hrun & Hcat & Hout); [lia | apply bounded_nil |].
  exists out. auto.
Qed.

Lemma chunkData_nonempty (data : str) (bytes : Z) (chunks : list str) :
  0 < bytes -> data <> [] -> chunkData data bytes = Ok chunks -> chunks <> [].
Proof.
  intros Hb Hd Hrun.
  destruct (chunkData_returns data bytes Hb) as (out & Hrun' & Hcat & _).
  rewrite Hrun in Hrun'. injection Hrun' as <-.
  intros ->. apply Hd. symmetry. exact Hcat.
Qed.

End ChunkerFacts.

(** ** The chunker: the claims *)

Import Chunker ChunkerSpec ChunkerFacts.

(** C5, as stated, fails: with a size of 3 the text [ab''cd] is cut after
    the first quote, the repair moves the second quote back, and the first
    chunk has 4 characters. *)
Lemma chunkData_chunk_above_size :
  chunkData (lit "ab''cd") 3 = Ok [lit "ab''"; lit "cd"] /\
  ~ Forall (fun c => size c <= 3) [lit "ab''"; lit "cd"].
Proof.
  split; [vm_compute; reflexivity|].
  intros HF. apply Forall_cons in HF as [Hc _]. vm_compute in Hc. apply Hc. reflexivity.
Qed.

(** C5, amended: for a positive size N the chunker returns, and every chunk
    is a text of at most N characters followed by single quotes only, at most
    N of them: the quotes that the repair moved to its end. So a chunk is
    longer than N only by these quotes (it then ends with a single quote) and
    is never longer than 2N; when the text has no single quote every chunk is
    within N. *)
Theorem chunkData_chunk_sizes (data : str) (bytes : Z) :
  0 < bytes ->
  exists chunks,
    chunkData data bytes = Ok chunks /\
    Forall (fun c => chunk_ok bytes c /\ size c <= 2 * bytes /\
                     (bytes < size c -> last c = Some quote)) chunks /\
    (quote ∉ data -> Forall (fun c => size c <= bytes) chunks).
Proof.
  intros Hb.
  destruct (chunkData_returns data bytes Hb) as (chunks & Hrun & Hcat & HF & _).
  exists chunks. split; [exact Hrun|]. split.
  - eapply Forall_impl; [exact HF|]. intros c Hc.
    split; [exact Hc | apply chunk_ok_size; exact Hc].
  - intros Hq. rewrite Forall_forall in HF |- *. intros c Hc.
    destruct (chunk_ok_size bytes c (HF c Hc)) as [_ Hlast].
    destruct (Z.le_gt_cases (size c) bytes) as [Hle|Hgt]; [exact Hle|].
    exfalso. apply Hq. rewrite <- Hcat.
    apply list_elem_of_In, in_concat. exists c.
    split; [apply list_elem_of_In; exact Hc|].
    specialize (Hlast ltac:(lia)).
    apply last_Some in Hlast as [c' ->]. apply in_or_app. right. left. reflexivity.
Qed.

Lemma chunkData_chunk_sizes_witness :
  0 < 3 /\
  exists chunks,
    chunkData (lit "ab''cd") 3 = Ok chunks /\
    Forall (fun c => chunk_ok 3 c /\ size c <= 2 * 3 /\
                     (3 < size c -> last c = Some quote)) chunks /\
    (quote ∉ lit "ab''cd" -> Forall (fun c => size c <= 3) chunks).
Proof.
  split; [lia|]. apply (chunkData_chunk_sizes (lit "ab''cd") 3). lia.
Defined.

(** C6, the part that holds: the chunks of a positive size, put together in
    order, are the text. *)
Lemma chunkData_concat (data : str) (bytes : Z) (chunks : list str) :
  0 < bytes -> chunkData data bytes = Ok chunks -> concat chunks = data.
Proof.
  intros Hb Hrun.
  destruct (chunkData_returns data bytes Hb) as (out & Hrun' & Hcat & _).
  rewrite Hrun in Hrun'. injection Hrun' as <-. exact Hcat.
Qed.

(** C6 at the failing input: with a size of 2 the text [ab''''cd] has a chunk
    of quotes only; the repair empties it, the next repair refills it with
    quotes, and the second chunk of the result starts with a single quote. *)
Theorem chunkData_quote_run :
  chunkData (lit "ab''''cd") 2 = Ok [lit "ab''"; lit "''"; []; lit "cd"] /\
  substr (lit "''") 0 1 = lit "'".
Proof. split; vm_compute; reflexivity. Qed.

(** ** The renderer: the claims *)

Module RendererFacts.
Section RendererFacts.
Context `{JsRuntime} `{!JsRuntimeLaws}.
Import Renderer RendererSpec.

Lemma size_substr (s : str) (pos len : Z) :
  0 <= pos -> 0 <= len ->
  size (substr s pos len) = Z.max 0 (Z.min len (size s - pos)).
Proof.
  intros Hp Hl. unfold substr.
  destruct (pos <? 0) eqn:E; [lia|].
  unfold size. rewrite length_take, length_drop. lia.
Qed.

Lemma size_kwdOpen : size kwdOpen = 44.
Proof. reflexivity. Qed.

Lemma size_htmlOpen (htmlLineNum : str) : size (htmlOpen htmlLineNum) = 47 + size htmlLineNum.
Proof.
  unfold htmlOpen. rewrite !size_app.
  change (size (lit "     A                                ")) with 38.
  change (size (lit "  2HTML('")) with 9. lia.
Qed.

Lemma closed_last_snoc (lines : list str) (l : str) :
  closed_last (lines ++ [l ++ lit "')"]).
Proof.
  exists (l ++ lit "')"). split; [apply last_snoc|]. exists l. reflexivity.
Qed.

Lemma continuation_loop_closed (chunk : str) :
  forall (fuel : nat) (pos : Z) (flag : bool) (lines : list str),
    0 <= pos ->
    (Z.to_nat (size chunk - pos) < fuel)%nat ->
    (flag = true -> size chunk <= pos /\ closed_last lines) ->
    exists lines' flag',
      continuation_loop fuel chunk pos 35 flag lines = Ok (lines', flag') /\
      (flag' = true -> closed_last lines').
Proof.
  induction fuel as [|fuel IH]; intros pos flag lines Hp Hf Hinv; [lia|].
  cbn [continuation_loop].
  destruct (pos <? size chunk) eqn:Hlt.
  - apply Z.ltb_lt in Hlt.
    assert (flag = false) as -> by (destruct flag; [destruct Hinv; [reflexivity|lia] | reflexivity]).
    rewrite size_app, size_kwdOpen, size_substr by lia.
    destruct (44 + Z.max 0 (Z.min 35 (size chunk - pos)) =? 79) eqn:Hfull.
    + apply IH; [lia | lia | discriminate].
    + apply Z.eqb_neq in Hfull.
      apply IH; [lia | lia |]. intros _. split; [lia|].
      apply closed_last_snoc.
  - apply Z.ltb_ge in Hlt. exists lines, flag. split; [reflexivity|].
    intros Hfl. apply Hinv. exact Hfl.
Qed.

(** Whatever the chunk, the lines written for it end with a closed line:
    where the text filled its last line to the width, the blank-prefix
    closing line follows. *)
Lemma chunk_lines_closed (htmlOpen chunk : str) (lines : list str) :
  0 <= 79 - size htmlOpen ->
  exists lines' stop,
    chunk_lines htmlOpen chunk lines = Ok (lines', stop) /\ closed_last lines'.
Proof.
  intros Hw. unfold chunk_lines.
  destruct (size (substr chunk 0 (79 - size htmlOpen)) <=? 79 - size htmlOpen - 2).
  - eexists _, true. split; [reflexivity|].
    rewrite app_assoc. apply closed_last_snoc.
  - change (79 - size kwdOpen) with 35.
    edestruct (continuation_loop_closed chunk
                 (S (Z.to_nat (size chunk - (79 - size htmlOpen))))
                 (79 - size htmlOpen) false) as (lines' & flag' & Hrun & Hcl);
      [exact Hw | lia | discriminate |].
    rewrite Hrun. cbn [mbind outcome_bind].
    eexists _, false. split; [reflexivity|].
    destruct flag'; [apply Hcl; reflexivity|].
    apply (closed_last_snoc lines' kwdOpen).
Qed.

Lemma chunks_loop_closed (htmlOpen : str) (Hw : 0 <= 79 - size htmlOpen) :
  forall (htmlChunks : list str) (lines : list str),
    htmlChunks <> [] \/ closed_last lines ->
    exists out, chunks_loop htmlOpen htmlChunks lines = Ok out /\ closed_last out.
Proof.
  induction htmlChunks as [|chunk rest IH]; intros lines Hor.
  - destruct Hor as [Hne|Hcl]; [congruence|]. exists lines. split; [reflexivity | exact Hcl].
  - cbn [chunks_loop].
    destruct (chunk_lines_closed htmlOpen chunk lines Hw) as (lines' & stop & Hrun & Hcl).
    rewrite Hrun. cbn [mbind outcome_bind].
    destruct stop.
    + exists lines'. split; [reflexivity | exact Hcl].
    + apply IH. right. exact Hcl.
Qed.

Lemma escape_quotes_nonempty (s : str) : s <> [] -> escape_quotes s <> [].
Proof.
  destruct s as [|c s]; [congruence|]. intros _. simpl.
  case_bool_decide; discriminate.
Qed.

(** The renderer returns for every payload and line number of up to 32
    characters, and its last line is a closed one. *)
Lemma htmlObjToDdsLines_returns (obj : value) (htmlLineNum : str) :
  size htmlLineNum <= 32 ->
  exists lines,
    htmlObjToDdsLines (Some obj) htmlLineNum = Ok lines /\ closed_last lines.
Proof.
  intros Hn. unfold htmlObjToDdsLines.
  destruct (chunkData_returns (escape_quotes (JSON_stringify obj)) 2500)
    as (chunks & Hrun & Hcat & _); [lia|].
  rewrite Hrun. cbn [mbind outcome_bind].
  apply chunks_loop_closed.
  - rewrite size_htmlOpen. lia.
  - left. intros ->. simpl in Hcat.
    symmetry in Hcat. revert Hcat. apply escape_quotes_nonempty, JSON_stringify_nonempty.
Qed.

Lemma substr_79_short (l : str) : size l <= 79 -> substr l 79 1 = [].
Proof.
  intros Hl. unfold substr. change (79 <? 0) with false. cbv iota.
  rewrite drop_ge; [apply take_nil|]. unfold size in *. lia.
Qed.

Lemma substr_79_last (x : str) (c : ascii) : size x = 79 -> substr (x ++ [c]) 79 1 = [c].
Proof.
  intros Hx. unfold substr. change (79 <? 0) with false. cbv iota.
  rewrite size_app. change (size [c]) with 1.
  replace (Z.to_nat (Z.min 79 (size x + 1))) with (length x) by (unfold size in *; lia).
  rewrite drop_app_length.
  replace (Z.to_nat (Z.min (Z.max 1 0) (size x + 1))) with 1%nat by lia.
  reflexivity.
Qed.

Lemma continues_dash (x : str) : size x = 79 -> continues (x ++ lit "-").
Proof. intros Hx. unfold continues. apply (substr_79_last x "-"%char Hx). Qed.

Lemma closed_not_continues (y : str) : size y <= 78 -> ~ continues (y ++ lit "')").
Proof.
  intros Hy. unfold continues.
  destruct (Z.eq_dec (size y) 78) as [Heq|Hne].
  - change (lit "')") with ([quote] ++ [")"%char]). rewrite app_assoc.
    rewrite substr_79_last; [discriminate|].
    rewrite size_app. change (size [quote]) with 1. lia.
  - rewrite substr_79_short; [discriminate|].
    rewrite size_app. change (size (lit "')")) with 2. lia.
Qed.

Lemma chunk_block_cons (l : str) (lines : list str) :
  continues l -> chunk_block lines -> chunk_block (l :: lines).
Proof.
  intros Hl (init & x & -> & Hinit & Hx).
  exists (l :: init), x. split; [reflexivity|]. split; [constructor; assumption | exact Hx].
Qed.

(** The continuation lines of a chunk: all of them continue when none was
    closed; otherwise they are all that is left of a block. *)
Lemma continuation_loop_block (chunk : str) :
  forall (fuel : nat) (pos : Z) (lines : list str),
    0 <= pos ->
    (Z.to_nat (size chunk - pos) < fuel)%nat ->
    exists new flag,
      continuation_loop fuel chunk pos 35 false lines = Ok (lines ++ new, flag) /\
      Forall (fun l => size l <= 80) new /\
      (flag = false -> Forall continues new) /\
      (flag = true -> chunk_block new).
Proof.
  induction fuel as [|fuel IH]; intros pos lines Hp Hf; [lia|].
  cbn [continuation_loop].
  destruct (pos <? size chunk) eqn:Hlt.
  - apply Z.ltb_lt in Hlt.
    pose proof (size_substr chunk pos 35 Hp ltac:(lia)) as Hpiece.
    set (piece := substr chunk pos 35) in *.
    rewrite size_app, size_kwdOpen.
    destruct (44 + size piece =? 79) eqn:Hfull.
    + apply Z.eqb_eq in Hfull.
      destruct (IH (pos + 35) (lines ++ [(kwdOpen ++ piece) ++ lit "-"]))
        as (new & flag & Hrun & Hw & Hcont & Hblock); [lia | lia |].
      assert (Hline : continues ((kwdOpen ++ piece) ++ lit "-")).
      { apply continues_dash. rewrite size_app, size_kwdOpen. lia. }
      exists (((kwdOpen ++ piece) ++ lit "-") :: new), flag.
      rewrite Hrun, <- app_assoc. split; [reflexivity|]. split; [|split].
      * constructor; [|exact Hw].
        rewrite !size_app, size_kwdOpen. change (size (lit "-")) with 1. lia.
      * intros Hfl. constructor; [exact Hline | apply Hcont; exact Hfl].
      * intros Hfl. apply chunk_block_cons; [exact Hline | apply Hblock; exact Hfl].
    + apply Z.eqb_neq in Hfull.
      destruct fuel as [|fuel]; [lia|]. cbn [continuation_loop].
      replace (pos + 35 <? size chunk) with false by (symmetry; apply Z.ltb_ge; lia).
      exists [(kwdOpen ++ piece) ++ lit "')"], true.
      split; [reflexivity|]. split; [|split].
      * constructor; [|constructor].
        rewrite !size_app, size_kwdOpen. change (size (lit "')")) with 2. lia.
      * discriminate.
      * intros _. exists [], ((kwdOpen ++ piece) ++ lit "')").
        split; [reflexivity|]. split; [constructor|].
        apply closed_not_continues. rewrite size_app, size_kwdOpen. lia.
  - exists [], false. rewrite app_nil_r. split; [reflexivity|].
    split; [constructor|]. split; [constructor | discriminate].
Qed.

(** The part of C10 that holds: the lines written for a chunk of any length
    but 28, behind a prefix of 50 characters, are within 80 columns, and all
    but the last have the continuation character in column 80. *)
Lemma chunk_lines_block (htmlOpen chunk : str) (lines : list str) :
  size htmlOpen = 50 ->
  size chunk <> 28 ->
  exists new stop,
    chunk_lines htmlOpen chunk lines = Ok (lines ++ new, stop) /\
    Forall (fun l => size l <= 80) new /\
    chunk_block new.
Proof.
  intros Hopen Hchunk. unfold chunk_lines. rewrite Hopen.
  change (79 - 50) with 29. change (29 - 2) with 27. change (79 - size kwdOpen) with 35.
  pose proof (size_substr chunk 0 29 ltac:(lia) ltac:(lia)) as Hpiece.
  pose proof (size_nonneg chunk) as Hnn.
  set (piece := substr chunk 0 29) in *.
  destruct (size piece <=? 27) eqn:Hfit.
  - apply Z.leb_le in Hfit.
    exists [htmlOpen ++ piece ++ lit "')"], true. split; [reflexivity|].
    assert (Hnc : ~ continues (htmlOpen ++ piece ++ lit "')")).
    { rewrite app_assoc. apply closed_not_continues. rewrite size_app. lia. }
    split; [|exists [], (htmlOpen ++ piece ++ lit "')"); split; [reflexivity|];
             split; [constructor | exact Hnc]].
    constructor; [|constructor].
    rewrite !size_app. change (size (lit "')")) with 2. lia.
  - apply Z.leb_gt in Hfit.
    assert (Hfirst : continues (htmlOpen ++ piece ++ lit "-")).
    { rewrite app_assoc. apply continues_dash. rewrite size_app. lia. }
    assert (Hwidth : size (htmlOpen ++ piece ++ lit "-") <= 80).
    { rewrite !size_app. change (size (lit "-")) with 1. lia. }
    destruct (continuation_loop_block chunk (S (Z.to_nat (size chunk - 29))) 29
                (lines ++ [htmlOpen ++ piece ++ lit "-"]))
      as (new & flag & Hrun & Hw & Hcont & Hblock); [lia | lia |].
    rewrite Hrun. cbn [mbind outcome_bind].
    destruct flag.
    + exists ((htmlOpen ++ piece ++ lit "-") :: new), false.
      rewrite <- app_assoc. split; [reflexivity|].
      split; [constructor; assumption|].
      apply chunk_block_cons; [exact Hfirst | apply Hblock; reflexivity].
    + exists ((htmlOpen ++ piece ++ lit "-") :: new ++ [kwdOpen ++ lit "')"]), false.
      rewrite <- !app_assoc. split; [reflexivity|]. split.
      * constructor; [exact Hwidth|]. apply Forall_app. split; [exact Hw|].
        constructor; [|constructor]. vm_compute. discriminate.
      * exists ((htmlOpen ++ piece ++ lit "-") :: new), (kwdOpen ++ lit "')").
        split; [reflexivity|].
        split; [constructor; [exact Hfirst | apply Hcont; reflexivity]|].
        apply closed_not_continues. rewrite size_kwdOpen. lia.
Qed.

Lemma substr_within (s : str) (pos len : Z) :
  0 <= pos -> 0 <= len ->
  substr s pos len = take (Z.to_nat len) (drop (Z.to_nat pos) s).
Proof.
  intros Hp Hl. unfold substr.
  destruct (pos <? 0) eqn:E; [lia|].
  pose proof (size_nonneg s) as Hs.
  destruct (Z.le_gt_cases pos (size s)) as [Hin|Hout].
  - rewrite (Z.min_l pos) by lia. rewrite Z.max_l by lia.
    destruct (Z.le_gt_cases len (size s)) as [Hle|Hgt].
    + rewrite Z.min_l by lia. reflexivity.
    + rewrite Z.min_r by lia. unfold size in *.
      rewrite !take_ge; [reflexivity | rewrite length_drop; lia | rewrite length_drop; lia].
  - rewrite (Z.min_r pos) by lia. unfold size in *.
    rewrite !drop_ge by lia. rewrite !take_nil. reflexivity.
Qed.

(** The loop writes the continuation lines of the text from [pos] on, and
    reports a closed line exactly when text was left. *)
Lemma continuation_loop_layout (chunk : str) :
  forall (fuel : nat) (pos : Z) (lines : list str),
    0 <= pos ->
    (Z.to_nat (size chunk - pos) < fuel)%nat ->
    exists new flag,
      continuation_loop fuel chunk pos 35 false lines = Ok (lines ++ new, flag) /\
      (if flag then new else new ++ [kwdOpen ++ lit "')"])
      = continuation_lines fuel (drop (Z.to_nat pos) chunk).
Proof.
  induction fuel as [|fuel IH]; intros pos lines Hp Hf; [lia|].
  cbn [continuation_loop continuation_lines].
  assert (Hrest : size (drop (Z.to_nat pos) chunk) = Z.max 0 (size chunk - pos)).
  { unfold size. rewrite length_drop. lia. }
  rewrite Hrest.
  destruct (pos <? size chunk) eqn:Hlt.
  - apply Z.ltb_lt in Hlt.
    replace (Z.max 0 (size chunk - pos) =? 0) with false by (symmetry; apply Z.eqb_neq; lia).
    rewrite size_app, size_kwdOpen, size_substr by lia.
    rewrite substr_within by lia.
    destruct (35 <=? Z.max 0 (size chunk - pos)) eqn:Hfull.
    + apply Z.leb_le in Hfull.
      replace (44 + Z.max 0 (Z.min 35 (size chunk - pos)) =? 79) with true
        by (symmetry; apply Z.eqb_eq; lia).
      destruct (IH (pos + 35)
                  (lines ++ [(kwdOpen ++ take (Z.to_nat 35) (drop (Z.to_nat pos) chunk)) ++ lit "-"]))
        as (new & flag & Hrun & Hnew); [lia | lia |].
      eexists (_ :: new), flag. rewrite Hrun, <- app_assoc. split; [reflexivity|].
      rewrite drop_drop in *. replace (Z.to_nat (pos + 35)) with (Z.to_nat pos + 35)%nat in Hnew by lia.
      rewrite <- Hnew. destruct flag; reflexivity.
    + apply Z.leb_gt in Hfull.
      replace (44 + Z.max 0 (Z.min 35 (size chunk - pos)) =? 79) with false
        by (symmetry; apply Z.eqb_neq; lia).
      destruct fuel as [|fuel]; [lia|]. cbn [continuation_loop].
      replace (pos + 35 <? size chunk) with false by (symmetry; apply Z.ltb_ge; lia).
      eexists [_], true. split; [reflexivity|].
      rewrite take_ge; [reflexivity|]. rewrite length_drop. unfold size in *. lia.
  - apply Z.ltb_ge in Hlt.
    replace (Z.max 0 (size chunk - pos) =? 0) with true by (symmetry; apply Z.eqb_eq; lia).
    exists [], false. rewrite app_nil_r. split; reflexivity.
Qed.

Lemma continuation_lines_fuel (text : str) : forall fuel fuel',
  (length text < fuel)%nat -> (length text < fuel')%nat ->
  continuation_lines fuel text = continuation_lines fuel' text.
Proof.
  remember (length text) as n eqn:Hn. revert text Hn.
  induction n as [n IH] using lt_wf_ind. intros text Hn fuel fuel' Hf Hf'.
  destruct fuel as [|fuel]; [lia|]. destruct fuel' as [|fuel']; [lia|].
  cbn [continuation_lines].
  destruct (size text =? 0); [reflexivity|].
  destruct (35 <=? size text) eqn:Hfull; [|reflexivity].
  apply Z.leb_le in Hfull. unfold size in Hfull. f_equal.
  apply (IH (length (drop 35 text))); rewrite ?length_drop; lia.
Qed.

(** The body of the loop over the chunks writes the layout of the chunk. *)
Lemma chunk_lines_layout (htmlOpen chunk : str) (lines : list str) :
  size htmlOpen = 50 ->
  chunk_lines htmlOpen chunk lines
  = Ok (lines ++ chunk_layout htmlOpen chunk, size chunk <=? 27).
Proof.
  intros Hopen. unfold chunk_lines, chunk_layout. rewrite Hopen.
  change (79 - 50) with 29. change (29 - 2) with 27. change (79 - size kwdOpen) with 35.
  rewrite size_substr, substr_within by lia.
  pose proof (size_nonneg chunk) as Hnn.
  change (Z.to_nat 0) with 0%nat. change (Z.to_nat 29) with 29%nat. rewrite drop_0.
  destruct (size chunk <=? 27) eqn:Hfit.
  - apply Z.leb_le in Hfit.
    replace (Z.max 0 (Z.min 29 (size chunk - 0)) <=? 27) with true
      by (symmetry; apply Z.leb_le; lia).
    rewrite take_ge by (unfold size in *; lia). reflexivity.
  - apply Z.leb_gt in Hfit.
    replace (Z.max 0 (Z.min 29 (size chunk - 0)) <=? 27) with false
      by (symmetry; apply Z.leb_gt; lia).
    destruct (continuation_loop_layout chunk (S (Z.to_nat (size chunk - 29))) 29
                (lines ++ [htmlOpen ++ take 29 chunk ++ lit "-"]))
      as (new & flag & Hrun & Hnew); [lia | lia |].
    rewrite Hrun. cbn [mbind outcome_bind].
    change (Z.to_nat 29) with 29%nat in Hnew.
    rewrite (continuation_lines_fuel _ (S (length chunk)) (S (Z.to_nat (size chunk - 29))));
      [|rewrite length_drop; lia | rewrite length_drop; unfold size; lia].
    rewrite <- Hnew. rewrite <- !app_assoc. destruct flag; reflexivity.
Qed.

Lemma chunks_loop_layout (htmlOpen : str) (Hopen : size htmlOpen = 50) :
  forall (chunks : list str) (lines : list str),
    chunks_loop htmlOpen chunks lines = Ok (lines ++ layout htmlOpen chunks).
Proof.
  induction chunks as [|chunk chunks IH]; intros lines.
  - cbn [chunks_loop layout]. rewrite app_nil_r. reflexivity.
  - cbn [chunks_loop layout]. rewrite chunk_lines_layout by exact Hopen.
    cbn [mbind outcome_bind].
    destruct (size chunk <=? 27).
    + rewrite app_nil_r. reflexivity.
    + rewrite IH, <- app_assoc. reflexivity.
Qed.

(** The renderer, for a line number of three characters: the layout of the
    chunks of the escaped text. *)
Lemma htmlObjToDdsLines_layout (obj : value) (htmlLineNum : str) :
  size htmlLineNum = 3 ->
  htmlObjToDdsLines (Some obj) htmlLineNum
  = chunks ← chunkData (escape_quotes (JSON_stringify obj)) 2500;
    Ok (layout (htmlOpen htmlLineNum) chunks).
Proof.
  intros Hn. unfold htmlObjToDdsLines.
  destruct (chunkData _ 2500) as [chunks| |]; cbn [mbind outcome_bind]; [|reflexivity..].
  rewrite chunks_loop_layout by (rewrite size_htmlOpen; lia). reflexivity.
Qed.

End RendererFacts.
End RendererFacts.

(** ** The renderer: every chunk is written as a closed tag *)

Module TagFacts.
Section TagFacts.
Context `{JsRuntime}.
Import Renderer RendererSpec RendererFacts.

Lemma tag_lines_cons (prefix t : str) (texts : list str) :
  texts <> [] ->
  tag_lines prefix (t :: texts) = (prefix ++ t ++ lit "-") :: tag_lines kwdOpen texts.
Proof. destruct texts; [contradiction | reflexivity]. Qed.

Lemma last_tag_lines (prefix : str) (texts : list str) (rest : str) :
  last (tag_lines prefix (texts ++ [rest]))
  = Some ((if bool_decide (texts = []) then prefix else kwdOpen) ++ rest ++ lit "')").
Proof.
  revert prefix. induction texts as [|t texts IH]; intros prefix; [reflexivity|].
  cbn [app]. rewrite tag_lines_cons by (destruct texts; discriminate).
  rewrite last_cons, IH.
  rewrite (bool_decide_eq_false_2 (t :: texts = [])) by discriminate.
  destruct (bool_decide (texts = [])); reflexivity.
Qed.

(** The lines behind the first one hold the text in full lines and a rest. *)
Lemma continuation_lines_texts : forall (fuel : nat) (text : str),
  (length text < fuel)%nat ->
  exists full rest,
    continuation_lines fuel text = tag_lines kwdOpen (full ++ [rest]) /\
    concat full ++ rest = text /\
    Forall (fun t => size t = 35) full /\
    size rest < 35.
Proof.
  induction fuel as [|fuel IH]; intros text Hf; [lia|].
  cbn [continuation_lines].
  destruct (size text =? 0) eqn:E0.
  - apply Z.eqb_eq in E0.
    assert (text = []) as -> by (destruct text; [reflexivity | discriminate E0]).
    exists [], []. split; [reflexivity|]. split; [reflexivity|].
    split; [constructor | reflexivity].
  - destruct (35 <=? size text) eqn:E35.
    + apply Z.leb_le in E35. unfold size in E35.
      destruct (IH (drop 35 text)) as (full & rest & Hl & Hcat & Hfull & Hrest).
      { rewrite length_drop. lia. }
      exists (take 35 text :: full), rest. cbn [app].
      rewrite tag_lines_cons by (destruct full; discriminate).
      rewrite Hl, <- app_assoc. split; [reflexivity|].
      split; [cbn [concat]; rewrite <- app_assoc, Hcat, take_drop; reflexivity|].
      split; [|exact Hrest].
      constructor; [|exact Hfull]. unfold size. rewrite length_take. lia.
    + apply Z.leb_gt in E35. exists [], text. cbn [app tag_lines].
      rewrite <- app_assoc. split; [reflexivity|]. split; [reflexivity|].
      split; [constructor | exact E35].
Qed.

Lemma chunk_layout_closed_tag (htmlOpen chunk : str) :
  closed_tag htmlOpen chunk (chunk_layout htmlOpen chunk).
Proof.
  unfold closed_tag, chunk_layout.
  destruct (size chunk <=? 27) eqn:Hfit.
  - apply Z.leb_le in Hfit. exists [chunk].
    split; [reflexivity|]. split; [apply app_nil_r|]. left. split; [reflexivity | exact Hfit].
  - apply Z.leb_gt in Hfit.
    destruct (continuation_lines_texts (S (length chunk)) (drop 29 chunk))
      as (full & rest & Hl & Hcat & Hfull & Hrest).
    { rewrite length_drop. lia. }
    exists (take 29 chunk :: full ++ [rest]).
    rewrite tag_lines_cons by (destruct full; discriminate).
    rewrite Hl. split; [reflexivity|].
    split; [cbn [concat]; rewrite concat_app; cbn [concat];
            rewrite app_nil_r, Hcat, take_drop; reflexivity|].
    right. exists (take 29 chunk), full, rest.
    split; [reflexivity|]. split; [lia|]. split; [|split; assumption].
    unfold size. rewrite length_take. lia.
Qed.

(** The closing line stands alone exactly after an exact fit. *)
Lemma chunk_layout_exact_fit (htmlOpen chunk : str) :
  size htmlOpen = 50 ->
  last (chunk_layout htmlOpen chunk) = Some (kwdOpen ++ lit "')") <-> exact_fit chunk.
Proof.
  intros Ho. unfold chunk_layout, exact_fit.
  destruct (size chunk <=? 27) eqn:Hfit.
  - apply Z.leb_le in Hfit. cbn [last]. split; [|lia].
    intros [= E]. apply (f_equal length) in E.
    rewrite !length_app in E. unfold size in Ho. cbn [length] in E.
    change (length kwdOpen) with 44%nat in E. lia.
  - apply Z.leb_gt in Hfit.
    destruct (continuation_lines_texts (S (length chunk)) (drop 29 chunk))
      as (full & rest & Hl & Hcat & Hfull & Hrest).
    { rewrite length_drop. lia. }
    rewrite Hl.
    assert (Hlast : last ((htmlOpen ++ take 29 chunk ++ lit "-") :: tag_lines kwdOpen (full ++ [rest]))
                    = Some (kwdOpen ++ rest ++ lit "')")).
    { rewrite last_cons, last_tag_lines. destruct (bool_decide (full = [])); reflexivity. }
    rewrite Hlast.
    assert (Hsize : Z.max 0 (size chunk - 29) = 35 * Z.of_nat (length full) + size rest).
    { apply (f_equal length) in Hcat. rewrite length_app, length_drop in Hcat.
      assert (Hc : length (concat full) = (35 * length full)%nat).
      { clear -Hfull. induction Hfull as [|t full Ht _ IH]; [reflexivity|].
        cbn [concat length]. rewrite length_app, IH. unfold size in Ht. lia. }
      unfold size. lia. }
    pose proof (size_nonneg rest) as Hr0.
    split.
    + intros [= E]. apply (f_equal length) in E. rewrite length_app in E.
      assert (rest = []) as -> by (destruct rest; [reflexivity | cbn [length] in E; lia]).
      change (size []) with 0 in Hsize.
      destruct (Z.eq_dec (size chunk) 28) as [H28|H28]; [left; exact H28|].
      right. split; [lia|].
      replace (size chunk - 29) with (Z.of_nat (length full) * 35) by lia.
      apply Z.mod_mul. lia.
    + intros Hex. f_equal. f_equal.
      assert (size rest = 0) as E0.
      { destruct Hex as [H28|[H29 Hmod]]; [lia|].
        rewrite Z.max_r in Hsize by lia. rewrite Hsize in Hmod.
        rewrite Z.add_comm, Z.mul_comm, Z.mod_add in Hmod by lia.
        rewrite Z.mod_small in Hmod by lia. exact Hmod. }
      destruct rest; [reflexivity | discriminate E0].
Qed.

Lemma layout_rendered (htmlOpen : str) : forall chunks : list str,
  layout htmlOpen chunks = concat (map (chunk_layout htmlOpen) (rendered chunks)).
Proof.
  induction chunks as [|chunk chunks IH]; [reflexivity|].
  cbn [layout rendered map concat]. destruct (size chunk <=? 27).
  - reflexivity.
  - rewrite IH. reflexivity.
Qed.

(** The layout, tag by tag. *)
Lemma layout_tags (P : str -> list str -> Prop) (htmlOpen : str) (chunks : list str) :
  (forall chunk, P chunk (chunk_layout htmlOpen chunk)) ->
  exists tags,
    layout htmlOpen chunks = concat tags /\ Forall2 P (rendered chunks) tags.
Proof.
  intros HP. exists (map (chunk_layout htmlOpen) (rendered chunks)).
  split; [apply layout_rendered|].
  induction (rendered chunks) as [|c cs IH]; constructor; [apply HP | exact IH].
Qed.

(** Unless the chunk has 28 characters its lines are a block for the
    scanner. *)
Lemma chunk_layout_chunk_block (n chunk : str) :
  size n = 3 -> size chunk <> 28 -> chunk_block (chunk_layout (htmlOpen n) chunk).
Proof.
  intros Hn H28.
  assert (Ho : size (htmlOpen n) = 50) by (rewrite size_htmlOpen; lia).
  destruct (chunk_lines_block (htmlOpen n) chunk [] Ho H28) as (new & stop & Hrun & _ & Hb).
  rewrite chunk_lines_layout in Hrun by exact Ho.
  injection Hrun as Hnew _. cbn [app] in Hnew. rewrite Hnew. exact Hb.
Qed.

Lemma continuation_lines_nonempty (fuel : nat) (text : str) :
  continuation_lines (S fuel) text <> [].
Proof.
  cbn [continuation_lines]. destruct (size text =? 0); [discriminate|].
  destruct (35 <=? size text); discriminate.
Qed.

(** The first line of a chunk of 28 characters has 79 characters, and
    column 80 is missing. *)
Lemma chunk_layout_28 (htmlOpen chunk : str) :
  size htmlOpen = 50 -> size chunk = 28 ->
  ~ chunk_block (chunk_layout htmlOpen chunk).
Proof.
  intros Ho H28 (init & l & E & Hcont & _).
  unfold chunk_layout in E.
  replace (size chunk <=? 27) with false in E by (symmetry; apply Z.leb_gt; lia).
  destruct init as [|first init].
  { cbn [app] in E. injection E as _ E.
    exact (continuation_lines_nonempty _ _ E). }
  cbn [app] in E. injection E as <- _.
  apply Forall_cons in Hcont as [Hc _]. unfold continues in Hc.
  rewrite substr_within in Hc by lia.
  rewrite drop_ge in Hc; [discriminate Hc|].
  rewrite !length_app, length_take. unfold size in *. cbn [length]. lia.
Qed.

End TagFacts.
End TagFacts.

Import Renderer RendererSpec RendererFacts.

(** C9: the renderer returns for every payload and every display line
    number of up to 32 characters, and the last line it returns ends with the
    closing marker, as do the lines written for each chunk. With the three
    columns the merge engine passes as line number, the lines are one closed
    tag for each chunk rendered: the tag holds the text of its chunk, every
    line but its last ends with the continuation character, its last line
    ends with the closing marker, and the last line is the blank-prefix
    closing line alone exactly after an exact fit. The tag is closed for the
    scanner as well, the continuation character being in column 80 of every
    line but the last, exactly when the chunk has not 28 characters. *)
Theorem htmlObjToDdsLines_ends_closed `{JsRuntime} `{!JsRuntimeLaws}
    (obj : value) (htmlLineNum : str) :
  size htmlLineNum <= 32 ->
  (forall chunk rtnLines,
      exists rtnLines' stop,
        chunk_lines (htmlOpen htmlLineNum) chunk rtnLines = Ok (rtnLines', stop) /\
        closed_last rtnLines') /\
  exists chunks lines,
    chunkData (escape_quotes (JSON_stringify obj)) 2500 = Ok chunks /\
    htmlObjToDdsLines (Some obj) htmlLineNum = Ok lines /\
    closed_last lines /\
    (size htmlLineNum = 3 ->
     exists tags,
       lines = concat tags /\
       Forall2 (fun chunk tag =>
                  closed_tag (htmlOpen htmlLineNum) chunk tag /\
                  (last tag = Some (kwdOpen ++ lit "')") <-> exact_fit chunk) /\
                  (chunk_block tag <-> size chunk <> 28))
               (rendered chunks) tags).
Proof.
  intros Hn. split.
  - intros chunk rtnLines. apply chunk_lines_closed. rewrite size_htmlOpen. lia.
  - destruct (chunkData_returns (escape_quotes (JSON_stringify obj)) 2500 ltac:(lia))
      as (chunks & Hrun & _).
    destruct (htmlObjToDdsLines_returns obj htmlLineNum Hn) as (lines & Hl & Hcl).
    exists chunks, lines. split; [exact Hrun|]. split; [exact Hl|]. split; [exact Hcl|].
    intros H3. rewrite htmlObjToDdsLines_layout, Hrun in Hl by exact H3.
    cbn [mbind outcome_bind] in Hl. injection Hl as <-.
    assert (Ho : size (htmlOpen htmlLineNum) = 50) by (rewrite size_htmlOpen; lia).
    apply TagFacts.layout_tags. intros chunk.
    split; [apply TagFacts.chunk_layout_closed_tag|].
    split; [apply TagFacts.chunk_layout_exact_fit; exact Ho|]. split.
    + intros Hb H28. exact (TagFacts.chunk_layout_28 _ _ Ho H28 Hb).
    + apply TagFacts.chunk_layout_chunk_block. exact H3.
Qed.

(** C9 on a payload of the sample runtime. *)
Lemma htmlObjToDdsLines_ends_closed_witness :
  size (lit "  1") <= 32 /\
  (forall chunk rtnLines,
      exists rtnLines' stop,
        chunk_lines (htmlOpen (lit "  1")) chunk rtnLines = Ok (rtnLines', stop) /\
        closed_last rtnLines') /\
  exists chunks lines,
    chunkData (escape_quotes (JSON_stringify payload1)) 2500 = Ok chunks /\
    htmlObjToDdsLines (Some payload1) (lit "  1") = Ok lines /\
    closed_last lines /\
    (size (lit "  1") = 3 ->
     exists tags,
       lines = concat tags /\
       Forall2 (fun chunk tag =>
                  closed_tag (htmlOpen (lit "  1")) chunk tag /\
                  (last tag = Some (kwdOpen ++ lit "')") <-> exact_fit chunk) /\
                  (chunk_block tag <-> size chunk <> 28))
               (rendered chunks) tags).
Proof.
  split; [unfold size; simpl; lia|].
  apply (htmlObjToDdsLines_ends_closed payload1 (lit "  1")).
  unfold size; simpl; lia.
Defined.

(** C10 at the failing input: the merge engine renders, for the payload
    region of RECFMT1, a payload of the model whose escaped text has 2528
    characters. The chunker cuts it into 2500 and 28 characters. The chunk of
    28 characters takes the continuation branch: its first line has the text
    and the continuation character in column 79, and no column 80, although
    the closing line follows it. Read back, the scanner takes that line for the
    end of the tag and finds no payload in the document. *)
Theorem htmlObjToDdsLines_short_first_line :
  let payload :=
    VObj [ (lit "screen", VObj [(lit "record format name", VStr (lit "RECFMT1"))]);
           (lit "items", VArr []);
           (lit "pad", VStr (replicate 2465 "a"%char)) ] in
  let first :=
    Sample.json "     A                                  1  2HTML('aaaaaaaaaaaaaaaaaaaaaaaaaa`}-" in
  let closing := kwdOpen ++ lit "')" in
  (exists chunk1 chunk2,
      chunkData (escape_quotes (JSON_stringify payload)) 2500 = Ok [chunk1; chunk2] /\
      size chunk1 = 2500 /\ size chunk2 = 28) /\
  (exists lines,
      htmlObjToDdsLines (Some payload) (lit "  1") = Ok lines /\
      drop 72 lines = [first; closing]) /\
  size first = 79 /\
  substr first 78 1 = lit "-" /\
  substr first 79 1 = [] /\
  exists out,
    Merge.conversionV1 [payload] [header1; tag1; tag2; field1] = Ok out /\
    drop 73 out = [first; closing; field1] /\
    Scanner.getFormatsFromSrc out = Ok [].
Proof.
  intros payload first closing.
  split; [eexists _, _; split; [vm_compute; reflexivity | split; reflexivity]|].
  split; [eexists; split; [vm_compute; reflexivity | vm_compute; reflexivity]|].
  split; [reflexivity|]. split; [reflexivity|]. split; [reflexivity|].
  eexists. split; [vm_compute; reflexivity|].
  split; vm_compute; reflexivity.
Qed.

(** ** Reading a source file: the prefix of a line *)

Module SourceFacts.
Import Source SourceSpec.

Lemma has_prefix_nonempty (l : str) : has_prefix l = true -> l <> [].
Proof. intros Hp ->. discriminate Hp. Qed.

Lemma substr_from_12_fixed (l : str) : substr_from l 12 = l -> l = [].
Proof.
  rewrite substr_from_drop by lia. intros Hd.
  apply (f_equal length) in Hd. rewrite length_drop in Hd.
  destruct l as [|c l]; [reflexivity|]. simpl in Hd. lia.
Qed.

Lemma strip_line_prefix (l : str) :
  strip_line l = if has_prefix l then substr_from l 12 else l.
Proof. unfold strip_line, has_prefix. destruct (parseInt_isNaN _); reflexivity. Qed.

End SourceFacts.

Import Source SourceSpec SourceFacts.

(** ** The tag scanner: the claims *)

Module ScannerFacts.
Section ScannerFacts.
Context `{JsRuntime}.
Import Scanner ScannerSpec.

Lemma scan_lines_app (a b : list str) : forall st,
  scan_lines st (a ++ b) = st' ← scan_lines st a; scan_lines st' b.
Proof.
  induction a as [|l a IH]; intros st; [reflexivity|].
  cbn [app scan_lines]. destruct (scan_line st l) as [st'| |]; cbn [mbind outcome_bind];
    [apply IH | reflexivity | reflexivity].
Qed.

Lemma open_tag_cleared (st st' : scan_state) (line : str) :
  htmlTag st = [] -> open_tag st line = Ok st' -> buffer_cleared st'.
Proof.
  unfold open_tag, buffer_cleared. intros Hst Hrun.
  destruct (str_eqb (substr line 44 7) _).
  - destruct (negb _).
    + destruct (addToFormats _ _); cbn [mbind outcome_bind] in Hrun; [|discriminate..].
      injection Hrun as <-. intros _. exact Hst.
    + injection Hrun as <-. discriminate.
  - injection Hrun as <-. intros _. exact Hst.
Qed.

Lemma scan_line_cleared (st st' : scan_state) (line : str) :
  buffer_cleared st -> scan_line st line = Ok st' -> buffer_cleared st'.
Proof.
  unfold scan_line. intros Hst Hrun.
  destruct (isHtmlJsonTag st) eqn:Hacc.
  - destruct (negb _).
    + destruct (addToFormats _ _).
      * eapply open_tag_cleared; [|exact Hrun]. reflexivity.
      * injection Hrun as <-. discriminate.
      * injection Hrun as <-. discriminate.
    + injection Hrun as <-. discriminate.
  - eapply open_tag_cleared; [|exact Hrun]. apply Hst. exact Hacc.
Qed.

Lemma scan_lines_cleared (lines : list str) : forall st st',
  buffer_cleared st -> scan_lines st lines = Ok st' -> buffer_cleared st'.
Proof.
  induction lines as [|l lines IH]; intros st st' Hst Hrun.
  - injection Hrun as <-. exact Hst.
  - cbn [scan_lines] in Hrun.
    destruct (scan_line st l) as [st1| |] eqn:E; cbn [mbind outcome_bind] in Hrun;
      [|discriminate..].
    eapply IH; [|exact Hrun]. eapply scan_line_cleared; eassumption.
Qed.

(** While the accumulated text never parses, the scan stays in the payload
    and leaves the formats as they are. *)
Lemma scan_lines_never_parses (rest : list str) : forall tag fs,
  never_parses tag rest ->
  exists tag',
    scan_lines {| isHtmlJsonTag := true; htmlTag := tag; formats := fs |} rest
    = Ok {| isHtmlJsonTag := true; htmlTag := tag'; formats := fs |}.
Proof.
  induction rest as [|line rest IH]; intros tag fs Hnp.
  - exists tag. reflexivity.
  - cbn [scan_lines]. unfold scan_line. cbn [isHtmlJsonTag htmlTag formats].
    fold (strPos line).
    inversion Hnp as [|? ? ? Hcont Hrest|? ? ? Hclose Hfail Hrest]; subst.
    + rewrite Hcont. replace (str_eqb (lit "-") (lit "-")) with true by reflexivity.
      cbn [negb mbind outcome_bind]. apply IH. exact Hrest.
    + apply str_eqb_neq in Hclose. rewrite Hclose. cbn [negb].
      unfold addToFormats. rewrite Hfail. cbn [mbind outcome_bind].
      apply IH. exact Hrest.
Qed.

End ScannerFacts.
End ScannerFacts.

Import Scanner ScannerSpec ScannerFacts.

(** C3, as stated, fails: the payload of the last line opens and closes on
    the line and its text [{oops}] does not parse; the scan ends with the
    [SyntaxError] and returns no payload, not even that of RECFMT1. *)
Lemma scan_rejects_single_line_payload :
  Scanner.getFormatsFromSrc
    [ lit "     A          R RECFMT1";
      Sample.json "     A                                  1  2HTML('{`screen`:{`record format nam-";
      Sample.json "     A                                      e`:`RECFMT1`},`items`:[]}')";
      lit "     A          R RECFMT2";
      lit "     A                                  1  2HTML('{oops}')" ]
  = Throw SyntaxError.
Proof. vm_compute. reflexivity. Qed.

(** C3, amended: a payload tag that is opened on a line that continues and
    whose accumulated text never parses up to the end of the document is
    dropped silently, with all the lines behind it: the scan returns the
    payloads completed before the tag. A payload tag that opens and closes on
    one line and whose text does not parse makes the scan fail with the
    [SyntaxError]. *)
Theorem scan_unparsed_region `{JsRuntime} (before : list str) (st : scan_state)
    (line : str) (rest : list str) :
  scan_lines scan_start before = Ok st ->
  isHtmlJsonTag st = false ->
  substr line 44 7 = lit "HTML('{" ->
  (substr line 79 1 = lit "-" ->
   never_parses (substring line 50 79) rest ->
   getFormatsFromSrc (before ++ line :: rest) = Ok (formats st)) /\
  (substr line 79 1 <> lit "-" ->
   JSON_parse (unescape_quotes (substring line 50 (lastIndexOf line (lit "')")))) = None ->
   getFormatsFromSrc (before ++ line :: rest) = Throw SyntaxError).
Proof.
  intros Hbefore Hout Hopen.
  assert (Htag : htmlTag st = []).
  { apply (scan_lines_cleared before scan_start st); [intros _; reflexivity | exact Hbefore | exact Hout]. }
  unfold getFormatsFromSrc. rewrite scan_lines_app, Hbefore.
  cbn [mbind outcome_bind scan_lines]. unfold scan_line. rewrite Hout.
  unfold open_tag. rewrite Hopen.
  replace (str_eqb (lit "HTML('{") (lit "HTML('{")) with true by reflexivity.
  rewrite Htag. cbn [app].
  split.
  - intros Hcont Hnp. rewrite Hcont.
    replace (str_eqb (lit "-") (lit "-")) with true by reflexivity.
    cbn [negb mbind outcome_bind].
    destruct (scan_lines_never_parses rest (substring line 50 79) (formats st) Hnp)
      as (tag' & ->).
    reflexivity.
  - intros Hclose Hfail. apply str_eqb_neq in Hclose. rewrite Hclose. cbn [negb].
    unfold addToFormats. rewrite Hfail. reflexivity.
Qed.

(** C3 on a document of the sample runtime: the payload of RECFMT2 is cut
    off after its first line, and the payload of RECFMT1 is returned. *)
Lemma scan_unparsed_region_witness :
  let before :=
    [ lit "     A          R RECFMT1";
      Sample.json "     A                                  1  2HTML('{`screen`:{`record format nam-";
      Sample.json "     A                                      e`:`RECFMT1`},`items`:[]}')";
      lit "     A          R RECFMT2" ] in
  let line :=
    Sample.json "     A                                  1  2HTML('{`screen`:{`record format nam-" in
  let rest := [ lit "     A            FLD1          10A  H" ] in
  getFormatsFromSrc (before ++ line :: rest)
  = Ok [ VObj [ (lit "screen", VObj [(lit "record format name", VStr (lit "RECFMT1"))]);
                (lit "items", VArr []) ] ].
Proof.
  intros before line rest.
  refine (proj1 (scan_unparsed_region before
            {| isHtmlJsonTag := false; htmlTag := [];
               formats := [ VObj [ (lit "screen", VObj [(lit "record format name", VStr (lit "RECFMT1"))]);
                                   (lit "items", VArr []) ] ] |}
            line rest _ _ _) _ _).
  - vm_compute. reflexivity.
  - reflexivity.
  - vm_compute. reflexivity.
  - vm_compute. reflexivity.
  - apply never_failed.
    + vm_compute. discriminate.
    + vm_compute. reflexivity.
    + apply never_at_end.
Defined.


(** ** The raw-text assembler: the claims *)

Module AssemblerFacts.
Section AssemblerFacts.
Context `{JsRuntime}.
Import Assembler AssemblerSpec.
















End AssemblerFacts.
End AssemblerFacts.

Import Assembler AssemblerSpec AssemblerFacts.



(** ** The merge engine: regions *)

Module MergeFacts.
Section MergeFacts.
Context `{JsRuntime} `{!JsRuntimeLaws}.
Import Merge MergeSpec.

Lemma region_loop_step (fuel : nat) (formats : list value) (rcdFmt : option str)
    (origSrcLine : str) (lines : list str) (j : nat) (out : list str) (cur : str) :
  lines !! j = Some cur ->
  region_loop (S fuel) formats rcdFmt origSrcLine lines j out
  = b ← region_end_at lines j;
    if (b : bool) then rendered ← render_region formats rcdFmt origSrcLine;
                       Ok (j, out ++ rendered)
    else region_loop fuel formats rcdFmt origSrcLine lines (S j) out.
Proof.
  intros Hcur. cbn [region_loop]. unfold region_end_at. rewrite Hcur.
  destruct (str_eqb (substr cur 5 2) (lit "A ") && negb (str_eqb (substr cur 79 1) (lit "-")));
    [|reflexivity].
  case_bool_decide; [reflexivity|].
  destruct (line_at lines (Z.of_nat j + 1) (lit "substr")) as [next| |];
    cbn [mbind outcome_bind]; [|reflexivity..].
  destruct (negb (str_eqb (substr next 44 6) htmlOpen)); [|reflexivity].
  destruct (line_at lines (Z.of_nat j - 1) (lit "substring")) as [prev| |];
    cbn [mbind outcome_bind]; [|reflexivity..].
  destruct (negb _); reflexivity.
Qed.

Lemma region_end_at_inside (lines : list str) (j : nat) :
  region_end_at lines j = Ok true -> (j < length lines)%nat.
Proof.
  unfold region_end_at. destruct (lines !! j) eqn:E; [|discriminate].
  intros _. apply lookup_lt_Some in E. exact E.
Qed.

Lemma region_loop_found (formats : list value) (rcdFmt : option str) (origSrcLine : str)
    (lines : list str) (j : nat) (out : list str) :
  forall (fuel i : nat),
    region_end lines i j ->
    (j - i < fuel)%nat ->
    region_loop fuel formats rcdFmt origSrcLine lines i out
    = rendered ← render_region formats rcdFmt origSrcLine; Ok (j, out ++ rendered).
Proof.
  induction fuel as [|fuel IH]; intros i (Hij & Hj & Hbefore) Hf; [lia|].
  pose proof (region_end_at_inside lines j Hj) as Hin.
  destruct (lookup_lt_is_Some_2 lines i ltac:(lia)) as [cur Hcur].
  rewrite (region_loop_step _ _ _ _ _ _ _ cur Hcur).
  destruct (decide (i = j)) as [->|Hne].
  - rewrite Hj. reflexivity.
  - rewrite (Hbefore i) by lia. cbn [mbind outcome_bind].
    apply IH; [|lia]. split; [lia|]. split; [exact Hj|].
    intros k Hk. apply Hbefore. lia.
Qed.

Lemma region_loop_open_ended (formats : list value) (rcdFmt : option str)
    (origSrcLine : str) (lines : list str) (out : list str) :
  forall (fuel i : nat),
    no_region_end lines i ->
    (length lines - i < fuel)%nat ->
    exists j, (length lines <= j)%nat /\
      region_loop fuel formats rcdFmt origSrcLine lines i out = Ok (j, out).
Proof.
  induction fuel as [|fuel IH]; intros i Hnone Hf; [lia|].
  destruct (lines !! i) as [cur|] eqn:Hcur.
  - rewrite (region_loop_step _ _ _ _ _ _ _ cur Hcur).
    rewrite (Hnone i) by lia. cbn [mbind outcome_bind].
    apply lookup_lt_Some in Hcur.
    apply IH; [|lia]. intros k Hk. apply Hnone. lia.
  - cbn [region_loop]. rewrite Hcur. exists i. split; [|reflexivity].
    apply lookup_ge_None in Hcur. exact Hcur.
Qed.

(** The outer loop, one line on. *)
Lemma lines_loop_header (fuel : nat) (formats : list value) (lines : list str)
    (i : nat) (rcdFmt : option str) (out : list str) (l : str) :
  lines !! i = Some l -> is_header l = true ->
  lines_loop (S fuel) formats lines i rcdFmt out
  = lines_loop fuel formats lines (S i) (Some (header_name l)) (out ++ [l]).
Proof.
  intros Hl Hh. cbn [lines_loop]. rewrite Hl. unfold is_header in Hh. rewrite Hh. reflexivity.
Qed.

Lemma lines_loop_copy (fuel : nat) (formats : list value) (lines : list str)
    (i : nat) (rcdFmt : option str) (out : list str) (l : str) :
  lines !! i = Some l -> is_header l = false -> opens_payload l = false ->
  lines_loop (S fuel) formats lines i rcdFmt out
  = lines_loop fuel formats lines (S i) rcdFmt (out ++ [l]).
Proof.
  intros Hl Hh Ho. cbn [lines_loop]. rewrite Hl.
  unfold is_header in Hh. rewrite Hh. unfold opens_payload in Ho. rewrite Ho. reflexivity.
Qed.

Lemma lines_loop_region (fuel : nat) (formats : list value) (lines : list str)
    (i j : nat) (rcdFmt : option str) (out : list str) (l : str) :
  lines !! i = Some l -> is_header l = false -> opens_payload l = true ->
  region_end lines i j ->
  lines_loop (S fuel) formats lines i rcdFmt out
  = rendered ← render_region formats rcdFmt l;
    lines_loop fuel formats lines (S j) rcdFmt (out ++ rendered).
Proof.
  intros Hl Hh Ho Hend. cbn [lines_loop]. rewrite Hl.
  unfold is_header in Hh. rewrite Hh. unfold opens_payload in Ho. rewrite Ho.
  rewrite (region_loop_found formats rcdFmt l lines j out _ i Hend).
  - destruct (render_region formats rcdFmt l); reflexivity.
  - destruct Hend as (_ & Hj & _). apply region_end_at_inside in Hj. lia.
Qed.

Lemma lines_loop_past_end (fuel : nat) (formats : list value) (lines : list str)
    (i : nat) (rcdFmt : option str) (out : list str) :
  (length lines <= i)%nat ->
  lines_loop (S fuel) formats lines i rcdFmt out = Ok out.
Proof.
  intros Hi. cbn [lines_loop]. rewrite (proj2 (lookup_ge_None lines i) Hi). reflexivity.
Qed.

(** The engine writes the document that [Merged] describes. *)
Lemma lines_loop_Merged (formats : list value) (lines : list str) :
  forall i rcdFmt out', Merged formats lines i rcdFmt out' ->
  forall fuel out, (length lines - i < fuel)%nat ->
    lines_loop fuel formats lines i rcdFmt out = Ok (out ++ out').
Proof.
  induction 1 as [i rcdFmt Hi
                 |i rcdFmt l out' Hl Hh _ IH
                 |i rcdFmt l out' Hl Hh Ho _ IH
                 |i j rcdFmt l rendered out' Hl Hh Ho Hend Hrender _ IH
                 |i rcdFmt l Hl Hh Ho Hnone];
    intros fuel out Hf; (destruct fuel as [|fuel]; [lia|]).
  - rewrite lines_loop_past_end by exact Hi. rewrite app_nil_r. reflexivity.
  - pose proof (lookup_lt_Some _ _ _ Hl).
    rewrite (lines_loop_header _ _ _ _ _ _ l Hl Hh), IH by lia.
    rewrite <- app_assoc. reflexivity.
  - pose proof (lookup_lt_Some _ _ _ Hl).
    rewrite (lines_loop_copy _ _ _ _ _ _ l Hl Hh Ho), IH by lia.
    rewrite <- app_assoc. reflexivity.
  - pose proof (lookup_lt_Some _ _ _ Hl).
    rewrite (lines_loop_region _ _ _ _ j _ _ l Hl Hh Ho Hend), Hrender.
    cbn [mbind outcome_bind]. destruct Hend as (Hij & _).
    rewrite IH by lia. rewrite <- app_assoc. reflexivity.
  - pose proof (lookup_lt_Some _ _ _ Hl).
    cbn [lines_loop]. rewrite Hl.
    unfold is_header in Hh. rewrite Hh. unfold opens_payload in Ho. rewrite Ho.
    destruct (region_loop_open_ended formats rcdFmt l lines out
                (S (length lines - i)) i Hnone ltac:(lia)) as (j & Hj & ->).
    cbn [mbind outcome_bind].
    destruct fuel as [|fuel]; [lia|].
    rewrite lines_loop_past_end by lia. rewrite app_nil_r. reflexivity.
Qed.

Lemma names_format_outcome (rcdFmt : option str) (x : value) :
  (exists b, names_format rcdFmt x = Ok b) \/
  (exists what, what ∈ failure_labels /\ names_format rcdFmt x = Throw (TypeError what)).
Proof.
  assert (Hscreen : lit "screen" ∈ failure_labels) by (apply list_elem_of_In; simpl; tauto).
  assert (Hname : lit "record format name" ∈ failure_labels)
    by (apply list_elem_of_In; simpl; tauto).
  assert (Hupper : lit "toUpperCase" ∈ failure_labels)
    by (apply list_elem_of_In; simpl; tauto).
  unfold names_format.
  destruct x as [| | | | |props]; cbn [prop mbind outcome_bind]; eauto.
  destruct (assoc (lit "screen") props) as [[| | | | |sprops]|];
    cbn [prop mbind outcome_bind call_toUpperCase]; eauto.
  destruct (assoc (lit "record format name") sprops) as [[| | |s| |]|];
    cbn [call_toUpperCase mbind outcome_bind]; eauto.
Qed.

Lemma filter_formats_outcome (rcdFmt : option str) (formats : list value) :
  (exists found, filter_formats rcdFmt formats = Ok found) \/
  (exists what, what ∈ failure_labels /\
                filter_formats rcdFmt formats = Throw (TypeError what)).
Proof.
  induction formats as [|x formats IH]; [left; exists []; reflexivity|].
  cbn [filter_formats].
  destruct (names_format_outcome rcdFmt x) as [[b ->]|(what & Hw & ->)];
    cbn [mbind outcome_bind]; [|right; eauto].
  destruct IH as [[found ->]|(what & Hw & ->)]; cbn [mbind outcome_bind]; eauto.
Qed.

Lemma filter_formats_no_payload (rcdFmt : option str) (formats : list value) :
  no_payload_for rcdFmt formats ->
  filter_formats rcdFmt formats = Ok [] \/
  (exists what, what ∈ failure_labels /\
                filter_formats rcdFmt formats = Throw (TypeError what)).
Proof.
  induction formats as [|x formats IH]; intros Hno; [left; reflexivity|].
  cbn [filter_formats].
  destruct (names_format_outcome rcdFmt x) as [[b Hb]|(what & Hw & ->)];
    cbn [mbind outcome_bind]; [|right; eauto].
  rewrite Hb. cbn [mbind outcome_bind].
  destruct b; [destruct (Hno x ltac:(left) Hb)|].
  destruct IH as [->|(what & Hw & ->)]; cbn [mbind outcome_bind]; eauto.
  intros y Hy. apply Hno. right. exact Hy.
Qed.

(** *** The renderer's regions are found again *)

Lemma substring_within (l : str) (a b : Z) :
  0 <= a <= b ->
  substring l a b = take (Z.to_nat (b - a)) (drop (Z.to_nat a) l).
Proof.
  intros Hab. unfold substring. pose proof (size_nonneg l) as Hl.
  rewrite (Z.max_l a 0), (Z.max_l b 0) by lia.
  destruct (Z.le_gt_cases a (size l)) as [Ha|Ha].
  - rewrite (Z.min_l a (size l)) by lia.
    replace (Z.min a (Z.min b (size l))) with a by lia.
    replace (Z.max a (Z.min b (size l))) with (Z.min b (size l)) by lia.
    destruct (Z.le_gt_cases b (size l)) as [Hb|Hb].
    + rewrite Z.min_l by lia. reflexivity.
    + rewrite Z.min_r by lia. unfold size in *.
      rewrite !take_ge; [reflexivity | rewrite length_drop; lia | rewrite length_drop; lia].
  - rewrite (Z.min_r a (size l)), (Z.min_r b (size l)) by lia.
    rewrite Z.max_id, Z.min_id. unfold size in *.
    rewrite !drop_ge by lia. rewrite !take_nil. reflexivity.
Qed.

Lemma starts_with_app (pat b : str) : starts_with pat (pat ++ b) = true.
Proof.
  induction pat as [|p pat IH]; [reflexivity|].
  cbn [app starts_with]. rewrite bool_decide_eq_true_2 by reflexivity. exact IH.
Qed.

Lemma lastIndexOf_from_found (pat : str) : forall (s : str) (i : Z),
  0 <= i -> (exists a b, s = a ++ pat ++ b) -> 0 <= lastIndexOf_from s pat i.
Proof.
  induction s as [|c s IH]; intros i Hi (a & b & Heq).
  - destruct a; [|discriminate]. destruct pat; [|discriminate]. exact Hi.
  - cbn [lastIndexOf_from].
    destruct (0 <=? lastIndexOf_from s pat (i + 1)) eqn:Hr; [apply Z.leb_le; exact Hr|].
    destruct a as [|c' a].
    + cbn [app] in Heq. rewrite Heq, starts_with_app. exact Hi.
    + injection Heq as _ Heq. apply Z.leb_gt in Hr.
      pose proof (IH (i + 1) ltac:(lia) (ex_intro _ a (ex_intro _ b Heq))). lia.
Qed.

Lemma closing_text_found (prev cur a b : str) :
  substring prev 44 79 ++ substring cur 44 80 = a ++ lit "}')" ++ b ->
  closing_text prev cur.
Proof.
  intros Heq. unfold closing_text, lastIndexOf. rewrite Heq.
  pose proof (lastIndexOf_from_found (lit "}')") (a ++ lit "}')" ++ b) 0 ltac:(lia)
                (ex_intro _ a (ex_intro _ b eq_refl))). lia.
Qed.

Lemma region_end_at_continues (lines : list str) (k : nat) (cur : str) :
  lines !! k = Some cur -> RendererSpec.continues cur -> region_end_at lines k = Ok false.
Proof.
  intros Hcur Hc. unfold region_end_at. rewrite Hcur. unfold RendererSpec.continues in Hc.
  rewrite Hc. replace (str_eqb (lit "-") (lit "-")) with true by reflexivity.
  rewrite andb_false_r. reflexivity.
Qed.

Lemma line_at_lookup (lines : list str) (k : nat) (l method : str) :
  lines !! k = Some l -> line_at lines (Z.of_nat k) method = Ok l.
Proof.
  intros Hl. unfold line_at.
  destruct (Z.of_nat k <? 0) eqn:E; [apply Z.ltb_lt in E; lia|].
  rewrite Nat2Z.id, Hl. reflexivity.
Qed.

Lemma region_end_at_next_tag (lines : list str) (k : nat) (cur next : str) :
  lines !! k = Some cur -> lines !! S k = Some next -> starts_tag next ->
  region_end_at lines k = Ok false.
Proof.
  intros Hcur Hnext Ht. unfold region_end_at. rewrite Hcur.
  destruct (_ && _); [|reflexivity].
  pose proof (lookup_lt_Some _ _ _ Hnext) as Hlt.
  rewrite bool_decide_eq_false_2 by (unfold size_lines; lia).
  replace (Z.of_nat k + 1) with (Z.of_nat (S k)) by lia.
  rewrite (line_at_lookup _ _ next) by exact Hnext. cbn [mbind outcome_bind].
  unfold starts_tag in Ht. rewrite Ht.
  replace (str_eqb htmlOpen htmlOpen) with true by reflexivity. reflexivity.
Qed.

Lemma region_end_at_last (lines : list str) (k : nat) (cur : str) :
  lines !! k = Some cur -> tagged cur -> ~ RendererSpec.continues cur ->
  S k = length lines ->
  region_end_at lines k = Ok true.
Proof.
  intros Hcur Ht Hc Hk. unfold region_end_at. rewrite Hcur.
  unfold tagged in Ht. rewrite Ht.
  replace (str_eqb (lit "A ") (lit "A ")) with true by reflexivity.
  apply str_eqb_neq in Hc. rewrite Hc. cbn [negb andb].
  rewrite bool_decide_eq_true_2 by (unfold size_lines; lia). reflexivity.
Qed.

Lemma region_end_at_text (lines : list str) (k : nat) (prev cur next : str) :
  lines !! k = Some prev -> lines !! S k = Some cur -> lines !! S (S k) = Some next ->
  tagged cur -> ~ RendererSpec.continues cur -> ~ starts_tag next ->
  closing_text prev cur ->
  region_end_at lines (S k) = Ok true.
Proof.
  intros Hprev Hcur Hnext Ht Hc Hn Htext. unfold region_end_at. rewrite Hcur.
  unfold tagged in Ht. rewrite Ht.
  replace (str_eqb (lit "A ") (lit "A ")) with true by reflexivity.
  apply str_eqb_neq in Hc. rewrite Hc. cbn [negb andb].
  pose proof (lookup_lt_Some _ _ _ Hnext) as Hlt.
  rewrite bool_decide_eq_false_2 by (unfold size_lines; lia).
  replace (Z.of_nat (S k) + 1) with (Z.of_nat (S (S k))) by lia.
  rewrite (line_at_lookup _ _ next) by exact Hnext. cbn [mbind outcome_bind].
  apply str_eqb_neq in Hn. rewrite Hn. cbn [negb].
  replace (Z.of_nat (S k) - 1) with (Z.of_nat k) by lia.
  rewrite (line_at_lookup _ _ prev) by exact Hprev. cbn [mbind outcome_bind].
  unfold closing_text in Htext. apply Z.eqb_neq in Htext. rewrite Htext. reflexivity.
Qed.

(** The search that starts behind [prev] ends at the last line of a tail. *)
Lemma tail_shape_region_end (prev : str) (tail : list str) :
  tail_shape prev tail ->
  forall (pre post : list str), next_ok post ->
    (forall k, (S (length pre) <= k < length pre + length tail)%nat ->
               region_end_at (pre ++ prev :: tail ++ post) k = Ok false) /\
    region_end_at (pre ++ prev :: tail ++ post) (length pre + length tail) = Ok true.
Proof.
  induction 1 as [prev cur Ht Hc Htext|prev l next rest Hskip _ IH]; intros pre post Hpost.
  - cbn [length]. split; [intros k Hk; lia|].
    replace (length pre + 1)%nat with (S (length pre)) by lia.
    assert (Hprev : (pre ++ prev :: [cur] ++ post) !! length pre = Some prev)
      by (rewrite lookup_app_r, Nat.sub_diag by lia; reflexivity).
    assert (Hcur : (pre ++ prev :: [cur] ++ post) !! S (length pre) = Some cur).
    { rewrite lookup_app_r by lia.
      replace (S (length pre) - length pre)%nat with 1%nat by lia. reflexivity. }
    destruct post as [|next post].
    + apply (region_end_at_last _ _ cur Hcur Ht Hc).
      rewrite length_app. cbn [length app]. lia.
    + apply (region_end_at_text _ _ prev cur next Hprev Hcur); try assumption.
      rewrite lookup_app_r by lia.
      replace (S (S (length pre)) - length pre)%nat with 2%nat by lia. reflexivity.
  - specialize (IH (pre ++ [prev]) post Hpost).
    rewrite <- app_assoc in IH. cbn [app] in IH.
    rewrite length_app in IH. cbn [length] in IH.
    destruct IH as [IHfalse IHtrue]. cbn [length].
    split.
    + intros k Hk. destruct (decide (k = S (length pre))) as [->|Hne].
      * assert (Hl : (pre ++ prev :: (l :: next :: rest) ++ post) !! S (length pre) = Some l).
        { rewrite lookup_app_r by lia.
          replace (S (length pre) - length pre)%nat with 1%nat by lia. reflexivity. }
        destruct Hskip as [Hcont|Htag].
        -- apply (region_end_at_continues _ _ l Hl Hcont).
        -- apply (region_end_at_next_tag _ _ l next Hl); [|exact Htag].
           rewrite lookup_app_r by lia.
           replace (S (S (length pre)) - length pre)%nat with 2%nat by lia. reflexivity.
      * apply IHfalse. lia.
    + replace (length pre + S (S (length rest)))%nat
        with (length pre + 1 + S (length rest))%nat by lia.
      exact IHtrue.
Qed.

Lemma three_chars (n : str) : size n = 3 -> exists a b c, n = [a; b; c].
Proof.
  unfold size. destruct n as [|a [|b [|c [|d n]]]]; cbn [length]; intros Hn; try lia.
  eauto.
Qed.

Lemma tagged_kwdOpen (x : str) : tagged (Renderer.kwdOpen ++ x).
Proof. unfold tagged. rewrite RendererFacts.substr_within by lia. reflexivity. Qed.

Lemma tagged_htmlOpen (n x : str) : tagged (Renderer.htmlOpen n ++ x).
Proof. unfold tagged. rewrite RendererFacts.substr_within by lia. reflexivity. Qed.

Lemma not_header_htmlOpen (n x : str) : is_header (Renderer.htmlOpen n ++ x) = false.
Proof. unfold is_header. rewrite RendererFacts.substr_within by lia. reflexivity. Qed.

Lemma starts_tag_htmlOpen (n x : str) : size n = 3 -> starts_tag (Renderer.htmlOpen n ++ x).
Proof.
  intros Hn. destruct (three_chars n Hn) as (a & b & c & ->).
  unfold starts_tag. rewrite RendererFacts.substr_within by lia. reflexivity.
Qed.

Lemma opens_payload_htmlOpen (n x : str) :
  size n = 3 -> opens_payload (Renderer.htmlOpen n ++ "{"%char :: x) = true.
Proof.
  intros Hn. destruct (three_chars n Hn) as (a & b & c & ->).
  unfold opens_payload. rewrite !RendererFacts.substr_within by lia. reflexivity.
Qed.

Lemma line_number_htmlOpen (n x : str) :
  size n = 3 -> substr (Renderer.htmlOpen n ++ x) 38 3 = n.
Proof.
  intros Hn. destruct (three_chars n Hn) as (a & b & c & ->).
  rewrite RendererFacts.substr_within by lia. reflexivity.
Qed.

Lemma text_kwdOpen (x : str) (b : Z) :
  44 <= b -> substring (Renderer.kwdOpen ++ x) 44 b = take (Z.to_nat (b - 44)) x.
Proof. intros Hb. rewrite substring_within by lia. reflexivity. Qed.

Lemma text_htmlOpen (n x : str) (b : Z) :
  size n = 3 -> 44 <= b ->
  substring (Renderer.htmlOpen n ++ x) 44 b = take (Z.to_nat (b - 44)) (htmlOpen ++ x).
Proof.
  intros Hn Hb. destruct (three_chars n Hn) as (a & c & d & ->).
  rewrite substring_within by lia. reflexivity.
Qed.

Lemma continuation_lines_cons (fuel : nat) (text : str) :
  exists next rest, continuation_lines (S fuel) text = next :: rest.
Proof.
  cbn [continuation_lines]. destruct (size text =? 0); [eauto|].
  destruct (35 <=? size text); eauto.
Qed.

Lemma drop_ends (k : nat) (y x : str) :
  drop k (y ++ x) <> [] -> x <> [] -> (length x = 1)%nat ->
  exists y', drop k (y ++ x) = y' ++ x.
Proof.
  intros Hne Hx Hlen.
  destruct (Nat.le_gt_cases k (length y)) as [Hle|Hgt].
  - exists (drop k y). rewrite drop_app_le by exact Hle. reflexivity.
  - exfalso. apply Hne. apply drop_ge. rewrite length_app. lia.
Qed.

(** The continuation lines of a text that ends with a closing brace run to
    the end of a region; so do they for no text behind a line that holds the
    brace. *)
Lemma continuation_lines_tail : forall (fuel : nat) (text prev : str),
  (length text < fuel)%nat ->
  (text = [] -> exists y, substring prev 44 79 = y ++ lit "}") ->
  (text <> [] -> exists y, text = y ++ lit "}") ->
  tail_shape prev (continuation_lines fuel text).
Proof.
  induction fuel as [|fuel IH]; intros text prev Hf Hempty Hfull; [lia|].
  cbn [continuation_lines].
  destruct (size text =? 0) eqn:Hz.
  - apply Z.eqb_eq in Hz.
    assert (text = []) as -> by (destruct text; [reflexivity | unfold size in Hz; simpl in Hz; lia]).
    destruct (Hempty eq_refl) as (y & Hy).
    apply tail_end.
    + apply tagged_kwdOpen.
    + apply RendererFacts.closed_not_continues. rewrite RendererFacts.size_kwdOpen. lia.
    + apply (closing_text_found _ _ y []). rewrite Hy, text_kwdOpen by lia.
      rewrite <- app_assoc. reflexivity.
  - apply Z.eqb_neq in Hz.
    assert (Hne : text <> []) by (intros ->; apply Hz; reflexivity).
    destruct (Hfull Hne) as (y & Hy).
    destruct (35 <=? size text) eqn:Hlong.
    + apply Z.leb_le in Hlong. unfold size in Hlong.
      destruct fuel as [|fuel]; [lia|].
      destruct (continuation_lines_cons fuel (drop 35 text)) as (next & rest & Hcons).
      rewrite Hcons. apply tail_skip.
      * left. apply RendererFacts.continues_dash.
        rewrite size_app, RendererFacts.size_kwdOpen. unfold size. rewrite length_take. lia.
      * rewrite <- Hcons. apply IH.
        -- rewrite length_drop. lia.
        -- intros Hd. rewrite <- app_assoc, text_kwdOpen by lia.
           change (Z.to_nat (79 - 44)) with 35%nat.
           assert (Hlen : length text = 35%nat).
           { apply (f_equal length) in Hd. rewrite length_drop in Hd. simpl in Hd. lia. }
           exists y. rewrite take_app_le by (rewrite length_take; lia).
           rewrite take_take, Nat.min_id, take_ge by lia. exact Hy.
        -- intros Hd. rewrite Hy in Hd |- *. apply drop_ends; [exact Hd | discriminate | reflexivity].
    + apply Z.leb_gt in Hlong. unfold size in Hlong.
      apply tail_end.
      * rewrite <- app_assoc. apply tagged_kwdOpen.
      * apply RendererFacts.closed_not_continues.
        rewrite size_app, RendererFacts.size_kwdOpen. unfold size. lia.
      * apply (closing_text_found _ _ (substring prev 44 79 ++ y) []).
        rewrite <- (app_assoc Renderer.kwdOpen), text_kwdOpen by lia.
        rewrite take_ge by (rewrite length_app; simpl; lia).
        rewrite Hy, <- !app_assoc. reflexivity.
Qed.

(** The layout of the last chunk runs to the end of a region. *)
Lemma chunk_layout_tail (n text prev : str) :
  size n = 3 -> size text <> 27 ->
  tail_shape prev (chunk_layout (Renderer.htmlOpen n) (text ++ lit "}")).
Proof.
  intros Hn Htext. unfold chunk_layout.
  assert (Hsize : size (text ++ lit "}") = size text + 1) by (rewrite size_app; reflexivity).
  pose proof (size_nonneg text) as Hnn.
  rewrite Hsize.
  destruct (size text + 1 <=? 27) eqn:Hfit.
  - apply Z.leb_le in Hfit. apply tail_end.
    + apply tagged_htmlOpen.
    + rewrite app_assoc. apply RendererFacts.closed_not_continues.
      rewrite size_app, RendererFacts.size_htmlOpen, Hsize. lia.
    + apply (closing_text_found _ _ (substring prev 44 79 ++ htmlOpen ++ text) []).
      rewrite text_htmlOpen by lia.
      rewrite take_ge by (rewrite !length_app; unfold size in *; simpl; lia).
      rewrite <- !app_assoc. reflexivity.
  - apply Z.leb_gt in Hfit.
    destruct (continuation_lines_cons (length (text ++ lit "}")) (drop 29 (text ++ lit "}")))
      as (next & rest & Hcons).
    rewrite Hcons. apply tail_skip.
    + left. rewrite app_assoc. apply RendererFacts.continues_dash.
      rewrite size_app, RendererFacts.size_htmlOpen. unfold size in *.
      rewrite length_take, length_app. change (length (lit "}")) with 1%nat. lia.
    + rewrite <- Hcons. apply continuation_lines_tail.
      * rewrite length_drop. lia.
      * intros Hd. rewrite text_htmlOpen by lia.
        change (Z.to_nat (79 - 44)) with 35%nat.
        assert (Hlen : length (text ++ lit "}") = 29%nat).
        { apply (f_equal length) in Hd. rewrite length_drop in Hd.
          unfold size in *. rewrite length_app in *. simpl in *. lia. }
        exists (htmlOpen ++ text).
        rewrite (take_ge (text ++ lit "}")) by lia.
        rewrite app_assoc, take_app_le by (rewrite length_app, Hlen; simpl; lia).
        rewrite take_ge by (rewrite length_app, Hlen; simpl; lia).
        rewrite <- app_assoc. reflexivity.
      * intros Hd. apply drop_ends; [exact Hd | discriminate | reflexivity].
Qed.

(** A block whose lines all continue but the last, put before lines that
    start with a tag and run to the end of a region. *)
Lemma tail_shape_prepend (tail : list str) (next : str) (rest : list str) :
  tail = next :: rest -> starts_tag next ->
  (forall prev, tail_shape prev tail) ->
  forall (init : list str) (l prev : str),
    Forall RendererSpec.continues init ->
    tail_shape prev ((init ++ [l]) ++ tail).
Proof.
  intros -> Htag Htail init. induction init as [|x init IH]; intros l prev Hinit.
  - cbn [app]. apply tail_skip; [right; exact Htag | apply Htail].
  - apply Forall_cons in Hinit as [Hx Hinit].
    specialize (IH l x Hinit).
    destruct init as [|x' init]; cbn [app] in *; apply tail_skip; auto.
Qed.

Lemma layout_head (n : str) (chunk : str) (chunks : list str) :
  exists x rest,
    layout (Renderer.htmlOpen n) (chunk :: chunks) = (Renderer.htmlOpen n ++ x) :: rest.
Proof.
  cbn [layout]. unfold chunk_layout. destruct (size chunk <=? 27); cbn [app]; eauto.
Qed.

Lemma chunk_layout_block (n chunk : str) :
  size n = 3 -> 29 <= size chunk ->
  exists init l,
    chunk_layout (Renderer.htmlOpen n) chunk = init ++ [l] /\
    Forall RendererSpec.continues init.
Proof.
  intros Hn Hchunk.
  assert (Hopen : size (Renderer.htmlOpen n) = 50)
    by (rewrite RendererFacts.size_htmlOpen; lia).
  destruct (RendererFacts.chunk_lines_block (Renderer.htmlOpen n) chunk [] Hopen ltac:(lia))
    as (new & stop & Hrun & _ & init & l & -> & Hinit & _).
  rewrite RendererFacts.chunk_lines_layout in Hrun by exact Hopen.
  injection Hrun as Hnew _. cbn [app] in Hnew. eauto.
Qed.

(** The layout of the chunks of a payload runs to the end of a region. *)
Lemma layout_tail (n : str) (Hn : size n = 3) : forall (chunks : list str) (prev : str),
  chunks <> [] ->
  Forall (fun c => 29 <= size c) (removelast chunks) ->
  (exists text, last chunks = Some (text ++ lit "}") /\ size text <> 27) ->
  tail_shape prev (layout (Renderer.htmlOpen n) chunks).
Proof.
  induction chunks as [|chunk chunks IH]; intros prev Hne Hbig (text & Hlast & Htext);
    [congruence|].
  destruct chunks as [|chunk2 chunks].
  - cbn [last] in Hlast. injection Hlast as ->.
    cbn [layout]. destruct (_ <=? 27); rewrite app_nil_r; apply chunk_layout_tail; assumption.
  - change (removelast (chunk :: chunk2 :: chunks))
      with (chunk :: removelast (chunk2 :: chunks)) in Hbig.
    apply Forall_cons in Hbig as [Hchunk Hbig].
    cbn [layout]. replace (size chunk <=? 27) with false by (symmetry; apply Z.leb_gt; lia).
    destruct (chunk_layout_block n chunk Hn Hchunk) as (init & l & -> & Hinit).
    destruct (layout_head n chunk2 chunks) as (x & rest & Hhead).
    apply (tail_shape_prepend _ _ rest Hhead); [apply starts_tag_htmlOpen; exact Hn | | exact Hinit].
    intros prev'. apply IH; [discriminate | exact Hbig |].
    exists text. split; [exact Hlast | exact Htext].
Qed.

Lemma tail_shape_cons_inv (prev l : str) (tail : list str) :
  tail_shape prev (l :: tail) -> RendererSpec.continues l -> tail_shape l tail.
Proof. intros Hs Hc. inversion Hs; subst; [contradiction | assumption]. Qed.

(** A rendered document is a canonical one. *)
Lemma Rendered_Canonical (formats : list value) :
  forall rcdFmt suffix, Rendered formats rcdFmt suffix ->
  forall pre, Canonical formats (pre ++ suffix) (length pre) rcdFmt.
Proof.
  induction 1 as [rcdFmt
                 |rcdFmt l rest Hh _ IH
                 |rcdFmt l rest Hh Ho _ IH
                 |rcdFmt obj others n chunks rest Hfound Hn Hchunks Hwell Hnext _ IH];
    intros pre.
  - apply Canonical_end. rewrite app_nil_r. lia.
  - apply (Canonical_header _ _ _ _ l); [|exact Hh|].
    + rewrite lookup_app_r, Nat.sub_diag by lia. reflexivity.
    + specialize (IH (pre ++ [l])). rewrite <- app_assoc, length_app in IH.
      cbn [app length] in IH. replace (S (length pre)) with (length pre + 1)%nat by lia.
      exact IH.
  - apply (Canonical_copy _ _ _ _ l); [|exact Hh|exact Ho|].
    + rewrite lookup_app_r, Nat.sub_diag by lia. reflexivity.
    + specialize (IH (pre ++ [l])). rewrite <- app_assoc, length_app in IH.
      cbn [app length] in IH. replace (S (length pre)) with (length pre + 1)%nat by lia.
      exact IH.
  - destruct Hwell as ((first & Hhead & Hfirst) & Hbig & Hlast).
    destruct chunks as [|chunk chunks]; [discriminate|].
    cbn [head] in Hhead. injection Hhead as ->.
    assert (Hshape : forall prev,
               tail_shape prev (layout (Renderer.htmlOpen n) (("{"%char :: first) :: chunks)))
      by (intros prev; apply layout_tail; [exact Hn | discriminate | exact Hbig | exact Hlast]).
    pose proof (RendererFacts.htmlObjToDdsLines_layout obj n Hn) as Hrender.
    rewrite Hchunks in Hrender. cbn [mbind outcome_bind] in Hrender.
    revert Hshape Hrender IH.
    cbn [layout]. unfold chunk_layout.
    assert (Hsize : size ("{"%char :: first) = size first + 1) by (unfold size; cbn [length]; lia).
    rewrite Hsize.
    replace (size first + 1 <=? 27) with false by (symmetry; apply Z.leb_gt; lia).
    cbn [take app].
    set (line := Renderer.htmlOpen n ++ "{"%char :: take 28 first ++ lit "-").
    set (tail := continuation_lines (S (length ("{"%char :: first))) (drop 29 ("{"%char :: first))
                 ++ layout (Renderer.htmlOpen n) chunks).
    intros Hshape Hrender IH.
    assert (Hline : RendererSpec.continues line).
    { unfold line. change ("{"%char :: take 28 first ++ lit "-")
        with (("{"%char :: take 28 first) ++ lit "-").
      rewrite app_assoc. apply RendererFacts.continues_dash.
      rewrite size_app, RendererFacts.size_htmlOpen. unfold size in *. cbn [length].
      rewrite length_take. lia. }
    pose proof (tail_shape_cons_inv [] line tail (Hshape []) Hline) as Htail.
    pose proof (tail_shape_region_end line tail Htail pre rest Hnext) as [Hfalse Htrue].
    assert (Hlook : (pre ++ (line :: tail) ++ rest) !! length pre = Some line)
      by (rewrite lookup_app_r, Nat.sub_diag by lia; reflexivity).
    apply (Canonical_region _ _ _ (length pre + length tail) _ line).
    + exact Hlook.
    + apply not_header_htmlOpen.
    + apply opens_payload_htmlOpen. exact Hn.
    + split; [lia|]. split; [exact Htrue|].
      intros k Hk. destruct (decide (k = length pre)) as [->|Hne].
      * apply (region_end_at_continues _ _ line Hlook Hline).
      * apply Hfalse. lia.
    + unfold render_region. rewrite Hfound. cbn [mbind outcome_bind head].
      unfold line at 1. rewrite line_number_htmlOpen by exact Hn. rewrite Hrender.
      f_equal. rewrite drop_app_length.
      replace (S (length pre + length tail) - length pre)%nat
        with (length (line :: tail)) by (cbn [length]; lia).
      change (line :: tail ++ rest) with ((line :: tail) ++ rest).
      rewrite take_app_length. reflexivity.
    + specialize (IH (pre ++ line :: tail)).
      rewrite <- app_assoc, length_app in IH. cbn [length] in IH.
      replace (S (length pre + length tail)) with (length pre + S (length tail))%nat by lia.
      exact IH.
Qed.

Lemma opens_payload_starts_tag (l : str) : opens_payload l = true -> starts_tag l.
Proof.
  unfold opens_payload, starts_tag. intros Ho.
  apply andb_true_iff in Ho as [_ Ho]. apply str_eqb_eq in Ho.
  rewrite RendererFacts.substr_within in Ho |- * by lia.
  change (Z.to_nat 6) with (Nat.min 6 7). rewrite <- take_take.
  change (Z.to_nat 7) with 7%nat in Ho. rewrite Ho. reflexivity.
Qed.

Lemma opens_payload_line_number (l : str) :
  opens_payload l = true -> size (substr l 38 3) = 3.
Proof.
  unfold opens_payload. intros Ho.
  apply andb_true_iff in Ho as [_ Ho]. apply str_eqb_eq in Ho.
  apply (f_equal size) in Ho. rewrite RendererFacts.size_substr in Ho by lia.
  change (size (htmlOpen ++ lit "{")) with 7 in Ho.
  rewrite RendererFacts.size_substr by lia. lia.
Qed.

(** What a line that ends a region is followed by. *)
Lemma region_end_at_next (lines : list str) (j : nat) :
  region_end_at lines j = Ok true ->
  match lines !! S j with
  | None => True
  | Some next => ~ starts_tag next
  end.
Proof.
  unfold region_end_at. destruct (lines !! j) as [cur|] eqn:Hcur; [|discriminate].
  destruct (_ && _); [|discriminate].
  case_bool_decide as Hlast.
  - intros _. rewrite (proj2 (lookup_ge_None lines (S j))); [exact I|].
    unfold size_lines in Hlast. lia.
  - destruct (lines !! S j) as [next|] eqn:Hnext; [|intros _; exact I].
    replace (Z.of_nat j + 1) with (Z.of_nat (S j)) by lia.
    rewrite (line_at_lookup _ _ next) by exact Hnext. cbn [mbind outcome_bind].
    destruct (str_eqb (substr next 44 6) htmlOpen) eqn:Htag; cbn [negb]; [discriminate|].
    intros _. apply str_eqb_neq in Htag. exact Htag.
Qed.

Lemma Merged_next_ok (formats : list value) (lines : list str) (j : nat)
    (rcdFmt : option str) (out : list str) :
  region_end_at lines j = Ok true ->
  Merged formats lines (S j) rcdFmt out ->
  next_ok out.
Proof.
  intros Hend HM. apply region_end_at_next in Hend.
  inversion HM as [? ? Hi|? ? l ? Hl _ _|? ? l ? Hl _ _ _|? ? ? l ? ? Hl _ Ho _ _ _|? ? l Hl _ _ _];
    subst; cbn [next_ok]; try exact I.
  - rewrite Hl in Hend. exact Hend.
  - rewrite Hl in Hend. exact Hend.
  - rewrite Hl in Hend. destruct (Hend (opens_payload_starts_tag l Ho)).
Qed.

(** What the engine writes is a rendered document, when the payloads it
    takes from the model are plain. *)
Lemma Merged_Rendered (formats : list value) (lines : list str) :
  (forall rcdFmt obj others,
      filter_formats rcdFmt formats = Ok (obj :: others) -> plain obj) ->
  forall i rcdFmt out, Merged formats lines i rcdFmt out -> Rendered formats rcdFmt out.
Proof.
  intros Hplain. induction 1 as [i rcdFmt Hi
                 |i rcdFmt l out' Hl Hh _ IH
                 |i rcdFmt l out' Hl Hh Ho _ IH
                 |i j rcdFmt l rendered out' Hl Hh Ho Hend Hrender HM IH
                 |i rcdFmt l Hl Hh Ho Hnone].
  - apply Rendered_nil.
  - apply Rendered_header; assumption.
  - apply Rendered_copy; assumption.
  - unfold render_region in Hrender.
    destruct (filter_formats rcdFmt formats) as [found| |] eqn:Hfound;
      cbn [mbind outcome_bind] in Hrender; [|discriminate..].
    destruct found as [|obj others]; [discriminate|]. cbn [head] in Hrender.
    destruct (Hplain rcdFmt obj others Hfound) as (chunks & Hchunks & Hwell).
    pose proof (opens_payload_line_number l Ho) as Hn.
    rewrite (RendererFacts.htmlObjToDdsLines_layout obj _ Hn), Hchunks in Hrender.
    cbn [mbind outcome_bind] in Hrender. injection Hrender as <-.
    apply (Rendered_region formats rcdFmt obj others (substr l 38 3) chunks out');
      try assumption.
    destruct Hend as (_ & Hj & _). exact (Merged_next_ok _ _ _ _ _ Hj HM).
  - apply Rendered_nil.
Qed.

Lemma size_line_number (l : str) : size (substr l 38 3) <= 32.
Proof. rewrite RendererFacts.size_substr by lia. lia. Qed.

Lemma render_region_outcome (formats : list value) (rcdFmt : option str) (l : str) :
  (exists rendered, render_region formats rcdFmt l = Ok rendered) \/
  (exists what, what ∈ failure_labels /\
                render_region formats rcdFmt l = Throw (TypeError what)).
Proof.
  unfold render_region.
  destruct (filter_formats_outcome rcdFmt formats) as [[found ->]|(what & Hw & ->)];
    cbn [mbind outcome_bind]; [|right; eauto].
  destruct found as [|obj found]; cbn [head].
  - right. exists (lit "replace"). split; [apply list_elem_of_In; simpl; tauto | reflexivity].
  - destruct (RendererFacts.htmlObjToDdsLines_returns obj (substr l 38 3) (size_line_number l))
      as (rendered & -> & _).
    left. eauto.
Qed.

Lemma render_region_no_payload (formats : list value) (rcdFmt : option str) (l : str) :
  no_payload_for rcdFmt formats ->
  exists what, what ∈ failure_labels /\
               render_region formats rcdFmt l = Throw (TypeError what).
Proof.
  intros Hno. unfold render_region.
  destruct (filter_formats_no_payload rcdFmt formats Hno) as [->|(what & Hw & ->)];
    cbn [mbind outcome_bind head]; [|eauto].
  exists (lit "replace"). split; [apply list_elem_of_In; simpl; tauto | reflexivity].
Qed.

(** The engine comes to every visited position, unless it has thrown. *)
Lemma Visited_reached (formats : list value) (lines : list str) :
  forall i rcdFmt, Visited lines i rcdFmt ->
    (exists what, what ∈ failure_labels /\
                  conversionV1 formats lines = Throw (TypeError what)) \/
    (exists fuel out, (length lines - i < fuel)%nat /\
                      conversionV1 formats lines = lines_loop fuel formats lines i rcdFmt out).
Proof.
  induction 1 as [|i rcdFmt l _ IH Hl Hh
                  |i rcdFmt l _ IH Hl Hh Ho
                  |i j rcdFmt l _ IH Hl Hh Ho Hend].
  - right. exists (S (length lines)), []. split; [lia | reflexivity].
  - destruct IH as [?|(fuel & out & Hf & ->)]; [left; assumption|]. right.
    pose proof (lookup_lt_Some _ _ _ Hl).
    destruct fuel as [|fuel]; [lia|].
    rewrite (lines_loop_header _ _ _ _ _ _ l Hl Hh).
    eexists _, _. split; [|reflexivity]. lia.
  - destruct IH as [?|(fuel & out & Hf & ->)]; [left; assumption|]. right.
    pose proof (lookup_lt_Some _ _ _ Hl).
    destruct fuel as [|fuel]; [lia|].
    rewrite (lines_loop_copy _ _ _ _ _ _ l Hl Hh Ho).
    eexists _, _. split; [|reflexivity]. lia.
  - destruct IH as [?|(fuel & out & Hf & ->)]; [left; assumption|].
    pose proof (lookup_lt_Some _ _ _ Hl).
    destruct fuel as [|fuel]; [lia|].
    rewrite (lines_loop_region _ _ _ _ j _ _ l Hl Hh Ho Hend).
    destruct (render_region_outcome formats rcdFmt l) as [[rendered ->]|(what & Hw & ->)];
      cbn [mbind outcome_bind]; [right | left; eauto].
    destruct Hend as (Hij & _).
    eexists _, _. split; [|reflexivity]. lia.
Qed.

(** A canonical document is merged into itself. *)
Lemma Canonical_Merged (formats : list value) (lines : list str) :
  forall i rcdFmt, Canonical formats lines i rcdFmt ->
    Merged formats lines i rcdFmt (drop i lines).
Proof.
  induction 1 as [i rcdFmt Hi
                 |i rcdFmt l Hl Hh _ IH
                 |i rcdFmt l Hl Hh Ho _ IH
                 |i j rcdFmt l Hl Hh Ho Hend Hrender _ IH].
  - rewrite drop_ge by exact Hi. apply Merged_end. exact Hi.
  - rewrite (drop_S _ _ _ Hl). apply Merged_header; assumption.
  - rewrite (drop_S _ _ _ Hl). apply Merged_copy; assumption.
  - pose proof Hend as (Hij & _).
    rewrite <- (take_drop (S j - i) (drop i lines)).
    rewrite drop_drop. replace (i + (S j - i))%nat with (S j) by lia.
    eapply Merged_region; eassumption.
Qed.

Lemma region_loop_cases (formats : list value) (rcdFmt : option str) (origSrcLine : str)
    (lines : list str) (out : list str) (j : nat) (out' : list str) :
  forall (fuel i : nat),
    region_loop fuel formats rcdFmt origSrcLine lines i out = Ok (j, out') ->
    (region_end lines i j /\
     exists rendered, render_region formats rcdFmt origSrcLine = Ok rendered /\
                      out' = out ++ rendered) \/
    (no_region_end lines i /\ (length lines <= j)%nat /\ out' = out).
Proof.
  induction fuel as [|fuel IH]; intros i Hrun; [discriminate|].
  destruct (lines !! i) as [cur|] eqn:Hcur.
  - rewrite (region_loop_step _ _ _ _ _ _ _ cur Hcur) in Hrun.
    destruct (region_end_at lines i) as [[|]| |] eqn:Htest;
      cbn [mbind outcome_bind] in Hrun; [| |discriminate..].
    + destruct (render_region formats rcdFmt origSrcLine) as [rendered| |];
        cbn [mbind outcome_bind] in Hrun; [|discriminate..].
      injection Hrun as <- <-. left. split; [|eauto].
      split; [lia|]. split; [exact Htest|]. intros k Hk. lia.
    + destruct (IH (S i) Hrun) as [[(Hij & Hj & Hbefore) Hrender]|(Hnone & Hj & ->)].
      * left. split; [|exact Hrender]. split; [lia|]. split; [exact Hj|].
        intros k Hk. destruct (decide (k = i)) as [->|Hne]; [exact Htest|].
        apply Hbefore. lia.
      * right. split; [|auto]. intros k Hk.
        destruct (decide (k = i)) as [->|Hne]; [exact Htest|]. apply Hnone. lia.
  - cbn [region_loop] in Hrun. rewrite Hcur in Hrun. injection Hrun as <- <-.
    right. apply lookup_ge_None in Hcur. split; [|auto].
    intros k Hk. unfold region_end_at.
    rewrite (proj2 (lookup_ge_None lines k)) by lia. reflexivity.
Qed.

(** What the engine writes is a document that [Merged] describes. *)
Lemma lines_loop_complete (formats : list value) (lines : list str) :
  forall (fuel i : nat) (rcdFmt : option str) (out res : list str),
    (length lines - i < fuel)%nat ->
    lines_loop fuel formats lines i rcdFmt out = Ok res ->
    exists out', res = out ++ out' /\ Merged formats lines i rcdFmt out'.
Proof.
  induction fuel as [|fuel IH]; intros i rcdFmt out res Hf Hrun; [lia|].
  destruct (lines !! i) as [l|] eqn:Hl.
  - pose proof (lookup_lt_Some _ _ _ Hl).
    destruct (is_header l) eqn:Hh.
    + rewrite (lines_loop_header _ _ _ _ _ _ l Hl Hh) in Hrun.
      apply IH in Hrun as (out' & -> & HM); [|lia].
      exists (l :: out'). rewrite <- app_assoc. split; [reflexivity|].
      apply Merged_header; assumption.
    + destruct (opens_payload l) eqn:Ho.
      * cbn [lines_loop] in Hrun. rewrite Hl in Hrun.
        unfold is_header in Hh. rewrite Hh in Hrun.
        unfold opens_payload in Ho. rewrite Ho in Hrun.
        destruct (region_loop (S (length lines - i)) formats rcdFmt l lines i out)
          as [[j out1]| |] eqn:Hregion; cbn [mbind outcome_bind] in Hrun; [|discriminate..].
        apply region_loop_cases in Hregion
          as [[Hend (rendered & Hrender & ->)]|(Hnone & Hj & ->)].
        -- pose proof Hend as (Hij & _).
           apply IH in Hrun as (out' & -> & HM); [|lia].
           exists (rendered ++ out'). rewrite <- app_assoc. split; [reflexivity|].
           eapply Merged_region; eassumption.
        -- destruct fuel as [|fuel]; [lia|].
           rewrite lines_loop_past_end in Hrun by lia. injection Hrun as <-.
           exists []. rewrite app_nil_r. split; [reflexivity|].
           eapply Merged_open_ended; eassumption.
      * rewrite (lines_loop_copy _ _ _ _ _ _ l Hl Hh Ho) in Hrun.
        apply IH in Hrun as (out' & -> & HM); [|lia].
        exists (l :: out'). rewrite <- app_assoc. split; [reflexivity|].
        apply Merged_copy; assumption.
  - apply lookup_ge_None in Hl. rewrite lines_loop_past_end in Hrun by exact Hl.
    injection Hrun as <-. exists []. rewrite app_nil_r. split; [reflexivity|].
    apply Merged_end. exact Hl.
Qed.

End MergeFacts.
End MergeFacts.


Import Merge MergeSpec MergeFacts.

(** ** The merge engine: the claims *)




(** C7, as stated, fails: the payload of this document closes behind a
    blank. Line 2 is the first line that does not continue and is followed by
    a line that opens no payload tag, so the region of the claim is lines 1
    and 2; the engine does not find [}')] there, goes on to the last line, and
    the two field definitions behind the region are not copied. *)
Lemma region_runs_past_claimed_end :
  let doc := [header1; tag1; tag2_blank; field1; field2] in
  Scanner.getFormatsFromSrc doc = Ok [payload1] /\
  claimed_end_at doc 1 = false /\
  claimed_end_at doc 2 = true /\
  conversionV1 [payload1] doc = Ok [header1; tag1; tag2].
Proof. repeat split; vm_compute; reflexivity. Qed.

(** C7, amended: the engine returns a document exactly when [Merged]
    describes it: a header line and every line outside a region are copied;
    a region runs from the line that opens a payload tag to the first line
    that has [A ] in columns 6-7 and no [-] in column 80 and that is the last
    line of the document, or is followed by a line whose keyword area does not
    start with [HTML('] while [}')] occurs in the text of the line put behind
    that of the line before; it is replaced by the rendering of the payload of
    the model. Where no line ends the region, nothing is written for the rest
    of the document. *)
Theorem conversionV1_regions `{JsRuntime} (formats : list value) (lines out : list str) :
  conversionV1 formats lines = Ok out <-> Merged formats lines 0 None out.
Proof.
  split.
  - intros Hrun. unfold conversionV1 in Hrun.
    apply lines_loop_complete in Hrun as (out' & -> & HM); [|lia]. exact HM.
  - intros HM. unfold conversionV1.
    rewrite (lines_loop_Merged formats lines 0 None out HM (S (length lines)) []) by lia.
    reflexivity.
Qed.

Lemma conversionV1_regions_witness :
  conversionV1 [payload1] [header1; tag1; tag2; field1] = Ok [header1; tag1; tag2; field1].
Proof.
  apply (proj2 (conversionV1_regions [payload1] [header1; tag1; tag2; field1]
                  [header1; tag1; tag2; field1])).
  apply (Merged_header _ _ 0 None header1); [reflexivity | reflexivity |].
  apply (Merged_region _ _ 1 2 _ tag1 [tag1; tag2] [field1]);
    [reflexivity | reflexivity | reflexivity | | vm_compute; reflexivity |].
  - split; [lia|]. split; [vm_compute; reflexivity|].
    intros k Hk. assert (k = 1%nat) as -> by lia. vm_compute. reflexivity.
  - apply (Merged_copy _ _ 3 _ field1 []); [reflexivity | reflexivity | reflexivity |].
    apply Merged_end. simpl. lia.
Defined.

(** C4, as stated, fails: without a payload in the model the engine throws
    the [TypeError] of the read of [replace] on [undefined], and the error
    does not hold the record-format name; with a payload whose name is
    [recfmt1], which is not the name RECFMT1 of the header, the engine does
    not fail at all. *)
Lemma failure_carries_no_name :
  let doc := [header1; tag1; tag2; field1] in
  conversionV1 [] doc = Throw (TypeError (lit "replace")) /\
  ~ mentions (TypeError (lit "replace")) (lit "RECFMT1") /\
  conversionV1 [payload1_lower] doc = Ok [header1; tag1; tag2_lower; field1].
Proof.
  split; [vm_compute; reflexivity|]. split; [|vm_compute; reflexivity].
  intros (a & b & Heq).
  pose proof (f_equal length Heq) as Hlen. rewrite !length_app in Hlen. simpl in Hlen.
  destruct a as [|c a]; [|simpl in Hlen; lia].
  discriminate Heq.
Qed.

(** C4, amended: when the engine comes to a payload region that has an end
    and no payload of the model is taken for the current record format (the
    names are compared in upper case), the engine fails: the caller gets a
    [TypeError] for the read of [replace], or of a property that a payload of
    the model lacks; the record-format name is not part of it. *)
Theorem conversionV1_fails_without_payload `{JsRuntime} `{!JsRuntimeLaws} (formats : list value)
    (lines : list str) (i j : nat) (rcdFmt : option str) (l : str) :
  Visited lines i rcdFmt ->
  lines !! i = Some l ->
  is_header l = false ->
  opens_payload l = true ->
  region_end lines i j ->
  no_payload_for rcdFmt formats ->
  exists what, what ∈ failure_labels /\
               conversionV1 formats lines = Throw (TypeError what).
Proof.
  intros Hv Hl Hh Ho Hend Hno.
  destruct (Visited_reached formats lines i rcdFmt Hv) as [?|(fuel & out & Hf & ->)];
    [assumption|].
  pose proof (lookup_lt_Some _ _ _ Hl).
  destruct fuel as [|fuel]; [lia|].
  rewrite (lines_loop_region _ _ _ _ j _ _ l Hl Hh Ho Hend).
  destruct (render_region_no_payload formats rcdFmt l Hno) as (what & Hw & ->).
  exists what. split; [exact Hw | reflexivity].
Qed.

Lemma conversionV1_fails_without_payload_witness :
  exists what, what ∈ failure_labels /\
               conversionV1 [] [header1; tag1; tag2; field1] = Throw (TypeError what).
Proof.
  apply (conversionV1_fails_without_payload [] [header1; tag1; tag2; field1]
           1 2 (Some (header_name header1)) tag1).
  - apply (Visited_header _ 0 None header1); [apply Visited_start | reflexivity | reflexivity].
  - reflexivity.
  - reflexivity.
  - reflexivity.
  - split; [lia|]. split; [vm_compute; reflexivity|].
    intros k Hk. assert (k = 1%nat) as -> by lia. vm_compute. reflexivity.
  - intros x Hx. inversion Hx.
Defined.

(** C1, as stated, fails: the payload of this document is laid out as two
    tags, the first closed after 40 characters of the text. The scanner reads
    the payload back; the engine renders it as one tag, on two lines instead
    of three. *)
Lemma merge_changes_layout :
  let doc := [header1; tag1; tag2_short; tag3; field1] in
  Scanner.getFormatsFromSrc doc = Ok [payload1] /\
  conversionV1 [payload1] doc = Ok [header1; tag1; tag2; field1] /\
  conversionV1 [payload1] doc <> Ok doc.
Proof.
  split; [vm_compute; reflexivity|]. split; [vm_compute; reflexivity|].
  vm_compute. discriminate.
Qed.

(** A document in rendered form is a fixed point of the engine. *)
Lemma lines_loop_Rendered `{JsRuntime} (formats : list value) (lines : list str) :
  Rendered formats None lines -> conversionV1 formats lines = Ok lines.
Proof.
  intros HR. pose proof (Rendered_Canonical formats None lines HR []) as HC.
  cbn [app length] in HC. apply Canonical_Merged in HC. rewrite drop_0 in HC.
  unfold conversionV1.
  rewrite (lines_loop_Merged formats lines 0 None lines HC (S (length lines)) []) by lia.
  reflexivity.
Qed.

(** C1, amended: when every payload region of the document is the renderer's
    layout of the payload that the model holds for its record format (with a
    line number of three characters under the tag), is followed by the end of
    the document or by a line whose keyword area does not start with [HTML('],
    and the chunks of the escaped text of the payload are as [well_chunked]
    says (the text starts with an opening brace and ends with a closing one,
    every chunk but the last has 29 characters or more, the last does not
    have 28), the engine returns the document unchanged. *)
Theorem conversionV1_rendered `{JsRuntime} (formats : list value) (lines : list str) :
  Rendered formats None lines -> conversionV1 formats lines = Ok lines.
Proof.
  exact (lines_loop_Rendered formats lines).
Qed.

(** X20: merging is idempotent: what the engine returns for a model whose
    payloads are plain, it returns unchanged when it is given it with the
    same model. *)
Lemma conversionV1_idempotent `{JsRuntime} (formats : list value) (lines out : list str) :
  (forall rcdFmt obj others,
      filter_formats rcdFmt formats = Ok (obj :: others) -> plain obj) ->
  conversionV1 formats lines = Ok out ->
  conversionV1 formats out = Ok out.
Proof.
  intros Hplain Hrun. unfold conversionV1 in Hrun.
  apply lines_loop_complete in Hrun as (out' & -> & HM); [|lia].
  cbn [app]. apply lines_loop_Rendered.
  apply (Merged_Rendered formats lines Hplain 0%nat None out' HM).
Qed.

(** C1 on a document of the sample runtime, the model being the one the
    scanner reads from it. *)
Lemma conversionV1_rendered_witness :
  Scanner.getFormatsFromSrc [header1; tag1; tag2; field1] = Ok [payload1] /\
  conversionV1 [payload1] [header1; tag1; tag2; field1] = Ok [header1; tag1; tag2; field1].
Proof.
  split; [vm_compute; reflexivity|].
  apply (conversionV1_rendered [payload1] [header1; tag1; tag2; field1]).
  apply Rendered_header; [reflexivity|].
  apply (Rendered_region [payload1] (Some (header_name header1)) payload1 [] (lit "  1")
           [Sample.json "{`screen`:{`record format name`:`RECFMT1`},`items`:[]}"] [field1]).
  - vm_compute. reflexivity.
  - reflexivity.
  - vm_compute. reflexivity.
  - split; [|split].
    + eexists. split; [reflexivity|]. vm_compute. discriminate.
    + constructor.
    + exists (Sample.json "{`screen`:{`record format name`:`RECFMT1`},`items`:[]").
      split; [reflexivity|]. vm_compute. discriminate.
  - vm_compute. discriminate.
  - apply Rendered_copy; [reflexivity | reflexivity | apply Rendered_nil].
Defined.

(** * Further properties of the code *)

(** ** The chunker *)

Module CutFacts.
Import Chunker ChunkerSpec ChunkerFacts CutSpec.

(** The loop of the chunker with an invariant of the chunks pushed: [Cut]
    holds of what the [while] loop cuts, and the result is the chunks of the
    loop, repaired once more for the rest of the text when there is one. *)
Lemma chunkData_loop_inv (bytes : Z) (Hb : 0 < bytes)
    (Inv : list str -> Prop) (Cut : str -> Prop) :
  (forall chunks c, Inv chunks -> Cut c -> Inv (repaired chunks c)) ->
  (forall data, bytes < size data -> Cut (take (Z.to_nat (pickChunkSize data bytes)) data)) ->
  forall (fuel : nat) (data : str) (chunks : list str),
    (length data < fuel)%nat ->
    Inv chunks ->
    exists out mid,
      chunkData_loop fuel data bytes chunks (length chunks) = Ok out /\
      Inv mid /\
      (out = mid \/ exists rest, out = repaired mid rest).
Proof.
  intros Hstep Hcut.
  induction fuel as [|fuel IH]; intros data chunks Hf Hinv; [lia|].
  cbn [chunkData_loop].
  destruct (bytes <? size data) eqn:Hlong.
  - apply Z.ltb_lt in Hlong.
    pose proof (pickChunkSize_range data bytes Hb) as Hcs.
    pose proof (Hcut data Hlong) as Hc.
    set (cs := pickChunkSize data bytes) in *.
    rewrite fixSingleQuotes_push. cbn [mbind outcome_bind].
    rewrite substr_take, substr_from_drop by lia.
    unfold size in Hlong.
    destruct (IH (drop (Z.to_nat cs) data) (repaired chunks (take (Z.to_nat cs) data)))
      as (out & mid & Hrun & Hmid & Hout).
    + rewrite length_drop. lia.
    + apply Hstep; assumption.
    + exists out, mid. rewrite length_repaired in Hrun. auto.
  - destruct (0 <? size data) eqn:Hne.
    + rewrite fixSingleQuotes_push. exists (repaired chunks data), chunks.
      split; [reflexivity|]. split; [exact Hinv|]. right. exists data. reflexivity.
    + exists chunks, chunks. auto.
Qed.

Lemma skipTrailingBlanks_spec (data : str) : forall n : nat,
  (n <= length data)%nat ->
  (skipTrailingBlanks n data = 0%nat /\ take n data = replicate n blank) \/
  (exists x, data !! (skipTrailingBlanks n data - 1)%nat = Some x /\ x <> blank /\
             (0 < skipTrailingBlanks n data)%nat).
Proof.
  induction n as [|n IH]; intros Hn.
  - left. split; reflexivity.
  - cbn [skipTrailingBlanks].
    destruct (lookup_lt_is_Some_2 data n ltac:(lia)) as [x Hx].
    assert (Hsub : substr data (Z.of_nat n) 1 = [x]).
    { unfold substr.
      replace (Z.of_nat n <? 0) with false by (symmetry; apply Z.ltb_ge; lia).
      unfold size. replace (Z.min (Z.of_nat n) (Z.of_nat (length data))) with (Z.of_nat n) by lia.
      replace (Z.min (Z.max 1 0) (Z.of_nat (length data))) with 1 by lia.
      rewrite Nat2Z.id. change (Z.to_nat 1) with 1%nat.
      rewrite (drop_S _ _ _ Hx). reflexivity. }
    rewrite Hsub.
    destruct (str_eqb [x] (lit " ")) eqn:E.
    + apply str_eqb_eq in E. injection E as ->.
      destruct (IH ltac:(lia)) as [[H0 Ht]|Hr].
      * left. split; [exact H0|].
        rewrite (take_S_r _ _ _ Hx), Ht. rewrite replicate_S_end. reflexivity.
      * right. exact Hr.
    + right. exists x. replace (S n - 1)%nat with n by lia.
      split; [exact Hx|]. split; [|lia].
      intros ->. apply str_eqb_neq in E. apply E. reflexivity.
Qed.

Lemma cut_no_trailing_blank (bytes : Z) (data : str) :
  0 < bytes -> bytes < size data ->
  no_trailing_blank bytes (take (Z.to_nat (pickChunkSize data bytes)) data).
Proof.
  intros Hb Hlong. unfold pickChunkSize, no_trailing_blank.
  replace (0 <? bytes) with true by (symmetry; apply Z.ltb_lt; lia).
  unfold size in Hlong.
  destruct (skipTrailingBlanks_spec data (Z.to_nat bytes) ltac:(lia)) as [[H0 Ht]|(x & Hx & Hne & Hpos)].
  - rewrite H0. change (Z.of_nat 0 =? 0) with true. cbv iota. intros _. exact Ht.
  - set (s := skipTrailingBlanks (Z.to_nat bytes) data) in *.
    replace (Z.of_nat s =? 0) with false by (symmetry; apply Z.eqb_neq; lia).
    rewrite Nat2Z.id. intros Hl. exfalso.
    pose proof (skipTrailingBlanks_le (Z.to_nat bytes) data) as Hle. fold s in Hle.
    rewrite last_lookup in Hl. rewrite length_take in Hl.
    replace (Init.Nat.pred (Nat.min s (length data))) with (s - 1)%nat in Hl by lia.
    rewrite lookup_take_lt in Hl by lia.
    rewrite Hx in Hl. injection Hl as ->. apply Hne. reflexivity.
Qed.

Lemma leading_quotes_blanks (n : nat) : leading_quotes (replicate n blank) = 0%nat.
Proof. destruct n; reflexivity. Qed.

Lemma last_drop_Some (k : nat) (c : str) (x : ascii) :
  last (drop k c) = Some x -> last c = Some x.
Proof.
  intros Hl. rewrite <- (take_drop k c).
  destruct (drop k c) as [|y d] eqn:E; [discriminate|].
  rewrite last_app. rewrite Hl. reflexivity.
Qed.

Lemma no_trailing_blank_repaired (bytes : Z) (chunks : list str) (c : str) :
  Forall (no_trailing_blank bytes) chunks ->
  Forall (no_trailing_blank bytes) (removelast (repaired chunks c)) /\
  (no_trailing_blank bytes c -> Forall (no_trailing_blank bytes) (repaired chunks c)).
Proof.
  intros HF. unfold repaired.
  destruct (reverse chunks) as [|b pre] eqn:E;
    apply (f_equal reverse) in E; rewrite reverse_involutive in E; subst chunks.
  - split; [constructor|]. intros Hc. constructor; [exact Hc | constructor].
  - rewrite reverse_cons in HF. apply Forall_app in HF as [Hpre Hb].
    apply Forall_cons in Hb as [Hb _].
    assert (Hb' : no_trailing_blank bytes (b ++ take (leading_quotes c) c)).
    { rewrite take_leading_quotes.
      destruct (leading_quotes c) as [|k].
      - rewrite app_nil_r. exact Hb.
      - intros Hl. rewrite replicate_S_end, app_assoc, last_snoc in Hl. discriminate Hl. }
    split.
    + replace (reverse pre ++ [b ++ take (leading_quotes c) c; drop (leading_quotes c) c])
        with ((reverse pre ++ [b ++ take (leading_quotes c) c]) ++ [drop (leading_quotes c) c])
        by (rewrite <- app_assoc; reflexivity).
      rewrite removelast_last. apply Forall_app. split; [exact Hpre|].
      constructor; [exact Hb' | constructor].
    + intros Hc. apply Forall_app. split; [exact Hpre|].
      constructor; [exact Hb'|]. constructor; [|constructor].
      intros Hl. pose proof (Hc (last_drop_Some _ _ _ Hl)) as Heq.
      rewrite Heq, leading_quotes_blanks. reflexivity.
Qed.

Lemma Forall_removelast {A} (P : A -> Prop) (l : list A) :
  Forall P l -> Forall P (removelast l).
Proof.
  induction 1 as [|x l Hx Hl IH]; [constructor|].
  destruct l as [|y l]; [constructor|].
  change (removelast (x :: y :: l)) with (x :: removelast (y :: l)).
  constructor; assumption.
Qed.

Lemma head_drop_leading_quotes (c : str) : head (drop (leading_quotes c) c) <> Some quote.
Proof.
  induction c as [|x c IH]; [discriminate|].
  cbn [leading_quotes]. case_bool_decide as Hx.
  - exact IH.
  - intros [= ->]. apply Hx. reflexivity.
Qed.

Lemma quotes_or_clean_push (b : str) (k : nat) :
  quotes_or_clean b -> quotes_or_clean (b ++ replicate k quote).
Proof.
  intros Hb Hh.
  apply Forall_app. split.
  - destruct b as [|x b]; [constructor|]. apply Hb. exact Hh.
  - apply Forall_forall. intros x Hx. apply elem_of_replicate in Hx as [-> _]. reflexivity.
Qed.

Lemma repair_kept_nil : repair_kept [].
Proof. split; [constructor | intros c [=]]. Qed.

Lemma repair_kept_repaired (chunks : list str) (c : str) :
  repair_kept chunks -> repair_kept (repaired chunks c).
Proof.
  intros [HF _]. unfold repaired.
  destruct (reverse chunks) as [|b pre] eqn:E;
    apply (f_equal reverse) in E; rewrite reverse_involutive in E; subst chunks.
  - split; [constructor|]. intros d _ Hlen. simpl in Hlen. lia.
  - rewrite reverse_cons in HF.
    assert (Hd : quotes_or_clean (drop (leading_quotes c) c)).
    { intros Hh. exfalso. exact (head_drop_leading_quotes c Hh). }
    split.
    + destruct (reverse pre) as [|p pre'].
      * simpl. constructor; [exact Hd | constructor].
      * simpl in HF |- *. apply Forall_app in HF as [Hpre Hb].
        apply Forall_cons in Hb as [Hb _].
        apply Forall_app. split; [exact Hpre|].
        constructor; [|constructor; [exact Hd | constructor]].
        rewrite take_leading_quotes. apply quotes_or_clean_push. exact Hb.
    + intros d Hl _.
      rewrite (last_app_cons _ _ _) in Hl. simpl in Hl. injection Hl as <-.
      apply head_drop_leading_quotes.
Qed.

Lemma chunkData_loop_stuck (bytes : Z) :
  forall (fuel : nat) (data : str) (chunks : list str),
    bytes < 0 \/ (bytes = 0 /\ data <> []) ->
    chunkData_loop fuel data bytes chunks (length chunks) = OutOfFuel.
Proof.
  induction fuel as [|fuel IH]; intros data chunks Hc; [reflexivity|].
  cbn [chunkData_loop].
  assert (Hlong : (bytes <? size data) = true).
  { apply Z.ltb_lt. pose proof (size_nonneg data).
    destruct Hc as [?|[-> Hd]]; [lia|].
    destruct data; [contradiction | unfold size; simpl; lia]. }
  rewrite Hlong.
  assert (Hcs : pickChunkSize data bytes = bytes).
  { unfold pickChunkSize.
    replace (0 <? bytes) with false by (symmetry; apply Z.ltb_ge; lia).
    destruct (bytes =? 0); reflexivity. }
  rewrite Hcs.
  assert (Hcut : substr data 0 bytes = []).
  { unfold substr. replace (Z.max bytes 0) with 0 by lia.
    pose proof (size_nonneg data).
    replace (Z.min 0 (size data)) with 0 by lia. reflexivity. }
  rewrite Hcut, fixSingleQuotes_push. cbn [mbind outcome_bind].
  rewrite <- (length_repaired chunks []).
  apply IH.
  destruct Hc as [?|[-> Hd]]; [left; assumption|].
  right. split; [reflexivity|]. rewrite substr_from_drop by lia. exact Hd.
Qed.

End CutFacts.

Import CutSpec CutFacts.

(** X1: for every text and every positive chunk size the chunker returns,
    and its chunks joined in order are the text. *)
Theorem chunkData_rejoins (data : str) (bytes : Z) :
  0 < bytes ->
  exists chunks, chunkData data bytes = Ok chunks /\ concat chunks = data.
Proof.
  intros Hb. destruct (chunkData_returns data bytes Hb) as (chunks & Hrun & Hcat & _).
  exists chunks. auto.
Qed.

Lemma chunkData_rejoins_witness :
  0 < 3 /\
  exists chunks, chunkData (lit "ab''cd") 3 = Ok chunks /\ concat chunks = lit "ab''cd".
Proof.
  split; [lia|]. apply (chunkData_rejoins (lit "ab''cd") 3). lia.
Defined.

(** X2: no chunk but the last ends with a blank, unless the whole window
    it was cut from was blank: then the chunk is a run of [bytes] blanks. *)
Theorem chunkData_no_trailing_blank (data : str) (bytes : Z) :
  0 < bytes ->
  exists chunks,
    chunkData data bytes = Ok chunks /\
    Forall (no_trailing_blank bytes) (removelast chunks).
Proof.
  intros Hb. unfold chunkData.
  destruct (chunkData_loop_inv bytes Hb (Forall (no_trailing_blank bytes))
              (no_trailing_blank bytes)
              (fun chunks c HF Hc => proj2 (no_trailing_blank_repaired bytes chunks c HF) Hc)
              (fun data Hl => cut_no_trailing_blank bytes data Hb Hl)
              (S (length data)) data [] ltac:(lia) ltac:(constructor))
    as (out & mid & Hrun & Hmid & Hout).
  exists out. split; [exact Hrun|].
  destruct Hout as [->|[rest ->]].
  - apply Forall_removelast. exact Hmid.
  - apply no_trailing_blank_repaired. exact Hmid.
Qed.

Lemma chunkData_no_trailing_blank_witness :
  0 < 4 /\
  exists chunks,
    chunkData (lit "ab  cd  ef") 4 = Ok chunks /\
    Forall (no_trailing_blank 4) (removelast chunks).
Proof.
  split; [lia|]. apply (chunkData_no_trailing_blank (lit "ab  cd  ef") 4). lia.
Defined.

(** X3: what the quote repair achieves: the last chunk, when there are two
    chunks or more, does not start with a single quote, and a chunk behind
    the first starts with one only when it holds nothing but single quotes. *)
Theorem chunkData_repair_kept (data : str) (bytes : Z) :
  0 < bytes ->
  exists chunks, chunkData data bytes = Ok chunks /\ repair_kept chunks.
Proof.
  intros Hb. unfold chunkData.
  destruct (chunkData_loop_inv bytes Hb repair_kept (fun _ => True)
              (fun chunks c Hk _ => repair_kept_repaired chunks c Hk)
              (fun _ _ => I)
              (S (length data)) data [] ltac:(lia) repair_kept_nil)
    as (out & mid & Hrun & Hmid & Hout).
  exists out. split; [exact Hrun|].
  destruct Hout as [->|[rest ->]]; [exact Hmid|].
  apply repair_kept_repaired. exact Hmid.
Qed.

Lemma chunkData_repair_kept_witness :
  0 < 2 /\
  exists chunks, chunkData (lit "ab''''cd") 2 = Ok chunks /\ repair_kept chunks.
Proof.
  split; [lia|]. apply (chunkData_repair_kept (lit "ab''''cd") 2). lia.
Defined.

(** X4: with a negative chunk size, or with the size 0 and a text that is
    not empty, the loop of the chunker never ends: every pass pushes an empty
    chunk and leaves the text as long as the size lets the loop go on. *)
Theorem chunkData_never_returns (data : str) (bytes : Z) (fuel : nat) :
  bytes < 0 \/ (bytes = 0 /\ data <> []) ->
  chunkData_loop fuel data bytes [] 0 = OutOfFuel /\
  chunkData data bytes = OutOfFuel.
Proof.
  intros Hc. split; [|unfold chunkData]; apply (chunkData_loop_stuck bytes _ data []); exact Hc.
Qed.

Lemma chunkData_never_returns_witness :
  chunkData_loop 1000 (lit "abc") 0 [] 0 = OutOfFuel /\
  chunkData (lit "abc") 0 = OutOfFuel.
Proof.
  apply (chunkData_never_returns (lit "abc") 0 1000).
  right. split; [reflexivity | discriminate].
Defined.

(** Doubling the single quotes and pairing them off again. *)
Lemma unescape_escape (s : str) : unescape_quotes (escape_quotes s) = s.
Proof.
  induction s as [|c s IH]; [reflexivity|].
  cbn [escape_quotes]. case_bool_decide as Hc.
  - subst c. cbn [unescape_quotes].
    rewrite !bool_decide_eq_true_2 by reflexivity. cbn [andb].
    rewrite IH. reflexivity.
  - cbn [unescape_quotes].
    destruct (escape_quotes s) as [|d e] eqn:E.
    + destruct s as [|x s]; [reflexivity|].
      cbn [escape_quotes] in E. case_bool_decide; discriminate E.
    + rewrite (bool_decide_eq_false_2 (c = quote)) by exact Hc. cbn [andb].
      rewrite IH. reflexivity.
Qed.

(** X5: the escape of the renderer and the unescape of the scanner are a
    round trip: doubling every single quote and then replacing every pair of
    single quotes by one gives the text back. *)
Theorem unescape_escape_quotes (s : str) : unescape_quotes (escape_quotes s) = s.
Proof. exact (unescape_escape s). Qed.

(** ** The renderer *)

Module LayoutFacts.
Section LayoutFacts.
Context `{JsRuntime}.
Import Renderer RendererSpec RendererFacts.

(** A line of DDS source without sequence number and date: five blanks, the
    form type [A] and a blank. *)
Lemma strip_line_spec_line (l : str) :
  lit "     A " `prefix_of` l -> Source.strip_line l = l.
Proof.
  intros [rest ->]. unfold Source.strip_line.
  rewrite substr_within by lia.
  destruct rest as [|a [|b [|c [|d [|e rest]]]]]; reflexivity.
Qed.

Lemma prefix_kwdOpen (x : str) : lit "     A " `prefix_of` kwdOpen ++ x.
Proof. eexists. reflexivity. Qed.

Lemma prefix_htmlOpen (n x : str) : lit "     A " `prefix_of` htmlOpen n ++ x.
Proof. eexists. reflexivity. Qed.

Lemma continuation_lines_width : forall (fuel : nat) (text : str),
  Forall (fun l => size l <= 80 /\ lit "     A " `prefix_of` l)
         (continuation_lines fuel text).
Proof.
  induction fuel as [|fuel IH]; intros text; [constructor|].
  cbn [continuation_lines].
  destruct (size text =? 0) eqn:E0.
  - constructor; [|constructor]. split; [|apply prefix_kwdOpen].
    rewrite size_app, size_kwdOpen. unfold size. simpl. lia.
  - destruct (35 <=? size text) eqn:E35.
    + apply Z.leb_le in E35. constructor; [|apply IH].
      split; [|rewrite <- app_assoc; apply prefix_kwdOpen].
      rewrite !size_app, size_kwdOpen. unfold size in *. rewrite length_take.
      change (length (lit "-")) with 1%nat. lia.
    + apply Z.leb_gt in E35. constructor; [|constructor].
      split; [|rewrite <- app_assoc; apply prefix_kwdOpen].
      rewrite !size_app, size_kwdOpen. unfold size in *.
      change (length (lit "')")) with 2%nat. lia.
Qed.

Lemma chunk_layout_width (n chunk : str) :
  size n = 3 ->
  Forall (fun l => size l <= 80 /\ lit "     A " `prefix_of` l)
         (chunk_layout (htmlOpen n) chunk).
Proof.
  intros Hn. pose proof (size_htmlOpen n) as Ho.
  unfold chunk_layout. destruct (size chunk <=? 27) eqn:E.
  - apply Z.leb_le in E. constructor; [|constructor].
    split; [|apply prefix_htmlOpen].
    rewrite !size_app, Ho. unfold size in *. change (length (lit "')")) with 2%nat. lia.
  - constructor; [|apply continuation_lines_width].
    split; [|apply prefix_htmlOpen].
    rewrite !size_app, Ho. unfold size in *. rewrite length_take.
    change (length (lit "-")) with 1%nat. lia.
Qed.

Lemma layout_width (n : str) (Hn : size n = 3) : forall chunks : list str,
  Forall (fun l => size l <= 80 /\ lit "     A " `prefix_of` l)
         (layout (htmlOpen n) chunks).
Proof.
  induction chunks as [|chunk chunks IH]; [constructor|].
  cbn [layout]. apply Forall_app. split; [apply chunk_layout_width; exact Hn|].
  destruct (size chunk <=? 27); [constructor | exact IH].
Qed.

End LayoutFacts.
End LayoutFacts.

Import Renderer RendererSpec RendererFacts.

(** X6: with a line number of three characters every line the renderer
    returns has at most 80 characters and starts with five blanks, the form
    type [A] and a blank; both converters read such a line back as it is, for
    it does not start with a number. *)
Theorem htmlObjToDdsLines_in_columns `{JsRuntime} (obj : value) (htmlLineNum : str) :
  size htmlLineNum = 3 ->
  exists lines,
    htmlObjToDdsLines (Some obj) htmlLineNum = Ok lines /\
    Forall (fun l => size l <= 80 /\ lit "     A " `prefix_of` l /\ Source.strip_line l = l)
           lines.
Proof.
  intros Hn. rewrite htmlObjToDdsLines_layout by exact Hn.
  destruct (chunkData_returns (escape_quotes (JSON_stringify obj)) 2500 ltac:(lia))
    as (chunks & -> & _).
  exists (layout (htmlOpen htmlLineNum) chunks). split; [reflexivity|].
  eapply Forall_impl; [apply LayoutFacts.layout_width; exact Hn|].
  intros l [Hs Hp]. split; [exact Hs|]. split; [exact Hp|].
  apply LayoutFacts.strip_line_spec_line. exact Hp.
Qed.

Lemma htmlObjToDdsLines_in_columns_witness :
  exists lines,
    htmlObjToDdsLines (Some payload1) (lit "  1") = Ok lines /\
    Forall (fun l => size l <= 80 /\ lit "     A " `prefix_of` l /\ Source.strip_line l = l)
           lines.
Proof.
  apply (htmlObjToDdsLines_in_columns payload1 (lit "  1")). reflexivity.
Defined.

(** X7: the lines the renderer returns fall into blocks, one for each
    chunk it rendered and in their order: the block of a chunk is the closed
    tag that holds the text of the chunk, and it is a block for the scanner
    (every line but the last has the continuation character in column 80 and
    the last line has not) exactly when the chunk has not 28 characters. *)
Theorem htmlObjToDdsLines_blocks `{JsRuntime} (obj : value) (htmlLineNum : str) :
  size htmlLineNum = 3 ->
  exists chunks lines blocks,
    chunkData (escape_quotes (JSON_stringify obj)) 2500 = Ok chunks /\
    htmlObjToDdsLines (Some obj) htmlLineNum = Ok lines /\
    lines = concat blocks /\
    Forall2 (fun chunk block =>
               closed_tag (htmlOpen htmlLineNum) chunk block /\
               (chunk_block block <-> size chunk <> 28))
            (rendered chunks) blocks.
Proof.
  intros Hn. rewrite htmlObjToDdsLines_layout by exact Hn.
  destruct (chunkData_returns (escape_quotes (JSON_stringify obj)) 2500 ltac:(lia))
    as (chunks & -> & _).
  assert (Ho : size (htmlOpen htmlLineNum) = 50) by (rewrite size_htmlOpen; lia).
  destruct (TagFacts.layout_tags
              (fun chunk block =>
                 closed_tag (htmlOpen htmlLineNum) chunk block /\
                 (chunk_block block <-> size chunk <> 28))
              (htmlOpen htmlLineNum) chunks) as (blocks & Hl & HF).
  { intros chunk. split; [apply TagFacts.chunk_layout_closed_tag|]. split.
    - intros Hb H28. exact (TagFacts.chunk_layout_28 _ _ Ho H28 Hb).
    - apply TagFacts.chunk_layout_chunk_block. exact Hn. }
  exists chunks, (layout (htmlOpen htmlLineNum) chunks), blocks.
  split; [reflexivity|]. split; [reflexivity|]. split; assumption.
Qed.

Lemma htmlObjToDdsLines_blocks_witness :
  exists chunks lines blocks,
    chunkData (escape_quotes (JSON_stringify payload1)) 2500 = Ok chunks /\
    htmlObjToDdsLines (Some payload1) (lit "  1") = Ok lines /\
    lines = concat blocks /\
    Forall2 (fun chunk block =>
               closed_tag (htmlOpen (lit "  1")) chunk block /\
               (chunk_block block <-> size chunk <> 28))
            (rendered chunks) blocks.
Proof.
  apply (htmlObjToDdsLines_blocks payload1 (lit "  1")). reflexivity.
Defined.

(** ** The tag scanner *)

Module ScanFacts.
Section ScanFacts.
Context `{JsRuntime}.
Import Scanner ScannerSpec ScannerFacts RoundTripSpec.

Lemma open_tag_plain (st : scan_state) (line : str) :
  substr line 44 7 <> lit "HTML('{" ->
  open_tag st line
  = Ok {| isHtmlJsonTag := false; htmlTag := htmlTag st; formats := formats st |}.
Proof.
  intros Hn. unfold open_tag. apply str_eqb_neq in Hn. rewrite Hn. reflexivity.
Qed.

Lemma scan_lines_plain (lines : list str) (tag : str) (fs : list value) :
  Forall (fun l => substr l 44 7 <> lit "HTML('{") lines ->
  scan_lines {| isHtmlJsonTag := false; htmlTag := tag; formats := fs |} lines
  = Ok {| isHtmlJsonTag := false; htmlTag := tag; formats := fs |}.
Proof.
  induction 1 as [|l lines Hl _ IH]; [reflexivity|].
  cbn [scan_lines]. unfold scan_line. cbn [isHtmlJsonTag].
  rewrite open_tag_plain by exact Hl. cbn [mbind outcome_bind htmlTag formats].
  exact IH.
Qed.

Lemma addToFormats_frame (fs f : list value) (s : str) :
  addToFormats (fs ++ f) s = r ← addToFormats f s; Ok (fs ++ r).
Proof.
  unfold addToFormats. destruct (JSON_parse _); cbn [mbind outcome_bind];
    [rewrite app_assoc|]; reflexivity.
Qed.

Lemma open_tag_frame (fs : list value) (st : scan_state) (line : str) :
  open_tag (with_formats fs st) line = st' ← open_tag st line; Ok (with_formats fs st').
Proof.
  unfold open_tag, with_formats. cbn [isHtmlJsonTag htmlTag formats].
  destruct (str_eqb (substr line 44 7) _); [|reflexivity].
  destruct (negb _); [|reflexivity].
  rewrite addToFormats_frame.
  destruct (addToFormats _ _); reflexivity.
Qed.

Lemma scan_line_frame (fs : list value) (st : scan_state) (line : str) :
  scan_line (with_formats fs st) line = st' ← scan_line st line; Ok (with_formats fs st').
Proof.
  unfold scan_line. cbn [with_formats isHtmlJsonTag htmlTag formats].
  destruct (isHtmlJsonTag st) eqn:Hb.
  - destruct (negb _); [|reflexivity].
    rewrite addToFormats_frame.
    destruct (addToFormats (formats st) _) as [f'| |]; cbn [mbind outcome_bind];
      [|reflexivity..].
    apply (open_tag_frame fs {| isHtmlJsonTag := false; htmlTag := []; formats := f' |}).
  - fold (with_formats fs st). apply open_tag_frame.
Qed.

Lemma scan_lines_frame (fs : list value) (lines : list str) : forall st,
  scan_lines (with_formats fs st) lines
  = st' ← scan_lines st lines; Ok (with_formats fs st').
Proof.
  induction lines as [|l lines IH]; intros st; [reflexivity|].
  cbn [scan_lines]. rewrite scan_line_frame.
  destruct (scan_line st l) as [st1| |]; cbn [mbind outcome_bind]; [apply IH | reflexivity..].
Qed.

End ScanFacts.
End ScanFacts.

Import Scanner ScannerSpec ScannerFacts RoundTripSpec.

(** X8: a document without a line that has [HTML('{] from column 45 has no
    payload: the scanner returns the empty list. *)
Theorem getFormatsFromSrc_no_tag `{JsRuntime} (srcLines : list str) :
  Forall (fun l => substr l 44 7 <> lit "HTML('{") srcLines ->
  getFormatsFromSrc srcLines = Ok [].
Proof.
  intros HF. unfold getFormatsFromSrc, scan_start.
  rewrite ScanFacts.scan_lines_plain by exact HF. reflexivity.
Qed.

Lemma getFormatsFromSrc_no_tag_witness :
  getFormatsFromSrc [header1; field1; field2] = Ok [].
Proof.
  apply (getFormatsFromSrc_no_tag [header1; field1; field2]).
  repeat constructor; intros E; vm_compute in E; discriminate E.
Defined.

(** X9: when the scan of the first part of a document ends outside a
    payload tag, the payloads of the whole document are those of the first
    part followed by those of the rest, and the scan of the whole fails as
    the scan of the rest does. *)
Theorem getFormatsFromSrc_app `{JsRuntime} (before after : list str) (st : scan_state) :
  scan_lines scan_start before = Ok st ->
  isHtmlJsonTag st = false ->
  getFormatsFromSrc before = Ok (formats st) /\
  getFormatsFromSrc (before ++ after)
  = found ← getFormatsFromSrc after; Ok (formats st ++ found).
Proof.
  intros Hrun Hout. unfold getFormatsFromSrc.
  rewrite scan_lines_app, Hrun. cbn [mbind outcome_bind]. split; [reflexivity|].
  assert (Hbuf : htmlTag st = []).
  { apply (scan_lines_cleared before scan_start st); [intros _; reflexivity | exact Hrun | exact Hout]. }
  destruct st as [b tag fs]. cbn [isHtmlJsonTag htmlTag formats] in *. subst b tag.
  pose proof (ScanFacts.scan_lines_frame fs after scan_start) as Hf.
  change (with_formats fs scan_start)
    with {| isHtmlJsonTag := false; htmlTag := []; formats := fs ++ [] |} in Hf.
  rewrite app_nil_r in Hf. rewrite Hf.
  destruct (scan_lines scan_start after) as [st'| |]; reflexivity.
Qed.

Lemma getFormatsFromSrc_app_witness :
  getFormatsFromSrc [header1; tag1; tag2] = Ok [payload1] /\
  getFormatsFromSrc ([header1; tag1; tag2] ++ [field1; tag1; tag2])
  = found ← getFormatsFromSrc [field1; tag1; tag2]; Ok ([payload1] ++ found).
Proof.
  apply (getFormatsFromSrc_app [header1; tag1; tag2] [field1; tag1; tag2]
           {| isHtmlJsonTag := false; htmlTag := []; formats := [payload1] |});
    vm_compute; reflexivity.
Defined.

(** ** The scanner reads back what the renderer wrote *)

Module RoundTripFacts.
Section RoundTripFacts.
Context `{JsRuntime}.
Import Renderer RendererSpec RendererFacts.

Local Abbreviation St b acc fs := {| isHtmlJsonTag := b; htmlTag := acc; formats := fs |}.

Lemma starts_with_short (pat : str) : forall s : str,
  (length s < length pat)%nat -> starts_with pat s = false.
Proof.
  induction pat as [|p pat IH]; intros s Hs; [simpl in Hs; lia|].
  destruct s as [|c s]; [reflexivity|].
  cbn [starts_with]. rewrite IH by (simpl in Hs; lia). apply andb_false_r.
Qed.

Lemma lastIndexOf_from_short (pat : str) : forall (s : str) (i : Z),
  (length s < length pat)%nat -> lastIndexOf_from s pat i = -1.
Proof.
  induction s as [|c s IH]; intros i Hs.
  - cbn [lastIndexOf_from]. rewrite starts_with_short by exact Hs. reflexivity.
  - cbn [lastIndexOf_from]. rewrite IH by (simpl in Hs; lia).
    change (0 <=? -1) with false. cbv iota.
    rewrite starts_with_short by exact Hs. reflexivity.
Qed.

(** The last place of a pattern in a text that ends with it. *)
Lemma lastIndexOf_from_suffix (pat : str) (Hp : pat <> []) : forall (x : str) (i : Z),
  0 <= i -> lastIndexOf_from (x ++ pat) pat i = i + size x.
Proof.
  induction x as [|c x IH]; intros i Hi.
  - cbn [app]. destruct pat as [|p pat']; [contradiction|].
    cbn [lastIndexOf_from]. rewrite lastIndexOf_from_short by (simpl; lia).
    change (0 <=? -1) with false. cbv iota.
    pose proof (MergeFacts.starts_with_app (p :: pat') []) as Hs.
    rewrite app_nil_r in Hs. rewrite Hs. unfold size. simpl. lia.
  - cbn [app lastIndexOf_from]. rewrite IH by lia.
    pose proof (size_nonneg x).
    replace (0 <=? i + 1 + size x) with true by (symmetry; apply Z.leb_le; lia).
    unfold size. cbn [length]. lia.
Qed.

Lemma lastIndexOf_closed (x : str) : lastIndexOf (x ++ lit "')") (lit "')") = size x.
Proof.
  unfold lastIndexOf. rewrite lastIndexOf_from_suffix by (discriminate || lia). lia.
Qed.

Lemma substr_tag_brace (l : str) :
  substr l 44 7 = lit "HTML('{" -> substr l 44 6 = lit "HTML('".
Proof.
  rewrite !substr_within by lia. intros E.
  replace (take (Z.to_nat 6) (drop (Z.to_nat 44) l))
    with (take 6 (take (Z.to_nat 7) (drop (Z.to_nat 44) l)))
    by (rewrite take_take; reflexivity).
  rewrite E. reflexivity.
Qed.

Lemma text_of_closed (open text : str) (n : Z) :
  size open = n ->
  substring ((open ++ text) ++ lit "')") n (size (open ++ text)) = text.
Proof.
  intros Ho. pose proof (size_nonneg text). pose proof (size_nonneg open).
  rewrite MergeFacts.substring_within by (rewrite size_app; lia).
  rewrite <- app_assoc.
  rewrite drop_app_length' by (unfold size in Ho; lia).
  rewrite size_app. replace (Z.to_nat (size open + size text - n)) with (length text)
    by (unfold size in *; lia).
  apply take_app_length.
Qed.

Lemma text_of_continued (open text : str) (n : Z) (k : nat) :
  size open = n -> length text = k -> n + Z.of_nat k = 79 ->
  substring ((open ++ text) ++ lit "-") n 79 = text.
Proof.
  intros Ho Hk Hn. pose proof (size_nonneg open).
  rewrite MergeFacts.substring_within by lia.
  rewrite <- app_assoc.
  rewrite drop_app_length' by (unfold size in Ho; lia).
  apply take_app_length'. lia.
Qed.

(** The scan of the lines behind the first line of a chunk, [acc] being what
    has been read of the payload text: the text of the lines is added, and the
    whole is taken for a payload on the last line if it parses there. *)
Lemma scan_continuation : forall (fuel : nat) (text acc : str) (fs : list value),
  (length text < fuel)%nat ->
  Forall (fun l => substr l 44 6 <> lit "HTML('") (continuation_lines fuel text) ->
  scan_lines (St true acc fs) (continuation_lines fuel text)
  = match JSON_parse (unescape_quotes (acc ++ text)) with
    | Some v => Ok (St false [] (fs ++ [v]))
    | None => Ok (St true (acc ++ text) fs)
    end.
Proof.
  induction fuel as [|fuel IH]; intros text acc fs Hf HF; [lia|].
  cbn [continuation_lines] in *.
  destruct (size text =? 0) eqn:E0.
  - apply Z.eqb_eq in E0.
    assert (text = []) as ->
      by (destruct text; [reflexivity | unfold size in E0; simpl in E0; lia]).
    cbn [scan_lines]. unfold scan_line. cbn [isHtmlJsonTag htmlTag formats].
    change (str_eqb (substr (kwdOpen ++ lit "')") 44 6) (lit "HTML('")) with false.
    change (str_eqb (substr (kwdOpen ++ lit "')") 79 1) (lit "-")) with false.
    cbn [negb]. change (lastIndexOf (kwdOpen ++ lit "')") (lit "')")) with 44.
    change (substring (kwdOpen ++ lit "')") 44 44) with (@nil ascii).
    unfold addToFormats. destruct (JSON_parse _) as [v|]; cbn [mbind outcome_bind].
    + rewrite ScanFacts.open_tag_plain; [reflexivity|].
      intros E. vm_compute in E. discriminate E.
    + reflexivity.
  - destruct (35 <=? size text) eqn:E35;
      apply Forall_cons in HF as [Hl HF]; pose proof Hl as Hl';
      apply str_eqb_neq in Hl'.
    + apply Z.leb_le in E35.
      assert (Ht : length (take 35 text) = 35%nat)
        by (rewrite length_take; unfold size in E35; lia).
      assert (Hx : size (kwdOpen ++ take 35 text) = 79)
        by (rewrite size_app, size_kwdOpen; unfold size; lia).
      cbn [scan_lines]. unfold scan_line at 1. cbn [isHtmlJsonTag htmlTag formats].
      rewrite Hl'. rewrite (continues_dash _ Hx).
      change (str_eqb (lit "-") (lit "-")) with true. cbn [negb mbind outcome_bind].
      rewrite (text_of_continued kwdOpen (take 35 text) 44 35) by (reflexivity || lia).
      rewrite IH.
      * rewrite <- app_assoc, take_drop. reflexivity.
      * rewrite length_drop. unfold size in E35. lia.
      * exact HF.
    + apply Z.leb_gt in E35.
      assert (Hx : size (kwdOpen ++ text) <= 78)
        by (rewrite size_app, size_kwdOpen; lia).
      cbn [scan_lines]. unfold scan_line at 1. cbn [isHtmlJsonTag htmlTag formats].
      rewrite Hl'.
      pose proof (closed_not_continues _ Hx) as Hc. apply str_eqb_neq in Hc. rewrite Hc.
      cbn [negb]. rewrite lastIndexOf_closed.
      rewrite (text_of_closed kwdOpen text 44) by reflexivity.
      unfold addToFormats. destruct (JSON_parse _) as [v|]; cbn [mbind outcome_bind].
      * rewrite ScanFacts.open_tag_plain; [reflexivity|].
        intros E. apply Hl. apply substr_tag_brace. exact E.
      * reflexivity.
Qed.

Lemma first_line_tagged (n text : str) :
  size n = 3 -> substr (htmlOpen n ++ text) 44 6 = lit "HTML('".
Proof.
  intros Hn. destruct (MergeFacts.three_chars n Hn) as (a & b & c & ->).
  rewrite substr_within by lia. reflexivity.
Qed.

Lemma first_line_brace (n text : str) :
  size n = 3 ->
  (substr (htmlOpen n ++ text) 44 7 = lit "HTML('{" <-> head text = Some "{"%char).
Proof.
  intros Hn. destruct (MergeFacts.three_chars n Hn) as (a & b & c & ->).
  rewrite substr_within by lia.
  destruct text as [|x text]; (split; [intros E; vm_compute in E | intros E; cbn in E]).
  - discriminate E.
  - discriminate E.
  - injection E as ->. reflexivity.
  - injection E as ->. reflexivity.
Qed.

(** The scan of the lines of one chunk. *)
Lemma scan_chunk_layout (n chunk acc : str) (b : bool) (fs : list value) :
  size n = 3 -> size chunk <> 28 -> no_false_tag chunk ->
  (b = false -> acc = [] /\ head chunk = Some "{"%char) ->
  (b = true -> size chunk <= 27 -> head chunk <> Some "{"%char) ->
  scan_lines (St b acc fs) (chunk_layout (htmlOpen n) chunk)
  = match JSON_parse (unescape_quotes (acc ++ chunk)) with
    | Some v => Ok (St false [] (fs ++ [v]))
    | None => if (size chunk <=? 27) && negb b then Throw SyntaxError
              else Ok (St true (acc ++ chunk) fs)
    end.
Proof.
  intros Hn H28 Hft Hfirst Hlater.
  assert (Ho : size (htmlOpen n) = 50) by (rewrite size_htmlOpen; lia).
  pose proof (size_nonneg chunk) as Hc0.
  unfold chunk_layout. destruct (size chunk <=? 27) eqn:E.
  - apply Z.leb_le in E.
    assert (Hshort : substr (htmlOpen n ++ chunk ++ lit "')") 79 1 = []).
    { apply substr_79_short. rewrite !size_app, Ho. unfold size in *.
      change (length (lit "')")) with 2%nat. lia. }
    cbn [scan_lines andb]. unfold scan_line. cbn [isHtmlJsonTag htmlTag formats].
    destruct b; cbn [negb].
    + rewrite (first_line_tagged n _ Hn).
      change (str_eqb (lit "HTML('") (lit "HTML('")) with true. cbv iota.
      rewrite Hshort. change (str_eqb [] (lit "-")) with false. cbn [negb].
      rewrite app_assoc, lastIndexOf_closed.
      rewrite (text_of_closed (htmlOpen n) chunk 50 Ho).
      unfold addToFormats. destruct (JSON_parse _) as [v|]; cbn [mbind outcome_bind].
      * rewrite ScanFacts.open_tag_plain; [reflexivity|].
        rewrite <- app_assoc. intros Eb. apply (first_line_brace n _ Hn) in Eb.
        apply (Hlater eq_refl E). destruct chunk; [discriminate Eb | exact Eb].
      * reflexivity.
    + destruct (Hfirst eq_refl) as [-> Hh].
      unfold open_tag. cbn [isHtmlJsonTag htmlTag formats].
      assert (Hb : substr (htmlOpen n ++ chunk ++ lit "')") 44 7 = lit "HTML('{").
      { apply (first_line_brace n _ Hn). destruct chunk; [discriminate Hh | exact Hh]. }
      rewrite Hb. change (str_eqb (lit "HTML('{") (lit "HTML('{")) with true. cbv iota.
      rewrite Hshort. change (str_eqb [] (lit "-")) with false. cbn [negb].
      rewrite app_assoc, lastIndexOf_closed.
      rewrite (text_of_closed (htmlOpen n) chunk 50 Ho).
      unfold addToFormats. destruct (JSON_parse _) as [v|]; reflexivity.
  - apply Z.leb_gt in E. cbn [andb].
    assert (Ht : length (take 29 chunk) = 29%nat)
      by (rewrite length_take; unfold size in *; lia).
    assert (Hx : size (htmlOpen n ++ take 29 chunk) = 79)
      by (rewrite size_app, Ho; unfold size; lia).
    assert (Hcont : substr (htmlOpen n ++ take 29 chunk ++ lit "-") 79 1 = lit "-").
    { rewrite app_assoc. apply (continues_dash _ Hx). }
    assert (Htext : substring (htmlOpen n ++ take 29 chunk ++ lit "-") 50 79 = take 29 chunk).
    { rewrite app_assoc. apply (text_of_continued (htmlOpen n) (take 29 chunk) 50 29); [exact Ho | exact Ht | lia]. }
    assert (Hrest : (length (drop 29 chunk) < S (length chunk))%nat)
      by (rewrite length_drop; lia).
    cbn [scan_lines]. unfold scan_line at 1. cbn [isHtmlJsonTag htmlTag formats].
    destruct b.
    + rewrite (first_line_tagged n _ Hn).
      change (str_eqb (lit "HTML('") (lit "HTML('")) with true. cbv iota.
      rewrite Hcont. change (str_eqb (lit "-") (lit "-")) with true.
      cbn [negb mbind outcome_bind]. rewrite Htext.
      rewrite (scan_continuation _ _ _ _ Hrest Hft).
      rewrite <- app_assoc, take_drop. reflexivity.
    + destruct (Hfirst eq_refl) as [-> Hh].
      unfold open_tag. cbn [isHtmlJsonTag htmlTag formats].
      assert (Hb : substr (htmlOpen n ++ take 29 chunk ++ lit "-") 44 7 = lit "HTML('{").
      { apply (first_line_brace n _ Hn). destruct chunk; [discriminate Hh | exact Hh]. }
      rewrite Hb. change (str_eqb (lit "HTML('{") (lit "HTML('{")) with true. cbv iota.
      rewrite Hcont. change (str_eqb (lit "-") (lit "-")) with true.
      cbn [negb mbind outcome_bind]. rewrite Htext.
      rewrite (scan_continuation _ _ _ _ Hrest Hft).
      rewrite <- app_assoc, take_drop. reflexivity.
Qed.

(** The scan of the lines of the chunks of a payload. *)
Lemma scan_layout (n : str) (Hn : size n = 3) (v : value) :
  forall (chunks : list str) (b : bool) (acc : str) (fs : list value),
    chunks <> [] ->
    Forall (fun c => 29 <= size c) (removelast chunks) ->
    Forall (fun c => size c <> 28) chunks ->
    Forall no_false_tag chunks ->
    (b = false -> acc = [] /\ exists first, head chunks = Some ("{"%char :: first)) ->
    Forall (fun c => size c <= 27 -> head c <> Some "{"%char)
           (if b then chunks else tail chunks) ->
    (forall k, (0 < k < length chunks)%nat ->
               JSON_parse (unescape_quotes (acc ++ concat (take k chunks))) = None) ->
    JSON_parse (unescape_quotes (acc ++ concat chunks)) = Some v ->
    scan_lines (St b acc fs) (layout (htmlOpen n) chunks) = Ok (St false [] (fs ++ [v])).
Proof.
  induction chunks as [|c chunks IH]; intros b acc fs Hne Hlong H28 Hft Hfirst Hlater Hpre Hall;
    [contradiction|].
  apply Forall_cons in H28 as [H28c H28]. apply Forall_cons in Hft as [Hftc Hft].
  assert (Hfirst_c : b = false -> acc = [] /\ head c = Some "{"%char).
  { intros Hb. destruct (Hfirst Hb) as [-> (first & [= ->])]. split; reflexivity. }
  assert (Hlater_c : b = true -> size c <= 27 -> head c <> Some "{"%char).
  { intros ->. apply Forall_cons in Hlater as [Hc _]. exact Hc. }
  assert (Hlater' : Forall (fun c => size c <= 27 -> head c <> Some "{"%char) chunks).
  { destruct b; [apply Forall_cons in Hlater as [_ Ht]; exact Ht | exact Hlater]. }
  pose proof (scan_chunk_layout n c acc b fs Hn H28c Hftc Hfirst_c Hlater_c) as Hscan.
  cbn [layout]. rewrite scan_lines_app, Hscan.
  destruct chunks as [|c2 rest].
  - cbn [concat] in Hall. rewrite app_nil_r in Hall. rewrite Hall.
    cbn [mbind outcome_bind]. destruct (size c <=? 27); reflexivity.
  - change (removelast (c :: c2 :: rest)) with (c :: removelast (c2 :: rest)) in Hlong.
    apply Forall_cons in Hlong as [Hc29 Hlong].
    replace (size c <=? 27) with false by (symmetry; apply Z.leb_gt; lia).
    pose proof (Hpre 1%nat ltac:(cbn [length]; lia)) as Hp1.
    cbn [take concat] in Hp1. rewrite app_nil_r in Hp1. rewrite Hp1.
    cbn [andb mbind outcome_bind].
    apply IH.
    + discriminate.
    + exact Hlong.
    + exact H28.
    + exact Hft.
    + discriminate.
    + exact Hlater'.
    + intros k Hk. specialize (Hpre (S k) ltac:(cbn [length] in *; lia)).
      cbn [take concat] in Hpre. rewrite app_assoc in Hpre. exact Hpre.
    + cbn [concat] in Hall. rewrite app_assoc in Hall. exact Hall.
Qed.

End RoundTripFacts.
End RoundTripFacts.

(** X10: the scanner reads back the payload that the renderer wrote, also
    between other lines: when the runtime parses the text of the payload back
    to it and the chunks of the escaped text are as [scannable] says (for a
    text of at most 2500 characters, which is one chunk: it starts with an
    opening brace, has not 28 characters, and no continuation line starts its
    text with [HTML(']), the payloads of a document that holds the rendered
    lines behind a part whose scan ends outside a tag are the payloads of that
    part, the payload rendered, and the payloads of what follows. *)
Theorem getFormatsFromSrc_rendered `{JsRuntime} (obj : value) (htmlLineNum : str)
    (chunks : list str) (before after : list str) (st : scan_state) :
  size htmlLineNum = 3 ->
  JSON_parse (JSON_stringify obj) = Some obj ->
  chunkData (escape_quotes (JSON_stringify obj)) 2500 = Ok chunks ->
  scannable chunks ->
  scan_lines scan_start before = Ok st ->
  isHtmlJsonTag st = false ->
  exists lines,
    htmlObjToDdsLines (Some obj) htmlLineNum = Ok lines /\
    getFormatsFromSrc (before ++ lines ++ after)
    = found ← getFormatsFromSrc after; Ok (formats st ++ obj :: found).
Proof.
  intros Hn Hparse Hchunks (Hfirst & Hlong & H28 & Hft & Hlater & Hpre) Hrun Hout.
  rewrite htmlObjToDdsLines_layout by exact Hn. rewrite Hchunks.
  exists (layout (htmlOpen htmlLineNum) chunks). split; [reflexivity|].
  assert (Hbuf : htmlTag st = []).
  { apply (scan_lines_cleared before scan_start st); [intros _; reflexivity | exact Hrun | exact Hout]. }
  destruct st as [b tag fs]. cbn [isHtmlJsonTag htmlTag formats] in *. subst b tag.
  unfold getFormatsFromSrc.
  rewrite scan_lines_app, Hrun. cbn [mbind outcome_bind].
  rewrite scan_lines_app.
  rewrite (RoundTripFacts.scan_layout htmlLineNum Hn obj chunks false [] fs).
  - cbn [mbind outcome_bind].
    pose proof (ScanFacts.scan_lines_frame (fs ++ [obj]) after scan_start) as Hf.
    change (with_formats (fs ++ [obj]) scan_start)
      with {| isHtmlJsonTag := false; htmlTag := []; formats := (fs ++ [obj]) ++ [] |} in Hf.
    rewrite app_nil_r in Hf. rewrite Hf.
    destruct (scan_lines scan_start after) as [st'| |]; cbn [mbind outcome_bind];
      [|reflexivity..].
    unfold with_formats. cbn [formats]. rewrite <- app_assoc. reflexivity.
  - destruct Hfirst as (first & Hh). intros ->. discriminate Hh.
  - exact Hlong.
  - exact H28.
  - exact Hft.
  - intros _. split; [reflexivity | exact Hfirst].
  - exact Hlater.
  - exact Hpre.
  - cbn [app]. rewrite (chunkData_concat _ 2500 chunks ltac:(lia) Hchunks).
    rewrite unescape_escape. exact Hparse.
Qed.

Lemma getFormatsFromSrc_rendered_witness :
  exists lines,
    htmlObjToDdsLines (Some payload1) (lit "  1") = Ok lines /\
    getFormatsFromSrc ([header1; tag1; tag2; header1] ++ lines ++ [field1])
    = found ← getFormatsFromSrc [field1]; Ok ([payload1] ++ payload1 :: found).
Proof.
  apply (getFormatsFromSrc_rendered payload1 (lit "  1")
           [Sample.json "{`screen`:{`record format name`:`RECFMT1`},`items`:[]}"]
           [header1; tag1; tag2; header1] [field1]
           {| isHtmlJsonTag := false; htmlTag := []; formats := [payload1] |}).
  - reflexivity.
  - vm_compute. reflexivity.
  - vm_compute. reflexivity.
  - split; [eexists; reflexivity|].
    split; [constructor|].
    split; [repeat constructor; vm_compute; discriminate|].
    split; [repeat constructor; intros E; vm_compute in E; discriminate E|].
    split; [constructor|].
    intros k Hk. cbn [length] in Hk. lia.
  - vm_compute. reflexivity.
  - reflexivity.
Defined.

(** ** White space at the end of a string *)

Lemma trimLeft_suffix (s : str) : exists w, s = w ++ trimLeft s.
Proof.
  induction s as [|c s [w IH]]; [exists []; reflexivity|].
  cbn [trimLeft]. destruct (is_js_space c).
  - exists (c :: w). cbn [app]. f_equal. exact IH.
  - exists []. reflexivity.
Qed.

Lemma trimLeft_head (s : str) (c : ascii) :
  head (trimLeft s) = Some c -> is_js_space c = false.
Proof.
  induction s as [|x s IH]; [discriminate|].
  cbn [trimLeft]. destruct (is_js_space x) eqn:E; [exact IH|].
  intros [= <-]. exact E.
Qed.

Lemma trimRight_prefix (s : str) : trimRight s `prefix_of` s.
Proof.
  unfold trimRight. destruct (trimLeft_suffix (rev s)) as [w Hw].
  exists (rev w). rewrite <- rev_app_distr, <- Hw, rev_involutive. reflexivity.
Qed.

Lemma trimRight_last (s : str) (c : ascii) :
  last (trimRight s) = Some c -> is_js_space c = false.
Proof.
  unfold trimRight. intros Hl. apply (trimLeft_head (rev s)).
  destruct (trimLeft (rev s)) as [|x t] eqn:E; [discriminate Hl|].
  cbn [rev head] in *. rewrite last_snoc in Hl. exact Hl.
Qed.

Lemma size_trimRight (s : str) : size (trimRight s) <= size s.
Proof.
  destruct (trimRight_prefix s) as [w Hw]. rewrite Hw at 2. rewrite size_app.
  pose proof (size_nonneg w). lia.
Qed.

(** ** The file-level keywords *)

Module KeywordsFacts.
Import Keywords.

Lemma keywords_loop_stops (l : str) (after : list str) :
  substr l 5 2 = lit "A " -> substr l 16 1 = lit "R" ->
  forall (before : list str) (keywords : list str),
    keywords_loop (before ++ l :: after) keywords = keywords_loop before keywords.
Proof.
  intros HA HR. induction before as [|x before IH]; intros keywords.
  - cbn [app keywords_loop]. rewrite HA, HR. reflexivity.
  - cbn [app keywords_loop].
    destruct (_ && _); [reflexivity|].
    destruct (_ || _); [|apply IH].
    destruct (negb _); apply IH.
Qed.

Lemma keywords_loop_spec (P : str -> Prop) (srcLines : list str) :
  (forall line, line ∈ srcLines ->
     substr line 5 2 = lit "A " \/ substr line 5 5 = lit "A*PUI" ->
     trimRight (substr line 44 36) <> [] ->
     P (trimRight (substr line 44 36))) ->
  forall keywords, Forall P keywords -> Forall P (keywords_loop srcLines keywords).
Proof.
  induction srcLines as [|line srcLines IH]; intros Hstep keywords HF; [exact HF|].
  cbn [keywords_loop].
  assert (Hrest : forall l, l ∈ srcLines ->
            substr l 5 2 = lit "A " \/ substr l 5 5 = lit "A*PUI" ->
            trimRight (substr l 44 36) <> [] -> P (trimRight (substr l 44 36))).
  { intros l Hl. apply Hstep. apply list_elem_of_further. exact Hl. }
  destruct (_ && _); [exact HF|].
  destruct (str_eqb (substr line 5 2) (lit "A ") || str_eqb (substr line 5 5) (lit "A*PUI")) eqn:Ek;
    [|apply IH; assumption].
  destruct (negb (str_eqb (trimRight (substr line 44 36)) [])) eqn:En;
    [|apply IH; assumption].
  apply IH; [exact Hrest|]. apply Forall_app. split; [exact HF|].
  constructor; [|constructor]. apply Hstep.
  - apply list_elem_of_here.
  - apply orb_true_iff in Ek as [Ek|Ek]; apply str_eqb_eq in Ek; auto.
  - apply negb_true_iff, str_eqb_neq in En. exact En.
Qed.

End KeywordsFacts.

Import Keywords.

(** X11: the keywords are read up to the first line that has [A ] in
    columns 6-7 and [R] in column 17, the first record format: that line and
    the lines behind it add nothing. *)
Theorem getKeywordsFromSrc_stops (before after : list str) (l : str) :
  substr l 5 2 = lit "A " ->
  substr l 16 1 = lit "R" ->
  getKeywordsFromSrc (before ++ l :: after) = getKeywordsFromSrc before.
Proof.
  intros HA HR. apply KeywordsFacts.keywords_loop_stops; assumption.
Qed.

Lemma getKeywordsFromSrc_stops_witness :
  getKeywordsFromSrc ([lit "     A                                      ALLINONE"]
                      ++ header1 :: [lit "     A                                      SFLCTL(SFL1)"])
  = getKeywordsFromSrc [lit "     A                                      ALLINONE"].
Proof.
  apply (getKeywordsFromSrc_stops [lit "     A                                      ALLINONE"]
           [lit "     A                                      SFLCTL(SFL1)"] header1);
    reflexivity.
Defined.

(** X12: every keyword returned is the keyword area (columns 45 to 80,
    without the white space at its end) of a line of the document that has
    [A ] or [A*PUI] from column 6; it is not empty, has at most 36 characters
    and does not end with white space. *)
Theorem getKeywordsFromSrc_keywords (srcLines : list str) :
  Forall (fun k =>
            k <> [] /\ size k <= 36 /\
            (forall c, last k = Some c -> is_js_space c = false) /\
            exists line, line ∈ srcLines /\
              (substr line 5 2 = lit "A " \/ substr line 5 5 = lit "A*PUI") /\
              k = trimRight (substr line 44 36))
         (getKeywordsFromSrc srcLines).
Proof.
  unfold getKeywordsFromSrc. apply KeywordsFacts.keywords_loop_spec; [|constructor].
  intros line Hin Hk Hne. split; [exact Hne|]. split.
  - pose proof (size_trimRight (substr line 44 36)).
    pose proof (RendererFacts.size_substr line 44 36 ltac:(lia) ltac:(lia)). lia.
  - split; [apply trimRight_last|]. exists line. auto.
Qed.

(** ** The raw-text assembler *)

Module EchoFacts.
Section EchoFacts.
Context `{JsRuntime}.
Import Assembler EchoSpec MergeSpec MergeFacts RendererSpec RendererFacts.

Lemma blank_controls_clean (line : str) :
  Forall (fun c => is_control c = false) (blank_controls line).
Proof.
  unfold blank_controls. apply Forall_forall. intros c Hc.
  apply list_elem_of_In, in_map_iff in Hc as (x & <- & _).
  unfold is_control at 1. cbv zeta.
  destruct ((nat_of_ascii x <=? 9)%nat
            || (11 <=? nat_of_ascii x)%nat && (nat_of_ascii x <=? 31)%nat
            || (127 <=? nat_of_ascii x)%nat && (nat_of_ascii x <=? 159)%nat) eqn:E.
  - reflexivity.
  - exact E.
Qed.

Lemma blank_controls_kept (x y : ascii) :
  (let n := nat_of_ascii x in
   if ((n <=? 9) || ((11 <=? n) && (n <=? 31)) || ((127 <=? n) && (n <=? 159)))%nat
   then " "%char else x) = y ->
  y <> " "%char -> x = y.
Proof.
  cbv zeta. destruct (_ || _); intros E Hy; [exfalso; apply Hy; symmetry|]; exact E.
Qed.

Lemma echoed_not_comment (line : str) :
  substr (echoed line) 5 4 = lit "A*%%" -> substr line 5 4 = lit "A*%%".
Proof.
  rewrite !substr_within by lia.
  change (Z.to_nat 4) with 4%nat. change (Z.to_nat 5) with 5%nat.
  unfold echoed. destruct (trimRight_prefix (blank_controls line)) as [w Hw].
  set (t := trimRight (blank_controls line)) in *. intros Ht.
  assert (Hlen : (4 <= length (drop 5 t))%nat).
  { apply (f_equal length) in Ht. rewrite length_take in Ht.
    change (length (lit "A*%%")) with 4%nat in Ht. lia. }
  assert (Hb : take 4 (drop 5 (blank_controls line)) = lit "A*%%").
  { rewrite Hw. rewrite length_drop in Hlen.
    rewrite drop_app_le by lia. rewrite take_app_le by (rewrite length_drop; lia).
    exact Ht. }
  unfold blank_controls in Hb. rewrite skipn_map, firstn_map in Hb.
  destruct (take 4 (drop 5 line)) as [|a [|b [|c [|d [|e r]]]]]; try discriminate Hb.
  cbn [map] in Hb. injection Hb as Ha Hb Hc Hd.
  apply blank_controls_kept in Ha, Hb, Hc, Hd; try discriminate.
  subst. reflexivity.
Qed.

Lemma echoed_clean (line : str) : echoable line = true -> clean (echoed line).
Proof.
  intros He. split; [|split].
  - unfold echoed. destruct (trimRight_prefix (blank_controls line)) as [w Hw].
    pose proof (blank_controls_clean line) as HF. rewrite Hw in HF.
    apply Forall_app in HF as [HF _]. exact HF.
  - apply trimRight_last.
  - intros Hs. apply echoed_not_comment in Hs.
    unfold echoable in He. apply andb_true_iff in He as [_ He].
    apply negb_true_iff, str_eqb_neq in He. contradiction.
Qed.

Lemma echoes_clean (srcLines : list str) : Forall clean (echoes srcLines).
Proof.
  induction srcLines as [|line srcLines IH]; [constructor|].
  cbn [echoes]. destruct (echoable line) eqn:E; [|exact IH].
  constructor; [apply echoed_clean; exact E | exact IH].
Qed.

Lemma echoes_sublist_drop (k : nat) : forall srcLines : list str,
  echoes (drop k srcLines) `sublist_of` echoes srcLines.
Proof.
  induction k as [|k IH]; intros srcLines; [rewrite drop_0; reflexivity|].
  destruct srcLines as [|line srcLines]; [constructor|].
  cbn [drop echoes]. destruct (echoable line); [apply sublist_cons|]; apply IH.
Qed.

Lemma echoes_sublist_later (srcLines : list str) (i j : nat) :
  (i <= j)%nat -> echoes (drop j srcLines) `sublist_of` echoes (drop i srcLines).
Proof.
  intros Hij. replace j with (i + (j - i))%nat by lia.
  rewrite <- drop_drop. apply echoes_sublist_drop.
Qed.

Lemma echo_line_cases (st : echo_state) (line : str) :
  echo_line st line = returnDds st \/
  (echoable line = true /\ echo_line st line = returnDds st ++ [echoed line]).
Proof.
  unfold echo_line. fold (echoable line).
  destruct (echoable line); [|left; reflexivity].
  destruct (match boundFields st with Some _ => _ | None => _ end);
    [left | right; split]; reflexivity.
Qed.

Lemma skip_control_from (srcLines : list str) : forall (fuel i j : nat),
  skip_control fuel srcLines i = Ok j -> (i <= j)%nat.
Proof.
  induction fuel as [|fuel IH]; intros i j Hrun; [discriminate|].
  cbn [skip_control] in Hrun.
  destruct (Merge.line_at _ _ _) as [cur| |]; cbn [mbind outcome_bind] in Hrun;
    [|discriminate..].
  destruct (str_eqb _ _).
  - apply IH in Hrun. lia.
  - injection Hrun as <-. lia.
Qed.

Lemma skip_screen_from (st : echo_state) (srcLines : list str) :
  forall (fuel i j : nat) (fields : option (list str)),
    skip_screen fuel st srcLines i = Ok (j, fields) -> (i <= j)%nat.
Proof.
  induction fuel as [|fuel IH]; intros i j fields Hrun; [discriminate|].
  cbn [skip_screen] in Hrun.
  destruct (srcLines !! i) as [cur|]; [|injection Hrun as <- _; lia].
  destruct (_ && _); [|apply IH in Hrun; lia].
  destruct (Merge.line_at srcLines (Z.of_nat i + 1) _) as [next| |];
    cbn [mbind outcome_bind] in Hrun; [|discriminate..].
  destruct (negb (str_eqb (substr next 44 6) _)); [|apply IH in Hrun; lia].
  destruct (Merge.line_at srcLines (Z.of_nat i - 1) _) as [prev| |];
    cbn [mbind outcome_bind] in Hrun; [|discriminate..].
  destruct (negb (_ =? _)); [|apply IH in Hrun; lia].
  destruct (rcdFmtObj st); [|discriminate].
  destruct (getBoundFields _); cbn [mbind outcome_bind] in Hrun; [|discriminate..].
  injection Hrun as <- _. lia.
Qed.

(** What the loop returns is what it had, followed by lines echoed of the
    lines it had not come to, in their order. *)
Lemma echo_loop_echoes (found : list value) (srcLines : list str) :
  forall (fuel i : nat) (st : echo_state) (out : list str),
    echo_loop fuel found srcLines i st = Ok out ->
    exists extra, out = returnDds st ++ extra /\
                  extra `sublist_of` echoes (drop i srcLines).
Proof.
  induction fuel as [|fuel IH]; intros i st out Hrun; [discriminate|].
  cbn [echo_loop] in Hrun.
  destruct (srcLines !! i) as [line|] eqn:Hline.
  2:{ injection Hrun as <-. exists []. rewrite app_nil_r. split; [reflexivity|].
      apply sublist_nil_l. }
  set (st1 := if str_eqb (substr line 5 12) Merge.rcdFmtOpen then _ else Ok st) in Hrun.
  assert (Hst1 : forall s, st1 = Ok s -> returnDds s = returnDds st).
  { subst st1. intros s. destruct (str_eqb (substr line 5 12) _).
    - destruct (filter_formats _ _); cbn [mbind outcome_bind]; [|discriminate..].
      intros [= <-]. reflexivity.
    - intros [= <-]. reflexivity. }
  destruct st1 as [s| |]; cbn [mbind outcome_bind] in Hrun; [|discriminate..].
  specialize (Hst1 s eq_refl).
  destruct (_ && _).
  - destruct (skip_control _ _ _) as [j| |] eqn:Hj; cbn [mbind outcome_bind] in Hrun;
      [|discriminate..].
    apply skip_control_from in Hj.
    destruct (IH _ _ _ Hrun) as (extra & -> & Hsub).
    exists extra. rewrite Hst1. split; [reflexivity|].
    etransitivity; [exact Hsub|]. apply echoes_sublist_later. lia.
  - destruct (_ && _).
    + destruct (skip_screen _ _ _ _) as [[j fields]| |] eqn:Hj;
        cbn [mbind outcome_bind] in Hrun; [|discriminate..].
      apply skip_screen_from in Hj.
      destruct (IH _ _ _ Hrun) as (extra & -> & Hsub).
      exists extra. cbn [returnDds]. rewrite Hst1. split; [reflexivity|].
      etransitivity; [exact Hsub|]. apply echoes_sublist_later. lia.
    + destruct (IH _ _ _ Hrun) as (extra & -> & Hsub). cbn [returnDds].
      rewrite (drop_S _ _ _ Hline). cbn [echoes].
      destruct (echo_line_cases s line) as [->|[He ->]].
      * exists extra. rewrite Hst1. split; [reflexivity|].
        destruct (echoable line); [apply sublist_cons|]; exact Hsub.
      * exists (echoed line :: extra). rewrite Hst1, He, <- app_assoc.
        split; [reflexivity|]. apply sublist_skip. exact Hsub.
Qed.

End EchoFacts.
End EchoFacts.

Import Assembler EchoSpec.

(** X13: the lines the assembler returns are lines of the document, in
    their order: each is echoed of a line that is neither empty nor a designer
    comment [A*%%], with the characters of the class blanked and the white
    space at its end taken off. *)
Theorem getDdsFromSrc_echoes `{JsRuntime} (srcLines out : list str) :
  getDdsFromSrc srcLines = Ok out ->
  out `sublist_of` echoes srcLines.
Proof.
  unfold getDdsFromSrc. intros Hrun.
  destruct (Scanner.getFormatsFromSrc srcLines) as [found| |];
    cbn [mbind outcome_bind] in Hrun; [|discriminate..].
  destruct (EchoFacts.echo_loop_echoes found srcLines _ _ _ _ Hrun) as (extra & -> & Hsub).
  rewrite drop_0 in Hsub. exact Hsub.
Qed.

Lemma getDdsFromSrc_echoes_witness :
  [header1; field2; field1] `sublist_of` echoes [header1; field2; tag1; tag2; field1; []].
Proof.
  apply (getDdsFromSrc_echoes [header1; field2; tag1; tag2; field1; []]).
  vm_compute. reflexivity.
Defined.

(** X14: no line the assembler returns holds a character of the class
    [[\x00-\x09\x0B-\x1F\x7F-\x9F]], ends with white space or is a designer
    comment [A*%%]. *)
Theorem getDdsFromSrc_clean `{JsRuntime} (srcLines out : list str) :
  getDdsFromSrc srcLines = Ok out ->
  Forall clean out.
Proof.
  unfold getDdsFromSrc. intros Hrun.
  destruct (Scanner.getFormatsFromSrc srcLines) as [found| |];
    cbn [mbind outcome_bind] in Hrun; [|discriminate..].
  destruct (EchoFacts.echo_loop_echoes found srcLines _ _ _ _ Hrun) as (extra & -> & Hsub).
  apply Forall_forall. intros l Hl.
  pose proof (EchoFacts.echoes_clean (drop 0 srcLines)) as HF.
  rewrite Forall_forall in HF. apply HF.
  eapply elem_of_sublist; [exact Hl | exact Hsub].
Qed.

Lemma getDdsFromSrc_clean_witness :
  Forall clean [header1; field2; field1].
Proof.
  apply (getDdsFromSrc_clean [header1; field2; tag1; tag2; field1; []]).
  vm_compute. reflexivity.
Defined.

Module EchoEndFacts.
Section EchoEndFacts.
Context `{JsRuntime}.
Import MergeSpec MergeFacts RendererSpec RendererFacts.

Lemma substr_tag_control (l : str) :
  substr l 44 10 = lit "HTML('QPUI" -> substr l 44 6 = lit "HTML('".
Proof.
  rewrite !substr_within by lia. intros E.
  replace (take (Z.to_nat 6) (drop (Z.to_nat 44) l))
    with (take 6 (take (Z.to_nat 10) (drop (Z.to_nat 44) l)))
    by (rewrite take_take; reflexivity).
  rewrite E. reflexivity.
Qed.

Lemma substr_brace_control (l : str) :
  substr l 44 7 = lit "HTML('{" -> substr l 44 10 <> lit "HTML('QPUI".
Proof.
  rewrite !substr_within by lia. intros E E'.
  assert (Ht : take 7 (take (Z.to_nat 10) (drop (Z.to_nat 44) l)) = lit "HTML('{").
  { rewrite take_take. exact E. }
  rewrite E' in Ht. discriminate Ht.
Qed.

(** The inner loop comes to the last line of the document: the read of the
    line behind it throws. *)
Lemma skip_screen_at_end (st : echo_state) (srcLines : list str) (last : str) :
  srcLines !! (length srcLines - 1)%nat = Some last ->
  tagged last -> ~ continues last ->
  forall (fuel i : nat),
    (length srcLines - i < fuel)%nat ->
    (i < length srcLines)%nat ->
    (forall j l, (i <= j)%nat -> (S j < length srcLines)%nat ->
                 srcLines !! j = Some l -> continues l) ->
    skip_screen fuel st srcLines i = Throw (TypeError (lit "substr")).
Proof.
  intros Hlast Htag Hclosed.
  induction fuel as [|fuel IH]; intros i Hf Hi Hcont; [lia|].
  cbn [skip_screen].
  destruct (lookup_lt_is_Some_2 srcLines i Hi) as [cur Hcur]. rewrite Hcur.
  destruct (decide (S i = length srcLines)) as [Hend|Hmore].
  - replace (length srcLines - 1)%nat with i in Hlast by lia.
    rewrite Hcur in Hlast. injection Hlast as ->.
    unfold tagged in Htag. rewrite Htag.
    change (str_eqb (lit "A ") (lit "A ")) with true.
    unfold continues in Hclosed. apply str_eqb_neq in Hclosed. rewrite Hclosed.
    cbn [andb negb]. unfold Merge.line_at.
    replace (Z.of_nat i + 1 <? 0) with false by (symmetry; apply Z.ltb_ge; lia).
    replace (Z.to_nat (Z.of_nat i + 1)) with (S i) by lia.
    rewrite (lookup_ge_None_2 srcLines (S i)) by lia. reflexivity.
  - pose proof (Hcont i cur ltac:(lia) ltac:(lia) Hcur) as Hc.
    unfold continues in Hc. rewrite Hc.
    change (str_eqb (lit "-") (lit "-")) with true. cbn [negb]. rewrite andb_false_r.
    apply IH; [lia | lia |].
    intros j l Hj. apply Hcont. lia.
Qed.

(** The loop over the lines before the payload: it fails in the search of a
    payload for a header, or comes to the payload outside a subfile. *)
Lemma echo_loop_before (found : list value) (srcLines : list str) (k : nat) :
  (k <= length srcLines)%nat ->
  (forall j l, (j < k)%nat -> srcLines !! j = Some l -> before_payload l) ->
  forall (d i fuel : nat) (st : echo_state),
    (i + d = k)%nat ->
    isSFL st = false ->
    (exists what, echo_loop (d + fuel) found srcLines i st = Throw (TypeError what)) \/
    (exists st', isSFL st' = false /\
                 echo_loop (d + fuel) found srcLines i st = echo_loop fuel found srcLines k st').
Proof.
  intros Hk Hbefore.
  induction d as [|d IH]; intros i fuel st Hi Hsfl.
  - right. exists st. replace i with k by lia. split; [exact Hsfl | reflexivity].
  - cbn [Nat.add echo_loop].
    destruct (lookup_lt_is_Some_2 srcLines i ltac:(lia)) as [line Hline]. rewrite Hline.
    destruct (Hbefore i line ltac:(lia) Hline) as [Hnotag Hnosfl].
    assert (Hc : str_eqb (substr line 44 10) (Merge.htmlOpen ++ lit "QPUI") = false).
    { apply str_eqb_neq. intros E. apply Hnotag. apply substr_tag_control. exact E. }
    assert (Hs : str_eqb (substr line 44 7) (Merge.htmlOpen ++ lit "{") = false).
    { apply str_eqb_neq. intros E. apply Hnotag.
      apply RoundTripFacts.substr_tag_brace. exact E. }
    destruct (str_eqb (substr line 5 12) Merge.rcdFmtOpen) eqn:Hh.
    + destruct (filter_formats_outcome (Some (trimRight (substr line 18 10))) found)
        as [(objs & ->)|(what & _ & ->)]; cbn [mbind outcome_bind].
      * rewrite Hc, Hs, !andb_false_r.
        apply IH; [lia|]. cbn [isSFL]. apply str_eqb_neq. apply Hnosfl. reflexivity.
      * left. exists what. reflexivity.
    + cbn [mbind outcome_bind]. rewrite Hc, Hs, !andb_false_r.
      apply IH; [lia|]. cbn [isSFL]. exact Hsfl.
Qed.

(** A document that ends with the lines of a screen payload. *)
Lemma echo_payload_at_end (before init : list str) (last tag : str) (found : list value) :
  Scanner.getFormatsFromSrc (before ++ init ++ [last]) = Ok found ->
  Forall before_payload before ->
  head (init ++ [last]) = Some tag ->
  MergeSpec.is_header tag = false ->
  MergeSpec.opens_payload tag = true ->
  Forall RendererSpec.continues init ->
  MergeSpec.tagged last ->
  ~ RendererSpec.continues last ->
  exists what, getDdsFromSrc (before ++ init ++ [last]) = Throw (TypeError what).
Proof.
  intros Hscan Hbefore Htag Hnh Hopen Hcont Hlt Hclosed.
  unfold getDdsFromSrc. rewrite Hscan. cbn [mbind outcome_bind].
  set (srcLines := before ++ init ++ [last]).
  assert (Hlen : length srcLines = (length before + length init + 1)%nat).
  { subst srcLines. rewrite !length_app. cbn [length]. lia. }
  replace (S (length srcLines)) with (length before + S (length init + 1))%nat by lia.
  destruct (echo_loop_before found srcLines (length before) ltac:(lia))
    with (d := length before) (i := 0%nat) (fuel := S (length init + 1)) (st := echo_start)
    as [Hfail|(st' & Hsfl & ->)].
  - intros j l Hj Hl. subst srcLines. rewrite lookup_app_l in Hl by exact Hj.
    rewrite Forall_forall in Hbefore. apply Hbefore.
    apply list_elem_of_lookup. exists j. exact Hl.
  - lia.
  - reflexivity.
  - exact Hfail.
  - assert (Hk : srcLines !! length before = Some tag).
    { subst srcLines. rewrite lookup_app_r by lia.
      replace (length before - length before)%nat with 0%nat by lia.
      destruct (init ++ [last]); [discriminate Htag | exact Htag]. }
    cbn [echo_loop]. rewrite Hk.
    unfold MergeSpec.is_header in Hnh. rewrite Hnh. cbn [mbind outcome_bind].
    unfold MergeSpec.opens_payload in Hopen. apply andb_true_iff in Hopen as [Ha Hb].
    rewrite Ha, Hb.
    replace (str_eqb (substr tag 44 10) (Merge.htmlOpen ++ lit "QPUI")) with false.
    2:{ symmetry. apply str_eqb_neq. apply substr_brace_control.
        apply str_eqb_eq in Hb. exact Hb. }
    rewrite Hsfl. cbn [andb negb].
    rewrite (skip_screen_at_end st' srcLines last).
    + exists (lit "substr"). reflexivity.
    + subst srcLines. rewrite Hlen.
      replace (length before + length init + 1 - 1)%nat with (length before + length init)%nat by lia.
      rewrite lookup_app_r by lia. rewrite lookup_app_r by lia.
      replace (length before + length init - length before - length init)%nat with 0%nat by lia.
      reflexivity.
    + exact Hlt.
    + exact Hclosed.
    + lia.
    + lia.
    + intros j l Hj Hj' Hl. subst srcLines.
      rewrite lookup_app_r in Hl by lia. rewrite lookup_app_l in Hl by lia.
      rewrite Forall_forall in Hcont. apply Hcont.
      apply list_elem_of_lookup. eexists. exact Hl.
Qed.

End EchoEndFacts.
End EchoEndFacts.

(** X15: a document that ends with the lines of a screen payload, the last
    line closing the tag, makes the assembler fail with a [TypeError]: in
    the search of the end of the payload it reads the line behind the last
    one. The lines before the payload are lines without a tag of their own,
    outside a subfile. *)
Theorem getDdsFromSrc_payload_at_end `{JsRuntime} (before init : list str) (last tag : str)
    (found : list value) :
  Scanner.getFormatsFromSrc (before ++ init ++ [last]) = Ok found ->
  Forall before_payload before ->
  head (init ++ [last]) = Some tag ->
  MergeSpec.is_header tag = false ->
  MergeSpec.opens_payload tag = true ->
  Forall RendererSpec.continues init ->
  MergeSpec.tagged last ->
  ~ RendererSpec.continues last ->
  exists what, getDdsFromSrc (before ++ init ++ [last]) = Throw (TypeError what).
Proof. apply EchoEndFacts.echo_payload_at_end. Qed.

Lemma getDdsFromSrc_payload_at_end_witness :
  exists what, getDdsFromSrc ([header1; field1] ++ [tag1] ++ [tag2]) = Throw (TypeError what).
Proof.
  apply (getDdsFromSrc_payload_at_end [header1; field1] [tag1] tag2 tag1 [payload1]).
  - vm_compute. reflexivity.
  - repeat constructor; try (intros E; vm_compute in E; discriminate E);
      intros _ E; vm_compute in E; discriminate E.
  - reflexivity.
  - reflexivity.
  - reflexivity.
  - repeat constructor.
  - reflexivity.
  - intros E. vm_compute in E. discriminate E.
Defined.

(** ** The raw-text assembler: the bound fields *)

Module BoundFacts.
Section BoundFacts.
Context `{JsRuntime}.
Import Assembler AssemblerSpec AssemblerFacts EchoSpec BoundSpec MergeSpec RendererSpec.























End BoundFacts.
End BoundFacts.

Import Assembler AssemblerSpec EchoSpec BoundSpec.


Import Sample.



(** ** The merge engine and the text it writes *)

Module WriteFacts.
Section WriteFacts.
Context `{JsRuntime}.
Import Merge MergeSpec MergeFacts RendererSpec Source JsonToDds.

(** The lines before a payload are copied. *)
Lemma Merged_before (formats : list value) (lines : list str) (out : list str) :
  forall (before : list str) (i : nat) (rcdFmt : option str),
    (forall k l, (k < length before)%nat -> lines !! (i + k)%nat = Some l ->
                 before !! k = Some l) ->
    (length before + i <= length lines)%nat ->
    Forall (fun l => is_header l = true \/ opens_payload l = false) before ->
    (forall rcdFmt', Merged formats lines (i + length before) rcdFmt' out) ->
    Merged formats lines i rcdFmt (before ++ out).
Proof.
  induction before as [|l before IH]; intros i rcdFmt Hsame Hlen HF Hout.
  - cbn [app]. specialize (Hout rcdFmt). cbn [length] in Hout.
    rewrite Nat.add_0_r in Hout. exact Hout.
  - apply Forall_cons in HF as [Hl HF]. cbn [length] in Hlen.
    destruct (lookup_lt_is_Some_2 lines i ltac:(lia)) as [x Hx].
    pose proof (Hsame 0%nat x ltac:(cbn [length]; lia)) as Hhead.
    rewrite Nat.add_0_r in Hhead. specialize (Hhead Hx). injection Hhead as <-.
    assert (Hrest : forall rcdFmt', Merged formats lines (S i) rcdFmt' (before ++ out)).
    { intros rcdFmt'. apply IH.
      - intros k y Hk Hy. apply (Hsame (S k) y); [cbn [length]; lia|].
        replace (i + S k)%nat with (S i + k)%nat by lia. exact Hy.
      - lia.
      - exact HF.
      - intros r. replace (S i + length before)%nat with (i + length (l :: before))%nat
          by (cbn [length]; lia). apply Hout. }
    cbn [app]. destruct (is_header l) eqn:Hh.
    + apply Merged_header; [exact Hx | exact Hh | apply Hrest].
    + destruct Hl as [Hl|Hl]; [discriminate Hl|].
      apply Merged_copy; [exact Hx | exact Hh | exact Hl | apply Hrest].
Qed.

Lemma split_CRLF_from_pair (c d : ascii) (source acc : str) :
  split_CRLF_from acc (c :: d :: source)
  = if bool_decide (c = CR) && bool_decide (d = LF)
    then rev acc :: split_CRLF_from [] source
    else split_CRLF_from (c :: acc) (d :: source).
Proof. reflexivity. Qed.

Lemma split_CRLF_from_nonempty (n : nat) : forall (source acc : str),
  (length source <= n)%nat -> split_CRLF_from acc source <> [].
Proof.
  induction n as [|n IH]; intros [|c [|d source]] acc Hn;
    try discriminate; cbn [length] in Hn; try lia.
  rewrite split_CRLF_from_pair.
  destruct (_ && _); [discriminate|]. apply IH. cbn [length]. lia.
Qed.

Lemma join_CRLF_cons (l : str) (lines : list str) :
  lines <> [] -> join_CRLF (l :: lines) = l ++ CR :: LF :: join_CRLF lines.
Proof. destruct lines; [contradiction | reflexivity]. Qed.

Lemma join_split_from (n : nat) : forall (source acc : str),
  (length source <= n)%nat ->
  join_CRLF (split_CRLF_from acc source) = rev acc ++ source.
Proof.
  induction n as [|n IH]; intros [|c [|d source]] acc Hn; cbn [length] in Hn; try lia.
  - cbn [split_CRLF_from join_CRLF]. rewrite app_nil_r. reflexivity.
  - cbn [split_CRLF_from join_CRLF]. rewrite app_nil_r. reflexivity.
  - cbn [split_CRLF_from join_CRLF rev]. reflexivity.
  - rewrite split_CRLF_from_pair.
    destruct (bool_decide (c = CR) && bool_decide (d = LF)) eqn:E.
    + apply andb_true_iff in E as [Ec Ed].
      apply bool_decide_eq_true in Ec, Ed. subst c d.
      rewrite join_CRLF_cons by (apply (split_CRLF_from_nonempty n); lia).
      rewrite IH by lia. reflexivity.
    + rewrite IH by (cbn [length]; lia). cbn [rev]. rewrite <- app_assoc. reflexivity.
Qed.

Lemma map_strip_plain (lines : list str) :
  Forall (fun l => SourceSpec.has_prefix l = false) lines -> map strip_line lines = lines.
Proof.
  induction 1 as [|l ls Hl _ IH]; [reflexivity|].
  cbn [map]. rewrite IH, SourceFacts.strip_line_prefix, Hl. reflexivity.
Qed.

Lemma has_CRLF_tail (x : ascii) (l : str) :
  ~ WriteSpec.has_CRLF (x :: l) -> ~ WriteSpec.has_CRLF l.
Proof. intros Hn (a & b & ->). apply Hn. exists (x :: a), b. reflexivity. Qed.

Lemma split_CRLF_from_line (rest : str) : forall (l acc : str),
  ~ WriteSpec.has_CRLF l ->
  split_CRLF_from acc (l ++ CR :: LF :: rest) = (rev acc ++ l) :: split_CRLF_from [] rest.
Proof.
  induction l as [|x l IH]; intros acc Hl.
  - cbn [app]. rewrite split_CRLF_from_pair.
    rewrite !bool_decide_eq_true_2 by reflexivity. rewrite app_nil_r. reflexivity.
  - pose proof (has_CRLF_tail x l Hl) as Hl'.
    destruct l as [|y l].
    + cbn [app]. rewrite split_CRLF_from_pair.
      rewrite (bool_decide_eq_false_2 (CR = LF)) by discriminate. rewrite andb_false_r.
      pose proof (IH (x :: acc) Hl') as IH'. cbn [app] in IH'. rewrite IH'.
      cbn [rev]. rewrite app_nil_r. reflexivity.
    + cbn [app]. rewrite split_CRLF_from_pair.
      destruct (bool_decide (x = CR) && bool_decide (y = LF)) eqn:E.
      * exfalso. apply andb_true_iff in E as [Ex Ey].
        apply bool_decide_eq_true in Ex, Ey. subst x y.
        apply Hl. exists [], l. reflexivity.
      * change (y :: l ++ CR :: LF :: rest) with ((y :: l) ++ CR :: LF :: rest).
        rewrite (IH (x :: acc) Hl'). cbn [rev]. rewrite <- app_assoc. reflexivity.
Qed.

Lemma split_CRLF_from_last : forall (l acc : str),
  ~ WriteSpec.has_CRLF l -> split_CRLF_from acc l = [rev acc ++ l].
Proof.
  induction l as [|x l IH]; intros acc Hl.
  - cbn [split_CRLF_from]. rewrite app_nil_r. reflexivity.
  - pose proof (has_CRLF_tail x l Hl) as Hl'.
    destruct l as [|y l].
    + cbn [split_CRLF_from rev]. reflexivity.
    + rewrite split_CRLF_from_pair.
      destruct (bool_decide (x = CR) && bool_decide (y = LF)) eqn:E.
      * exfalso. apply andb_true_iff in E as [Ex Ey].
        apply bool_decide_eq_true in Ex, Ey. subst x y.
        apply Hl. exists [], l. reflexivity.
      * rewrite (IH (x :: acc) Hl'). cbn [rev]. rewrite <- app_assoc. reflexivity.
Qed.

Lemma split_join (lines : list str) :
  lines <> [] -> Forall (fun l => ~ WriteSpec.has_CRLF l) lines ->
  split_CRLF (join_CRLF lines) = lines.
Proof.
  induction lines as [|l lines IH]; intros Hne HF; [contradiction|].
  apply Forall_cons in HF as [Hl HF]. unfold split_CRLF in *.
  destruct lines as [|l2 lines].
  - cbn [join_CRLF]. apply (split_CRLF_from_last l [] Hl).
  - rewrite join_CRLF_cons by discriminate.
    rewrite (split_CRLF_from_line _ l [] Hl). cbn [rev app].
    rewrite IH; [reflexivity | discriminate | exact HF].
Qed.

End WriteFacts.
End WriteFacts.

Import Merge MergeSpec MergeFacts Source JsonToDds WriteSpec.

(** X16: a payload tag whose lines all continue to the end of the document
    has no end: the engine drops it, returns the lines before it and raises
    no failure, whatever the model holds. *)
Theorem conversionV1_unclosed_payload `{JsRuntime} (formats : list value)
    (before region : list str) (tag : str) :
  Forall (fun l => is_header l = true \/ opens_payload l = false) before ->
  head region = Some tag ->
  is_header tag = false ->
  opens_payload tag = true ->
  Forall RendererSpec.continues region ->
  conversionV1 formats (before ++ region) = Ok before.
Proof.
  intros Hbefore Htag Hnh Hopen Hcont.
  set (lines := before ++ region).
  assert (HM : Merged formats lines 0 None (before ++ [])).
  { apply WriteFacts.Merged_before.
    - intros k l Hk Hl. subst lines. rewrite lookup_app_l in Hl by exact Hk. exact Hl.
    - subst lines. rewrite length_app. lia.
    - exact Hbefore.
    - intros rcdFmt'. cbn [Nat.add].
      apply (Merged_open_ended formats lines (length before) rcdFmt' tag).
      + subst lines. rewrite lookup_app_r by lia.
        replace (length before - length before)%nat with 0%nat by lia.
        destruct region; [discriminate Htag | exact Htag].
      + exact Hnh.
      + exact Hopen.
      + intros k Hk. destruct (lines !! k) as [cur|] eqn:Hcur.
        * apply (region_end_at_continues lines k cur Hcur).
          subst lines. rewrite lookup_app_r in Hcur by lia.
          rewrite Forall_forall in Hcont. apply Hcont.
          apply list_elem_of_lookup. eexists. exact Hcur.
        * unfold region_end_at. rewrite Hcur. reflexivity. }
  rewrite app_nil_r in HM. unfold conversionV1.
  rewrite (lines_loop_Merged formats lines 0 None before HM (S (length lines)) []) by lia.
  reflexivity.
Qed.

Lemma conversionV1_unclosed_payload_witness :
  conversionV1 [] ([header1; field1] ++ [tag1; tag1]) = Ok [header1; field1].
Proof.
  apply (conversionV1_unclosed_payload [] [header1; field1] [tag1; tag1] tag1).
  - constructor; [left; reflexivity|]. constructor; [right; reflexivity | constructor].
  - reflexivity.
  - reflexivity.
  - reflexivity.
  - repeat constructor.
Defined.

Lemma join_split (source : str) : join_CRLF (split_CRLF source) = source.
Proof.
  unfold split_CRLF.
  rewrite (WriteFacts.join_split_from (length source)) by lia. reflexivity.
Qed.

(** X17: splitting a text at the line separators never gives an empty
    array, and joining the lines with the separator gives the text back. *)
Theorem join_split_CRLF (source : str) :
  split_CRLF source <> [] /\ join_CRLF (split_CRLF source) = source.
Proof.
  split.
  - unfold split_CRLF.
    apply (WriteFacts.split_CRLF_from_nonempty (length source)). lia.
  - apply join_split.
Qed.

(** X18: what jsonToDds.js writes, ddsToJson.js reads back line by line:
    joining with the separator lines of which there is one at least, none of
    which holds the separator or starts with a number, and splitting and
    stripping the text again gives the lines back. *)
Theorem source_lines_join_CRLF (lines : list str) :
  lines <> [] ->
  Forall (fun l => ~ has_CRLF l) lines ->
  Forall (fun l => SourceSpec.has_prefix l = false) lines ->
  source_lines (join_CRLF lines) = lines.
Proof.
  intros Hne Hsep Hplain. unfold source_lines.
  rewrite (WriteFacts.split_join lines Hne Hsep).
  apply WriteFacts.map_strip_plain. exact Hplain.
Qed.

Lemma source_lines_join_CRLF_witness :
  source_lines (join_CRLF [header1; [CR]; [LF]; []]) = [header1; [CR]; [LF]; []].
Proof.
  apply (source_lines_join_CRLF [header1; [CR]; [LF]; []]).
  - discriminate.
  - repeat constructor; intros (a & b & E).
    + apply (f_equal (fun l => bool_decide (CR ∈ l))) in E.
      rewrite (bool_decide_eq_true_2 (CR ∈ a ++ CR :: LF :: b)) in E
        by (apply elem_of_app; right; apply list_elem_of_here).
      vm_compute in E. discriminate E.
    + destruct a as [|x [|y a]]; discriminate E.
    + destruct a as [|x [|y a]]; discriminate E.
    + destruct a as [|x [|y a]]; discriminate E.
  - repeat constructor.
Defined.

(** X19: the text [main] of jsonToDds.js writes is the original text, byte
    for byte, when no line of the original has the numeric prefix and the
    lines are in the rendered form of the model. *)
Theorem main_text_rendered `{JsRuntime} (formats : list value) (originalDds : str) :
  Forall (fun l => SourceSpec.has_prefix l = false) (split_CRLF originalDds) ->
  Rendered formats None (split_CRLF originalDds) ->
  main_text formats originalDds = Ok originalDds.
Proof.
  intros Hplain HR. unfold main_text, source_lines.
  rewrite (WriteFacts.map_strip_plain _ Hplain), (lines_loop_Rendered formats _ HR).
  cbn [mbind outcome_bind].
  f_equal. apply join_split.
Qed.


Lemma payload1_plain : plain payload1.
Proof.
  exists [Sample.json "{`screen`:{`record format name`:`RECFMT1`},`items`:[]}"].
  split; [vm_compute; reflexivity|].
  split; [|split].
  - eexists. split; [reflexivity|]. vm_compute. discriminate.
  - constructor.
  - exists (Sample.json "{`screen`:{`record format name`:`RECFMT1`},`items`:[]").
    split; [reflexivity|]. vm_compute. discriminate.
Qed.

Lemma document1_Rendered : Rendered [payload1] None [header1; tag1; tag2; field1].
Proof.
  apply Rendered_header; [reflexivity|].
  destruct payload1_plain as (chunks & Hchunks & Hwell).
  assert (chunks = [Sample.json "{`screen`:{`record format name`:`RECFMT1`},`items`:[]}"]) as ->.
  { vm_compute in Hchunks. injection Hchunks as <-. reflexivity. }
  apply (Rendered_region [payload1] (Some (header_name header1)) payload1 [] (lit "  1")
           [Sample.json "{`screen`:{`record format name`:`RECFMT1`},`items`:[]}"] [field1]).
  - vm_compute. reflexivity.
  - reflexivity.
  - vm_compute. reflexivity.
  - exact Hwell.
  - vm_compute. discriminate.
  - apply Rendered_copy; [reflexivity | reflexivity | apply Rendered_nil].
Qed.

Lemma main_text_rendered_witness :
  main_text [payload1] (join_CRLF [header1; tag1; tag2; field1])
  = Ok (join_CRLF [header1; tag1; tag2; field1]).
Proof.
  apply (main_text_rendered [payload1] (join_CRLF [header1; tag1; tag2; field1])).
  - replace (split_CRLF (join_CRLF [header1; tag1; tag2; field1]))
      with [header1; tag1; tag2; field1] by (vm_compute; reflexivity).
    repeat constructor.
  - replace (split_CRLF (join_CRLF [header1; tag1; tag2; field1]))
      with [header1; tag1; tag2; field1] by (vm_compute; reflexivity).
    exact document1_Rendered.
Defined.

(** The engine on its own result, for the sample payload. *)
Lemma conversionV1_idempotent_witness :
  conversionV1 [payload1] [header1; tag1; tag2] = Ok [header1; tag1; tag2].
Proof.
  apply (conversionV1_idempotent [payload1] [header1; tag1; tag2_blank; field1; field2]
           [header1; tag1; tag2]).
  - intros rcdFmt obj others Hf.
    assert (Hname : names_format rcdFmt payload1
                    = Ok (bool_decide (rcdFmt = Some (toUpperCase (lit "RECFMT1")))))
      by reflexivity.
    cbn [filter_formats mbind outcome_bind] in Hf. rewrite Hname in Hf.
    cbn [mbind outcome_bind] in Hf.
    destruct (bool_decide (rcdFmt = _)); [|discriminate Hf].
    injection Hf as <- _. exact payload1_plain.
  - vm_compute. reflexivity.
Defined.

(** ** Reading a source file: the three readers *)

Module ReadersFacts.
Import Source SourceSpec SourceFacts WriteSpec.

Lemma has_CRLF_short (l : str) : (length l <= 1)%nat -> ~ has_CRLF l.
Proof.
  intros Hl (a & b & ->). rewrite length_app in Hl. cbn [length] in Hl. lia.
Qed.

Lemma has_CRLF_app_l (a b : str) : ~ has_CRLF (a ++ b) -> ~ has_CRLF a.
Proof.
  intros Hn (x & y & ->). apply Hn. exists x, (y ++ b).
  rewrite <- app_assoc. reflexivity.
Qed.

Lemma has_CRLF_drop (k : nat) (l : str) : ~ has_CRLF l -> ~ has_CRLF (drop k l).
Proof.
  intros Hn (x & y & E). apply Hn. exists (take k l ++ x), y.
  rewrite <- app_assoc, <- E, take_drop. reflexivity.
Qed.

Lemma has_CRLF_snoc (l : str) (c d : ascii) :
  ~ has_CRLF (l ++ [c]) -> ~ (c = CR /\ d = LF) -> ~ has_CRLF (l ++ [c; d]).
Proof.
  intros Hn Hcd (x & y & E).
  destruct (decide (y = [])) as [->|Hy].
  - change (l ++ [c; d]) with (l ++ [c] ++ [d]) in E.
    change (x ++ [CR; LF]) with (x ++ [CR] ++ [LF]) in E.
    rewrite !app_assoc in E. apply app_inj_tail in E as [E ->].
    apply app_inj_tail in E as [_ ->]. apply Hcd. split; reflexivity.
  - destruct (exists_last Hy) as (y' & z & ->).
    change (l ++ [c; d]) with (l ++ [c] ++ [d]) in E.
    change (x ++ CR :: LF :: y' ++ [z]) with (x ++ (CR :: LF :: y') ++ [z]) in E.
    rewrite !app_assoc in E. apply app_inj_tail in E as [E _].
    apply Hn. exists x, y'. exact E.
Qed.

(** No line that [split] returns holds the separator. *)
Lemma split_CRLF_from_free (n : nat) : forall (source acc : str),
  (length source <= n)%nat ->
  ~ has_CRLF (rev acc ++ take 1 source) ->
  Forall (fun l => ~ has_CRLF l) (split_CRLF_from acc source).
Proof.
  induction n as [|n IH]; intros [|c [|d source]] acc Hn Hfree;
    cbn [length] in Hn; try lia.
  - cbn [split_CRLF_from]. cbn [take] in Hfree. rewrite app_nil_r in Hfree.
    constructor; [exact Hfree | constructor].
  - cbn [split_CRLF_from]. cbn [take] in Hfree. rewrite app_nil_r in Hfree.
    constructor; [exact Hfree | constructor].
  - cbn [split_CRLF_from rev]. constructor; [exact Hfree | constructor].
  - rewrite WriteFacts.split_CRLF_from_pair.
    destruct (bool_decide (c = CR) && bool_decide (d = LF)) eqn:E.
    + constructor; [exact (has_CRLF_app_l _ _ Hfree)|].
      apply IH; [lia|]. apply has_CRLF_short.
      cbn [rev app]. rewrite length_take. lia.
    + apply IH; [cbn [length]; lia|].
      cbn [rev take]. rewrite <- app_assoc. apply has_CRLF_snoc; [exact Hfree|].
      intros [-> ->]. rewrite !bool_decide_eq_true_2 in E by reflexivity. discriminate E.
Qed.

Lemma split_CRLF_free (source : str) : Forall (fun l => ~ has_CRLF l) (split_CRLF source).
Proof.
  apply (split_CRLF_from_free (length source)); [lia|].
  apply has_CRLF_short. cbn [rev app]. rewrite length_take. lia.
Qed.

Lemma strip_line_free (l : str) : ~ has_CRLF l -> ~ has_CRLF (strip_line l).
Proof.
  intros Hl. rewrite strip_line_prefix. destruct (has_prefix l); [|exact Hl].
  rewrite substr_from_drop by lia. apply has_CRLF_drop. exact Hl.
Qed.

Lemma parseInt_isNaN_prefix (l : str) : parseInt_isNaN (substr l 0 12) = negb (has_prefix l).
Proof. unfold has_prefix. rewrite negb_involutive. reflexivity. Qed.

(** A line is stripped as the first line says exactly when it is empty or
    agrees with the first line. *)
Lemma strip_line_as_first (p : bool) (l : str) :
  strip_line l = (if p then substr_from l 12 else l) <-> l = [] \/ has_prefix l = p.
Proof.
  rewrite strip_line_prefix. split.
  - destruct (has_prefix l), p; intros E; auto; left.
    + apply substr_from_12_fixed. exact E.
    + apply substr_from_12_fixed. symmetry. exact E.
  - intros [->| ->]; [destruct p; reflexivity | reflexivity].
Qed.

Lemma map_strip_as_first (p : bool) (lines : list str) :
  map strip_line lines = map (fun l => if p then substr_from l 12 else l) lines <->
  Forall (fun l => l = [] \/ has_prefix l = p) lines.
Proof.
  induction lines as [|l lines IH]; [split; [constructor | reflexivity]|].
  cbn [map]. rewrite Forall_cons, <- IH, <- strip_line_as_first. split.
  - intros [= E1 E2]. auto.
  - intros [-> ->]. reflexivity.
Qed.

Lemma strip_document_wide_first (first : str) (rest : list str) :
  strip_document_wide (first :: rest)
  = map (fun l => if has_prefix first then substr_from l 12 else l) (first :: rest).
Proof.
  unfold strip_document_wide. rewrite parseInt_isNaN_prefix.
  destruct (has_prefix first); cbn [negb]; [reflexivity|].
  rewrite map_id. reflexivity.
Qed.

(** The test of each line against the test of the first line only. *)
Lemma strip_lines_document_wide (lines : list str) :
  map strip_line lines = strip_document_wide lines <-> agree_with_first lines.
Proof.
  destruct lines as [|first rest]; [split; [constructor | reflexivity]|].
  rewrite strip_document_wide_first, map_strip_as_first.
  unfold agree_with_first. cbn [hd tl]. rewrite Forall_cons. split.
  - intros [_ HF]. exact HF.
  - intros HF. split; [right; reflexivity | exact HF].
Qed.

(** The lines as they are against the test of the first line. *)
Lemma lines_document_wide (lines : list str) :
  lines = strip_document_wide lines <-> has_prefix (hd [] lines) = false.
Proof.
  destruct lines as [|first rest]; [split; reflexivity|].
  cbn [hd]. unfold strip_document_wide. rewrite parseInt_isNaN_prefix.
  destruct (has_prefix first) eqn:Hp; cbn [negb]; [|split; reflexivity].
  split; [|discriminate]. cbn [map]. intros [= E _].
  symmetry in E. apply substr_from_12_fixed in E. subst first. discriminate Hp.
Qed.

End ReadersFacts.

Import Source SourceSpec SourceFacts VerifyConvert.

(** C2, as stated, fails on every path that reads a source. The first
    line of the first file has no numeric prefix and the second starts with a
    sequence number: both converters strip the second line alone, and
    verifyConvert.js hands the file on as it is. The first line of the second
    file has the prefix and the second has none: both converters and the copy
    that verifyConvert.js writes keep the second line whole; read as a source
    member by ddsToJson.js the file keeps the prefix of its first line. *)
Lemma strip_decided_per_line :
  let l1 := lit "     A          R RECFMT1" in
  let l2 := lit "00020A            FLD1          10A  H" in
  let l3 := lit "000100210101     A          R RECFMT1" in
  let l4 := lit "     A            FLD1          10A  H" in
  source_lines (l1 ++ [CR; LF] ++ l2) = [l1; lit "      FLD1          10A  H"] /\
  strip_document_wide (split_CRLF (l1 ++ [CR; LF] ++ l2)) = [l1; l2] /\
  source_lines (l3 ++ [CR; LF] ++ l4) = [l1; l4] /\
  strip_document_wide (split_CRLF (l3 ++ [CR; LF] ++ l4)) = [l1; lit "      FLD1          10A  H"] /\
  DdsToJson.read_srcLines false (l3 ++ [CR; LF] ++ l4) = [l1; l4] /\
  DdsToJson.read_srcLines true (l3 ++ [CR; LF] ++ l4) = [l3; l4] /\
  origDdsFile (l1 ++ [CR; LF] ++ l2) = Ok SrcFile /\
  origDdsFile (l3 ++ [CR; LF] ++ l4) = Ok (TempOutFile (l1 ++ [CR; LF] ++ l4)).
Proof. repeat split; vm_compute; reflexivity. Qed.

(** C2, amended: no reader strips the prefix from every line because the
    first line has it. Both converters test each line of a stream file on its
    own (jsonToDds.js those of a member too), and what they read is the
    document-wide stripping of the specification exactly when every line
    behind the first is empty or agrees with the first line on having the
    prefix. ddsToJson.js strips nothing from a source member, which is the
    document-wide stripping exactly when the first line has no prefix.
    verifyConvert.js tests the first line once, to decide whether it writes a
    copy; the lines of the copy are tested one by one again, so the file it
    hands on holds the document-wide stripping exactly when the first line has
    no prefix or every line behind it is empty or has the prefix. *)
Theorem strip_paths (source : str) :
  let lines := split_CRLF source in
  (DdsToJson.read_srcLines false source = strip_document_wide lines <->
   agree_with_first lines) /\
  (source_lines source = strip_document_wide lines <-> agree_with_first lines) /\
  (DdsToJson.read_srcLines true source = strip_document_wide lines <->
   has_prefix (hd [] lines) = false) /\
  exists file,
    origDdsFile source = Ok file /\
    (file = SrcFile <-> has_prefix (hd [] lines) = false) /\
    (split_CRLF (file_text source file) = strip_document_wide lines <->
     has_prefix (hd [] lines) = false \/ prefixed_or_empty lines).
Proof.
  intros lines. split; [|split; [|split]].
  - apply ReadersFacts.strip_lines_document_wide.
  - apply ReadersFacts.strip_lines_document_wide.
  - apply ReadersFacts.lines_document_wide.
  - unfold origDdsFile. fold lines.
    pose proof (ReadersFacts.split_CRLF_free source) as Hfree. fold lines in Hfree.
    assert (Hne : lines <> []).
    { apply (WriteFacts.split_CRLF_from_nonempty (length source)). lia. }
    destruct lines as [|first rest] eqn:El; [contradiction|].
    unfold Merge.line_at. change (0 <? 0) with false. cbv iota.
    change ((first :: rest) !! Z.to_nat 0) with (Some first).
    cbn [mbind outcome_bind hd].
    rewrite ReadersFacts.parseInt_isNaN_prefix.
    destruct (has_prefix first) eqn:Hp; cbn [negb].
    + eexists. split; [reflexivity|]. split; [split; discriminate|].
      cbn [file_text].
      rewrite WriteFacts.split_join.
      * rewrite ReadersFacts.strip_document_wide_first, Hp.
        rewrite (ReadersFacts.map_strip_as_first true).
        unfold prefixed_or_empty. cbn [tl]. rewrite Forall_cons. split.
        -- intros [_ HF]. right. exact HF.
        -- intros [E|HF]; [discriminate E|]. split; [right; exact Hp | exact HF].
      * discriminate.
      * apply Forall_map. eapply Forall_impl; [exact Hfree|].
        intros l Hl. apply ReadersFacts.strip_line_free. exact Hl.
    + exists SrcFile. split; [reflexivity|]. split; [split; reflexivity|].
      cbn [file_text]. fold lines. rewrite El.
      split; [intros _; left; reflexivity|]. intros _.
      apply ReadersFacts.lines_document_wide. exact Hp.
Qed.

(** ** The merge engine ends *)

Module OutcomeFacts.
Section OutcomeFacts.
Context `{JsRuntime}.

Lemma region_end_at_outcome (lines : list str) (j : nat) :
  (exists b, region_end_at lines j = Ok b) \/
  region_end_at lines j = Throw (TypeError (lit "substring")).
Proof.
  unfold region_end_at.
  destruct (lines !! j) as [cur|] eqn:Hcur; [|left; eexists; reflexivity].
  pose proof (lookup_lt_Some _ _ _ Hcur) as Hj.
  destruct (_ && _); [|left; eexists; reflexivity].
  case_bool_decide as Hlast; [left; eexists; reflexivity|].
  unfold size_lines in Hlast.
  destruct (lookup_lt_is_Some_2 lines (S j) ltac:(lia)) as [next Hnext].
  replace (Z.of_nat j + 1) with (Z.of_nat (S j)) by lia.
  rewrite (line_at_lookup _ _ _ _ Hnext). cbn [mbind outcome_bind].
  destruct (negb (str_eqb (substr next 44 6) htmlOpen)); [|left; eexists; reflexivity].
  destruct j as [|j].
  - right. reflexivity.
  - destruct (lookup_lt_is_Some_2 lines j ltac:(lia)) as [prev Hprev].
    replace (Z.of_nat (S j) - 1) with (Z.of_nat j) by lia.
    rewrite (line_at_lookup _ _ _ _ Hprev). left. eexists. reflexivity.
Qed.

Lemma chunks_loop_returns (open : str) (Hw : 0 <= 79 - size open) :
  forall (htmlChunks : list str) (rtnLines : list str),
    exists out, Renderer.chunks_loop open htmlChunks rtnLines = Ok out.
Proof.
  induction htmlChunks as [|chunk htmlChunks IH]; intros rtnLines.
  - exists rtnLines. reflexivity.
  - cbn [Renderer.chunks_loop].
    destruct (RendererFacts.chunk_lines_closed open chunk rtnLines Hw)
      as (lines' & stop & -> & _).
    cbn [mbind outcome_bind]. destruct stop; [eexists; reflexivity | apply IH].
Qed.

Lemma render_region_result (formats : list value) (rcdFmt : option str) (l : str) :
  (exists rendered, render_region formats rcdFmt l = Ok rendered) \/
  (exists what, what ∈ failure_labels /\
                render_region formats rcdFmt l = Throw (TypeError what)).
Proof.
  unfold render_region.
  destruct (filter_formats_outcome rcdFmt formats) as [(found & ->)|(what & Hw & ->)];
    cbn [mbind outcome_bind].
  - destruct found as [|obj found]; cbn [head].
    + right. exists (lit "replace"). split; [|reflexivity].
      apply list_elem_of_In. simpl. tauto.
    + left. unfold Renderer.htmlObjToDdsLines.
      destruct (chunkData_returns (escape_quotes (JSON_stringify obj)) 2500 ltac:(lia))
        as (chunks & -> & _).
      cbn [mbind outcome_bind]. apply chunks_loop_returns.
      rewrite RendererFacts.size_htmlOpen.
      pose proof (size_line_number l). lia.
  - right. exists what. split; [exact Hw | reflexivity].
Qed.

Lemma region_loop_outcome (formats : list value) (rcdFmt : option str) (origSrcLine : str)
    (lines : list str) (out : list str) :
  forall (fuel i : nat),
    (length lines - i < fuel)%nat ->
    (exists j out', (i <= j)%nat /\
       region_loop fuel formats rcdFmt origSrcLine lines i out = Ok (j, out')) \/
    (exists what, (what ∈ failure_labels \/ what = lit "substring") /\
       region_loop fuel formats rcdFmt origSrcLine lines i out = Throw (TypeError what)).
Proof.
  induction fuel as [|fuel IH]; intros i Hf; [lia|].
  destruct (lines !! i) as [cur|] eqn:Hcur.
  - rewrite (region_loop_step _ _ _ _ _ _ _ _ Hcur).
    pose proof (lookup_lt_Some _ _ _ Hcur) as Hi.
    destruct (region_end_at_outcome lines i) as [[b ->]| ->]; cbn [mbind outcome_bind].
    + destruct b.
      * destruct (render_region_result formats rcdFmt origSrcLine)
          as [(rendered & ->)|(what & Hw & ->)]; cbn [mbind outcome_bind].
        -- left. exists i, (out ++ rendered). split; [lia | reflexivity].
        -- right. exists what. split; [left; exact Hw | reflexivity].
      * destruct (IH (S i) ltac:(lia)) as [(j & out' & Hj & ->)|Hfail].
        -- left. exists j, out'. split; [lia | reflexivity].
        -- right. exact Hfail.
    + right. exists (lit "substring"). split; [right; reflexivity | reflexivity].
  - left. exists i, out. split; [lia|]. cbn [region_loop]. rewrite Hcur. reflexivity.
Qed.

Lemma lines_loop_outcome (formats : list value) (lines : list str) :
  forall (fuel i : nat) (rcdFmt : option str) (out : list str),
    (length lines - i < fuel)%nat ->
    (exists res, lines_loop fuel formats lines i rcdFmt out = Ok res) \/
    (exists what, (what ∈ failure_labels \/ what = lit "substring") /\
       lines_loop fuel formats lines i rcdFmt out = Throw (TypeError what)).
Proof.
  induction fuel as [|fuel IH]; intros i rcdFmt out Hf; [lia|].
  cbn [lines_loop].
  destruct (lines !! i) as [l|] eqn:Hl; [|left; eexists; reflexivity].
  pose proof (lookup_lt_Some _ _ _ Hl) as Hi.
  destruct (str_eqb (substr l 5 12) rcdFmtOpen); [apply IH; lia|].
  destruct (_ && _); [|apply IH; lia].
  destruct (region_loop_outcome formats rcdFmt l lines out (S (length lines - i)) i ltac:(lia))
    as [(j & out' & Hj & ->)|(what & Hw & ->)]; cbn [mbind outcome_bind].
  - apply IH. lia.
  - right. exists what. split; [exact Hw | reflexivity].
Qed.

End OutcomeFacts.
End OutcomeFacts.

(** X21: the engine ends on every document and every model: it returns
    lines, or it throws a [TypeError] for the read of [replace], [screen],
    [record format name] or [toUpperCase] (the model has no payload to
    render, or a payload without these), or of [substring] (a payload that
    ends on the first line of the document). *)
Theorem conversionV1_outcome `{JsRuntime} (formats : list value) (lines : list str) :
  (exists out, conversionV1 formats lines = Ok out) \/
  (exists what, (what ∈ failure_labels \/ what = lit "substring") /\
                conversionV1 formats lines = Throw (TypeError what)).
Proof.
  unfold conversionV1. apply OutcomeFacts.lines_loop_outcome. lia.
Qed.

(** ** The display file read *)

Module ReadFacts.
Section ReadFacts.
Context `{JsRuntime}.

Lemma substr_tag_open (l : str) :
  substr l 44 7 = lit "HTML('{" -> substr l 44 5 = lit "HTML(".
Proof.
  rewrite !RendererFacts.substr_within by lia. intros E.
  replace (take (Z.to_nat 5) (drop (Z.to_nat 44) l))
    with (take 5 (take (Z.to_nat 7) (drop (Z.to_nat 44) l)))
    by (rewrite take_take; reflexivity).
  rewrite E. reflexivity.
Qed.

Lemma not_rich_no_tag (srcLines : list str) :
  DdsToJson.not_rich srcLines = true ->
  Forall (fun l => substr l 44 7 <> lit "HTML('{") srcLines.
Proof.
  unfold DdsToJson.not_rich. intros Hn. apply negb_true_iff in Hn.
  apply Forall_forall. intros l Hl E.
  assert (Hex : existsb (fun srcLine => str_eqb (substr srcLine 44 5) (lit "HTML(")) srcLines = true).
  { apply existsb_exists. exists l. split; [apply list_elem_of_In; exact Hl|].
    apply str_eqb_eq. apply substr_tag_open. exact E. }
  rewrite Hex in Hn. discriminate Hn.
Qed.

End ReadFacts.
End ReadFacts.

(** X22: the test [main] of ddsToJson.js makes for a Rich Display File
    never turns away a document with a payload: when no line has [HTML(] from
    column 45 the scanner returns the empty list. *)
Theorem not_rich_no_payload `{JsRuntime} (srcLines : list str) :
  DdsToJson.not_rich srcLines = true ->
  getFormatsFromSrc srcLines = Ok [].
Proof.
  intros Hn. unfold getFormatsFromSrc, scan_start.
  rewrite ScanFacts.scan_lines_plain by (apply ReadFacts.not_rich_no_tag; exact Hn).
  reflexivity.
Qed.

Lemma not_rich_no_payload_witness :
  getFormatsFromSrc [header1; field1; field2] = Ok [].
Proof.
  apply (not_rich_no_payload [header1; field1; field2]). reflexivity.
Defined.

(** X23: [main] of ddsToJson.js fails with a [TypeError] on a display file
    with the keyword [ALLINONE] that ends with the lines of a screen payload,
    the last line closing the tag: the payloads and the keywords are read, and
    the assembler reads the line behind the last one. *)
Theorem main_lines_payload_at_end `{JsRuntime} (text : str) (before init : list str)
    (last tag : str) (found : list value) :
  lit "ALLINONE" ∈ getKeywordsFromSrc (before ++ init ++ [last]) ->
  getFormatsFromSrc (before ++ init ++ [last]) = Ok found ->
  Forall before_payload before ->
  head (init ++ [last]) = Some tag ->
  is_header tag = false ->
  opens_payload tag = true ->
  Forall RendererSpec.continues init ->
  tagged last ->
  ~ RendererSpec.continues last ->
  exists what,
    DdsToJson.main_lines text (before ++ init ++ [last]) = Throw (TypeError what).
Proof.
  intros Hall Hscan Hbefore Htag Hnh Hopen Hcont Hlt Hclosed.
  destruct (EchoEndFacts.echo_payload_at_end before init last tag found
              Hscan Hbefore Htag Hnh Hopen Hcont Hlt Hclosed) as [what Hfail].
  exists what. unfold DdsToJson.main_lines.
  assert (Hrich : DdsToJson.not_rich (before ++ init ++ [last]) = false).
  { unfold DdsToJson.not_rich. apply negb_false_iff, existsb_exists. exists tag. split.
    - apply in_or_app. right. destruct (init ++ [last]); [discriminate Htag|].
      injection Htag as ->. left. reflexivity.
    - apply str_eqb_eq. apply ReadFacts.substr_tag_open.
      unfold opens_payload in Hopen. apply andb_true_iff in Hopen as [_ Hb].
      apply str_eqb_eq in Hb. exact Hb. }
  rewrite Hrich, Hscan. cbn [mbind outcome_bind].
  rewrite bool_decide_eq_true_2 by exact Hall. rewrite Hfail. reflexivity.
Qed.

Lemma main_lines_payload_at_end_witness :
  exists what,
    DdsToJson.main_lines (lit "TODO - look for .ibmi properties")
      ([lit "     A                                      ALLINONE"; header1; field1]
       ++ [tag1] ++ [tag2])
    = Throw (TypeError what).
Proof.
  apply (main_lines_payload_at_end (lit "TODO - look for .ibmi properties")
           [lit "     A                                      ALLINONE"; header1; field1]
           [tag1] tag2 tag1 [payload1]).
  - vm_compute. apply list_elem_of_here.
  - vm_compute. reflexivity.
  - repeat constructor; try (intros E; vm_compute in E; discriminate E);
      intros _ E; vm_compute in E; discriminate E.
  - reflexivity.
  - reflexivity.
  - reflexivity.
  - repeat constructor.
  - reflexivity.
  - intros E. vm_compute in E. discriminate E.
Defined.

(** ** From DDS to JSON and back *)

Module VerifyFacts.
Section VerifyFacts.
Context `{JsRuntime}.
Import VerifySpec RendererSpec.

Lemma Laid_Rendered (formats : list value) :
  forall rcdFmt lines payloads,
    Laid formats rcdFmt lines payloads -> Rendered formats rcdFmt lines.
Proof.
  induction 1 as [rcdFmt | rcdFmt l rest payloads Hh Hn _ IH
                 | rcdFmt l rest payloads Hh Hn _ IH
                 | rcdFmt obj others n chunks rest payloads Hf Hn Hp Hc Hw Hs Hnext _ IH].
  - apply Rendered_nil.
  - apply Rendered_header; assumption.
  - apply Rendered_copy; [exact Hh | | exact IH].
    unfold opens_payload. apply andb_false_iff. right. apply str_eqb_neq. exact Hn.
  - eapply Rendered_region; eassumption.
Qed.

Lemma Laid_scan (formats : list value) :
  forall rcdFmt lines payloads,
    Laid formats rcdFmt lines payloads ->
    forall fs,
      scan_lines {| isHtmlJsonTag := false; htmlTag := []; Scanner.formats := fs |} lines
      = Ok {| isHtmlJsonTag := false; htmlTag := []; Scanner.formats := fs ++ payloads |}.
Proof.
  induction 1 as [rcdFmt | rcdFmt l rest payloads Hh Hn _ IH
                 | rcdFmt l rest payloads Hh Hn _ IH
                 | rcdFmt obj others n chunks rest payloads Hf Hn Hp Hc Hw Hs Hnext _ IH];
    intros fs.
  - cbn [scan_lines]. rewrite app_nil_r. reflexivity.
  - cbn [scan_lines]. unfold scan_line. cbn [isHtmlJsonTag].
    rewrite ScanFacts.open_tag_plain by exact Hn. cbn [mbind outcome_bind htmlTag Scanner.formats].
    apply IH.
  - cbn [scan_lines]. unfold scan_line. cbn [isHtmlJsonTag].
    rewrite ScanFacts.open_tag_plain by exact Hn. cbn [mbind outcome_bind htmlTag Scanner.formats].
    apply IH.
  - destruct Hs as (Hfirst & Hlong & H28 & Hft & Hlater & Hpre).
    rewrite scan_lines_app.
    rewrite (RoundTripFacts.scan_layout n Hn obj chunks false [] fs).
    + cbn [mbind outcome_bind]. rewrite IH, <- app_assoc. reflexivity.
    + destruct Hfirst as (first & Hh). intros ->. discriminate Hh.
    + exact Hlong.
    + exact H28.
    + exact Hft.
    + intros _. split; [reflexivity | exact Hfirst].
    + exact Hlater.
    + exact Hpre.
    + cbn [app]. rewrite (chunkData_concat _ 2500 chunks ltac:(lia) Hc).
      rewrite unescape_escape. exact Hp.
Qed.

(** What the engine writes is laid out for the scanner, when the payloads
    it takes from the model are readable. *)
Lemma Merged_Laid (formats : list value) (lines : list str) :
  (forall rcdFmt obj others,
      filter_formats rcdFmt formats = Ok (obj :: others) -> readable obj) ->
  tags_agree lines ->
  forall i rcdFmt out, Merged formats lines i rcdFmt out ->
    exists payloads, Laid formats rcdFmt out payloads.
Proof.
  intros Hread Hagree.
  assert (Hline : forall i l, lines !! i = Some l ->
            substr l 44 7 = lit "HTML('{" -> is_header l = false /\ opens_payload l = true).
  { intros i l Hl. unfold tags_agree in Hagree. rewrite Forall_forall in Hagree.
    apply Hagree. apply list_elem_of_lookup. exists i. exact Hl. }
  induction 1 as [i rcdFmt Hi
                 |i rcdFmt l out' Hl Hh _ [payloads IH]
                 |i rcdFmt l out' Hl Hh Ho _ [payloads IH]
                 |i j rcdFmt l rendered out' Hl Hh Ho Hend Hrender HM [payloads IH]
                 |i rcdFmt l Hl Hh Ho Hnone].
  - exists []. apply Laid_nil.
  - exists payloads. apply Laid_header; [exact Hh | | exact IH].
    intros E. destruct (Hline i l Hl E) as [Hh' _]. rewrite Hh in Hh'. discriminate Hh'.
  - exists payloads. apply Laid_copy; [exact Hh | | exact IH].
    intros E. destruct (Hline i l Hl E) as [_ Ho']. rewrite Ho in Ho'. discriminate Ho'.
  - unfold render_region in Hrender.
    destruct (filter_formats rcdFmt formats) as [found| |] eqn:Hfound;
      cbn [mbind outcome_bind] in Hrender; [|discriminate..].
    destruct found as [|obj others]; [discriminate|]. cbn [head] in Hrender.
    destruct (Hread rcdFmt obj others Hfound) as (Hparse & chunks & Hchunks & Hwell & Hscan).
    pose proof (opens_payload_line_number l Ho) as Hn.
    rewrite (RendererFacts.htmlObjToDdsLines_layout obj _ Hn), Hchunks in Hrender.
    cbn [mbind outcome_bind] in Hrender. injection Hrender as <-.
    exists (obj :: payloads).
    apply (Laid_region formats rcdFmt obj others (substr l 38 3) chunks out' payloads);
      try assumption.
    destruct Hend as (_ & Hj & _). exact (Merged_next_ok _ _ _ _ _ Hj HM).
  - exists []. apply Laid_nil.
Qed.

End VerifyFacts.
End VerifyFacts.

Import VerifySpec.

(** X24: from DDS to JSON and back: for a document in the rendered form of
    a model, with the payloads of its regions, the scanner returns these
    payloads and the engine returns the document unchanged. When the model is
    the list of these payloads, the two conversions in a row give the document
    back: this is what verifyConvert.js tests. *)
Theorem scan_and_merge_laid `{JsRuntime} (formats : list value) (lines : list str)
    (payloads : list value) :
  Laid formats None lines payloads ->
  getFormatsFromSrc lines = Ok payloads /\
  conversionV1 formats lines = Ok lines.
Proof.
  intros HL. split.
  - unfold getFormatsFromSrc, scan_start.
    rewrite (VerifyFacts.Laid_scan formats None lines payloads HL []). reflexivity.
  - apply lines_loop_Rendered. apply (VerifyFacts.Laid_Rendered formats None lines payloads HL).
Qed.

Lemma scan_and_merge_laid_witness :
  getFormatsFromSrc [header1; tag1; tag2; field1] = Ok [payload1] /\
  conversionV1 [payload1] [header1; tag1; tag2; field1] = Ok [header1; tag1; tag2; field1].
Proof.
  apply (scan_and_merge_laid [payload1] [header1; tag1; tag2; field1] [payload1]).
  apply Laid_header; [reflexivity | intros E; vm_compute in E; discriminate E |].
  destruct payload1_plain as (chunks & Hchunks & Hwell).
  assert (chunks = [Sample.json "{`screen`:{`record format name`:`RECFMT1`},`items`:[]}"]) as ->.
  { vm_compute in Hchunks. injection Hchunks as <-. reflexivity. }
  apply (Laid_region [payload1] (Some (header_name header1)) payload1 [] (lit "  1")
           [Sample.json "{`screen`:{`record format name`:`RECFMT1`},`items`:[]}"] [field1] []).
  - vm_compute. reflexivity.
  - reflexivity.
  - vm_compute. reflexivity.
  - vm_compute. reflexivity.
  - exact Hwell.
  - split; [eexists; reflexivity|].
    split; [constructor|].
    split; [repeat constructor; vm_compute; discriminate|].
    split; [repeat constructor; intros E; vm_compute in E; discriminate E|].
    split; [constructor|].
    intros k Hk. cbn [length] in Hk. lia.
  - vm_compute. discriminate.
  - apply Laid_copy; [reflexivity | intros E; vm_compute in E; discriminate E | apply Laid_nil].
Defined.

(** ** The raw-text assembler ends *)

Module EchoOutcomeFacts.
Section EchoOutcomeFacts.
Context `{JsRuntime}.
Import OutcomeSpec.

Lemma returns_Ok {A} (a : A) : returns_or_TypeError (Ok a).
Proof. left. exists a. reflexivity. Qed.

Lemma returns_Throw {A} (what : str) : returns_or_TypeError (@Throw A (TypeError what)).
Proof. right. exists what. reflexivity. Qed.

Lemma returns_bind {A B} (m : outcome A) (k : A -> outcome B) :
  returns_or_TypeError m ->
  (forall a, m = Ok a -> returns_or_TypeError (k a)) ->
  returns_or_TypeError (m ≫= k).
Proof.
  intros [(a & ->)|(what & ->)] Hk; cbn [mbind outcome_bind].
  - apply Hk. reflexivity.
  - apply returns_Throw.
Qed.

Lemma prop_returns (v : option value) (k : str) : returns_or_TypeError (prop v k).
Proof.
  destruct v as [[| | | | |]|]; cbn [prop]; (apply returns_Ok || apply returns_Throw).
Qed.

Lemma call_toUpperCase_returns (v : option value) : returns_or_TypeError (call_toUpperCase v).
Proof.
  destruct v as [[| | | | |]|]; cbn [call_toUpperCase];
    (apply returns_Ok || apply returns_Throw).
Qed.

Lemma filter_formats_returns (rcdFmt : option str) (found : list value) :
  returns_or_TypeError (filter_formats rcdFmt found).
Proof.
  destruct (filter_formats_outcome rcdFmt found) as [(x & ->)|(what & _ & ->)];
    [apply returns_Ok | apply returns_Throw].
Qed.

Lemma collect_property_returns (fields : list str) (v : value) :
  returns_or_TypeError (collect_property fields v).
Proof.
  unfold collect_property. destruct (is_object v); [|apply returns_Ok].
  apply returns_bind; [apply prop_returns|]. intros fieldName _.
  destruct (truthy fieldName); [|apply returns_Ok].
  apply returns_bind; [apply call_toUpperCase_returns|]. intros upper _. apply returns_Ok.
Qed.

Lemma collect_properties_returns (vs : list value) : forall fields,
  returns_or_TypeError (collect_properties fields vs).
Proof.
  induction vs as [|v vs IH]; intros fields; cbn [collect_properties]; [apply returns_Ok|].
  apply returns_bind; [apply collect_property_returns|]. intros fields' _. apply IH.
Qed.

Lemma collect_item_returns (fields : list str) (item : value) :
  returns_or_TypeError (collect_item fields item).
Proof.
  destruct item as [| | | |elts|props]; cbn [collect_item]; try apply returns_Ok.
  - apply collect_properties_returns.
  - destruct props as [|p props]; [apply collect_properties_returns|].
    destruct (assoc _ _); [apply returns_Throw | apply collect_properties_returns].
Qed.

Lemma collect_items_returns (items : list value) : forall fields,
  returns_or_TypeError (collect_items fields items).
Proof.
  induction items as [|item items IH]; intros fields; cbn [collect_items]; [apply returns_Ok|].
  apply returns_bind; [apply collect_item_returns|]. intros fields' _. apply IH.
Qed.

Lemma getBoundFields_returns (rcdFmt : option value) :
  returns_or_TypeError (getBoundFields rcdFmt).
Proof.
  unfold getBoundFields. apply returns_bind; [apply prop_returns|]. intros items _.
  destruct items as [[| | | | |]|];
    (apply returns_Ok || apply returns_Throw || apply collect_items_returns).
Qed.

Lemma line_at_returns (srcLines : list str) (i : Z) (method : str) :
  returns_or_TypeError (Merge.line_at srcLines i method).
Proof.
  unfold Merge.line_at. destruct (i <? 0); [apply returns_Throw|].
  destruct (srcLines !! Z.to_nat i); [apply returns_Ok | apply returns_Throw].
Qed.

(** The skip of a control format ends: at the last line it stops or reads
    behind it. *)
Lemma skip_control_returns (srcLines : list str) : forall (fuel i : nat),
  (length srcLines - i < fuel)%nat ->
  returns_or_TypeError (skip_control fuel srcLines i).
Proof.
  induction fuel as [|fuel IH]; intros i Hf; [lia|].
  cbn [skip_control]. unfold Merge.line_at.
  replace (Z.of_nat i <? 0) with false by (symmetry; apply Z.ltb_ge; lia).
  rewrite Nat2Z.id.
  destruct (srcLines !! i) as [cur|] eqn:Hcur; cbn [mbind outcome_bind];
    [|apply returns_Throw].
  pose proof (lookup_lt_Some _ _ _ Hcur).
  destruct (str_eqb _ _); [apply IH; lia | apply returns_Ok].
Qed.

Lemma skip_screen_returns (st : echo_state) (srcLines : list str) : forall (fuel i : nat),
  (length srcLines - i < fuel)%nat ->
  returns_or_TypeError (skip_screen fuel st srcLines i).
Proof.
  induction fuel as [|fuel IH]; intros i Hf; [lia|].
  cbn [skip_screen].
  destruct (srcLines !! i) as [cur|] eqn:Hcur; [|apply returns_Ok].
  pose proof (lookup_lt_Some _ _ _ Hcur).
  destruct (_ && _); [|apply IH; lia].
  apply returns_bind; [apply line_at_returns|]. intros next _.
  destruct (negb (str_eqb (substr next 44 6) _)); [|apply IH; lia].
  apply returns_bind; [apply line_at_returns|]. intros prev _.
  destruct (negb (_ =? _)); [|apply IH; lia].
  destruct (rcdFmtObj st); [|apply returns_Throw].
  apply returns_bind; [apply getBoundFields_returns|]. intros fields _. apply returns_Ok.
Qed.

Lemma echo_loop_returns (found : list value) (srcLines : list str) :
  forall (fuel i : nat) (st : echo_state),
    (length srcLines - i < fuel)%nat ->
    returns_or_TypeError (echo_loop fuel found srcLines i st).
Proof.
  induction fuel as [|fuel IH]; intros i st Hf; [lia|].
  cbn [echo_loop].
  destruct (srcLines !! i) as [line|] eqn:Hline; [|apply returns_Ok].
  pose proof (lookup_lt_Some _ _ _ Hline).
  apply returns_bind.
  { destruct (str_eqb (substr line 5 12) _); [|apply returns_Ok].
    apply returns_bind; [apply filter_formats_returns|]. intros objs _. apply returns_Ok. }
  intros st1 _.
  destruct (_ && _).
  - apply returns_bind; [apply skip_control_returns; lia|].
    intros j Hj. apply EchoFacts.skip_control_from in Hj. apply IH. lia.
  - destruct (_ && _); [|apply IH; lia].
    apply returns_bind; [apply skip_screen_returns; lia|].
    intros [j fields] Hj. apply EchoFacts.skip_screen_from in Hj. apply IH. lia.
Qed.

Lemma scan_lines_ends (srcLines : list str) : forall st,
  (exists st', scan_lines st srcLines = Ok st') \/ scan_lines st srcLines = Throw SyntaxError.
Proof.
  assert (Hopen : forall st line,
            (exists st', open_tag st line = Ok st') \/ open_tag st line = Throw SyntaxError).
  { intros st line. unfold open_tag.
    destruct (str_eqb _ _); [|left; eexists; reflexivity].
    destruct (negb _); [|left; eexists; reflexivity].
    unfold addToFormats. destruct (JSON_parse _); cbn [mbind outcome_bind];
      [left; eexists; reflexivity | right; reflexivity]. }
  induction srcLines as [|line srcLines IH]; intros st; [left; eexists; reflexivity|].
  cbn [scan_lines].
  assert (Hline : (exists st', scan_line st line = Ok st') \/ scan_line st line = Throw SyntaxError).
  { unfold scan_line. destruct (isHtmlJsonTag st); [|apply Hopen].
    destruct (negb _); [|left; eexists; reflexivity].
    destruct (addToFormats _ _); [apply Hopen | left; eexists; reflexivity..]. }
  destruct Hline as [(st' & ->)| ->]; cbn [mbind outcome_bind]; [apply IH | right; reflexivity].
Qed.

End EchoOutcomeFacts.
End EchoOutcomeFacts.

(** X25: both readers end on every document. The scanner returns, or
    throws the [SyntaxError] of a tag that opens and closes on one line. The
    assembler returns, or throws that [SyntaxError], or a [TypeError]: the
    loops that skip a control format and a screen format stop at the end of
    the document, by reading behind it if not before. *)
Theorem getDdsFromSrc_outcome `{JsRuntime} (srcLines : list str) :
  ((exists found, getFormatsFromSrc srcLines = Ok found) \/
   getFormatsFromSrc srcLines = Throw SyntaxError) /\
  ((exists out, getDdsFromSrc srcLines = Ok out) \/
   getDdsFromSrc srcLines = Throw SyntaxError \/
   (exists what, getDdsFromSrc srcLines = Throw (TypeError what))).
Proof.
  unfold getDdsFromSrc, getFormatsFromSrc.
  destruct (EchoOutcomeFacts.scan_lines_ends srcLines scan_start) as [(st & ->)| ->];
    cbn [mbind outcome_bind].
  - split; [left; eexists; reflexivity|].
    destruct (EchoOutcomeFacts.echo_loop_returns (formats st) srcLines (S (length srcLines))
                0%nat echo_start ltac:(lia)) as [(out & ->)|(what & ->)].
    + left. eexists. reflexivity.
    + right. right. eexists. reflexivity.
  - split; [right; reflexivity|]. right. left. reflexivity.
Qed.

(** X26: what the engine writes, the scanner reads back: when the payloads
    the engine takes from the model are readable, and the lines of the
    original that the scanner takes for the first line of a payload are lines
    the engine takes for one, the document the engine returns is in the
    rendered form of the model, and the scanner returns from it the payloads of
    the model that the engine rendered, in their order. *)
Theorem scan_merged `{JsRuntime} (formats : list value) (lines out : list str) :
  (forall rcdFmt obj others,
      filter_formats rcdFmt formats = Ok (obj :: others) -> readable obj) ->
  tags_agree lines ->
  conversionV1 formats lines = Ok out ->
  exists payloads,
    Laid formats None out payloads /\
    getFormatsFromSrc out = Ok payloads.
Proof.
  intros Hread Hagree Hrun. unfold conversionV1 in Hrun.
  apply lines_loop_complete in Hrun as (out' & -> & HM); [|lia].
  cbn [app].
  destruct (VerifyFacts.Merged_Laid formats lines Hread Hagree 0%nat None out' HM)
    as [payloads HL].
  exists payloads. split; [exact HL|].
  unfold getFormatsFromSrc, scan_start.
  rewrite (VerifyFacts.Laid_scan formats None out' payloads HL []). reflexivity.
Qed.

Lemma payload1_lower_readable : readable payload1_lower.
Proof.
  split; [vm_compute; reflexivity|].
  exists [Sample.json "{`screen`:{`record format name`:`recfmt1`},`items`:[]}"].
  split; [vm_compute; reflexivity|]. split.
  - split; [|split].
    + eexists. split; [reflexivity|]. vm_compute. discriminate.
    + constructor.
    + exists (Sample.json "{`screen`:{`record format name`:`recfmt1`},`items`:[]").
      split; [reflexivity|]. vm_compute. discriminate.
  - split; [eexists; reflexivity|].
    split; [constructor|].
    split; [repeat constructor; vm_compute; discriminate|].
    split; [repeat constructor; intros E; vm_compute in E; discriminate E|].
    split; [constructor|].
    intros k Hk. cbn [length] in Hk. lia.
Qed.

(** The sample document merged with a model that has the name in lower
    case, and read back. *)
Lemma scan_merged_witness :
  exists payloads,
    Laid [payload1_lower] None [header1; tag1; tag2_lower; field1] payloads /\
    getFormatsFromSrc [header1; tag1; tag2_lower; field1] = Ok payloads.
Proof.
  apply (scan_merged [payload1_lower] [header1; tag1; tag2; field1]
           [header1; tag1; tag2_lower; field1]).
  - intros rcdFmt obj others Hf.
    assert (Hname : names_format rcdFmt payload1_lower
                    = Ok (bool_decide (rcdFmt = Some (toUpperCase (lit "recfmt1")))))
      by reflexivity.
    cbn [filter_formats mbind outcome_bind] in Hf. rewrite Hname in Hf.
    cbn [mbind outcome_bind] in Hf.
    destruct (bool_decide (rcdFmt = _)); [|discriminate Hf].
    injection Hf as <- _. exact payload1_lower_readable.
  - unfold tags_agree.
    apply Forall_cons; split; [intros E; vm_compute in E; discriminate E|].
    apply Forall_cons; split; [intros _; split; reflexivity|].
    apply Forall_cons; split; [intros E; vm_compute in E; discriminate E|].
    apply Forall_cons; split; [intros E; vm_compute in E; discriminate E|].
    constructor.
  - vm_compute. reflexivity.
Defined.
